(** * create-lavalink: [bin/cli.js]

    A shallow embedding of [downloadFile] (bin/cli.js, lines 27-63), of
    its call site in [createLavalink] (lines 118-126), and of the wizard
    around it: [runCommand] (lines 17-25) and the rest of [createLavalink]
    (lines 65-203).

    [downloadFile] is an [async] function.  Between two suspension points a
    JavaScript job runs to completion, so the function is embedded as a
    reactive state machine: [downloadFile_start] is the synchronous prefix
    (lines 28-51, up to the first [await reader.read()]), and [step] is what
    one job of the event loop does to the state:
      - [TimerTick]: the [setInterval] callback of lines 40-44 fires;
      - [ReaderSettled r]: the pending [reader.read()] promise settles and the
        loop of lines 50-55 resumes (on end of stream, lines 56-62 follow in
        the same chain of microtasks, before any timer can fire);
      - [StreamIO]: the write stream created on line 46 completes one of its
        asynchronous operations (open, write of the oldest queued chunk,
        close).
    The order in which the environment delivers these events is the
    schedule; the theorems quantify over it.

    The byte counter is modelled as [N]: the byte counts of the program
    are exact IEEE doubles below 2^53, and dividing by 1024 twice is exact
    in binary floating point.  The declared total is the header, a string,
    coerced to a Number: [StringToNumber] gives the double and [toFixed2]
    prints it.  The operations of the write stream are taken to succeed;
    the program installs no handler for the stream's error event.

    The wizard is sequential code around prompts, the network, the shell,
    [js-yaml] and the file system.  It is embedded in a monad of state and
    early termination; what its surroundings answer is an [environment],
    and the theorems quantify over it.  Every prompt and every fetch of
    the wizard is taken to settle, with a value or with an error.  The
    comparator of line 100 is not modelled: the prompt for the version is
    given the releases and answers with a tag. *)

From Stdlib Require Import NArith Ascii String Strings.Byte.
From stdpp Require Import gmap strings list fin_maps pretty.

(** * The program *)

(** ** JavaScript values that the function handles *)

(** A [Uint8Array] chunk. *)
Abbreviation bytes := (list Byte.byte).

(** A thrown value. *)
Inductive js_error : Type :=
  | Error (message : string)
  | TypeError (message : string).

(** What [await fetch(url)] yields (line 28): a rejection, or a response
    of which the function reads [ok], [statusText],
    [headers.get('content-length')] ([None] is JavaScript's [null]) and
    [body] ([false] when [response.body] is [null], as for a 204). *)
Record Response : Type := mkResponse {
  ok : bool;
  statusText : string;
  content_length : option string;
  body : bool
}.

Inductive fetch_result : Type :=
  | FetchRejected (reason : js_error)
  | FetchResponse (response : Response).

(** What one [await reader.read()] yields (line 51). *)
Inductive read_result : Type :=
  | ReadValue (value : bytes)          (* { done: false, value } *)
  | ReadDone                           (* { done: true } *)
  | ReadRejected (reason : js_error).  (* the promise rejects *)

(** One job of the event loop. *)
Inductive event : Type :=
  | TimerTick
  | StreamIO
  | ReaderSettled (r : read_result).

(** ** Rendering *)

(** line 13 *)
Definition loadingFrames : list string :=
  ["⠋"; "⠙"; "⠹"; "⠸"; "⠼"; "⠴"; "⠦"; "⠧"; "⠇"; "⠏"].

Definition two_digits (n : N) : string :=
  String (pretty_N_char (n / 10)) (String (pretty_N_char (n mod 10)) "").

(** The integer [n] that [(x / 1024 / 1024).toFixed(2)] prints for a byte
    count [x].  The quotient [x / 2^20] is exact, and [toFixed(2)] picks the
    [n] with [n / 100] nearest to it, the larger one on a tie:
    [n = floor ((100 x + 2^19) / 2^20)]. *)
Definition hundredths_of_MB (x : N) : N :=
  ((100 * x + 524288) / 1048576)%N.

(** [(x / 1024 / 1024).toFixed(2)]: [n] with a point before its last two
    digits. *)
Definition toFixed2_MB (x : N) : string :=
  let n := hundredths_of_MB x in
  pretty (n / 100)%N +:+ "." +:+ two_digits (n mod 100).

(** *** Numbers

    [totalSize / 1024 / 1024] coerces the header, a string, to a Number:
    an IEEE 754 double.  A header is a byte string; each [ascii] of it is
    one code unit.  Roundings are to the nearest double, to the even
    significand on a tie; V8 rounds the value of a decimal literal
    exactly, whatever the number of its digits. *)

(** A Number: [NaN], an infinity, or the finite double [(-1)^s m 2^e].
    The significand [m] is at most [2^53] and need not be normalised;
    [Finite true 0 e] is [-0]. *)
Inductive number : Type :=
  | NaN
  | Infinity (negative : bool)
  | Finite (negative : bool) (m : N) (e : Z).

(** [p / q] rounded to the nearest integer, to the even one on a tie. *)
Definition round_half_even (p q : N) : N :=
  let m := (p / q)%N in
  let r := (p mod q)%N in
  if ((q <? 2 * r) || ((2 * r =? q) && N.odd m))%N then (m + 1)%N else m.

(** [p / (q 2^k)] as a fraction. *)
Definition over_power_of_two (p q : N) (k : Z) : N * N :=
  if (0 <=? k)%Z then (p, q * 2 ^ Z.to_N k)%N
  else (p * 2 ^ Z.to_N (- k), q)%N.

(** The Number value for the rational [p / q] (ECMAScript 6.1.6.1): an
    integer below [2^53] is a double; otherwise the double nearest to
    [p / q], the one with the even significand on a tie, with 53 bits
    from the binade [2^t <= p / q < 2^(t+1)], multiples of [2^-1074] below
    the normal range, and an infinity from [2^1024] on. *)
Definition number_value (negative : bool) (p q : N) : number :=
  if ((q =? 1) && (p <? 2 ^ 53))%N then Finite negative p 0
  else if (p =? 0)%N then Finite negative 0 0
  else
    let t0 := (Z.of_N (N.log2 p) - Z.of_N (N.log2 q))%Z in
    let '(a, b) := over_power_of_two p q t0 in
    let t := if (b <=? a)%N then t0 else (t0 - 1)%Z in
    let e := Z.max (t - 52) (-1074) in
    let '(num, den) := over_power_of_two p q e in
    let m := round_half_even num den in
    if ((971 <? e)%Z || ((e =? 971)%Z && (m =? 2 ^ 53)%N)) then
      Infinity negative
    else Finite negative m e.

(** [x / 1024]: exact unless the quotient falls below the normal range,
    where it is rounded to a multiple of [2^-1074]. *)
Definition divided_by_1024 (x : number) : number :=
  match x with
  | Finite s m e =>
      if (-1074 <=? e - 10)%Z then Finite s m (e - 10)
      else
        Finite s (round_half_even m (2 ^ Z.to_N (-1074 - (e - 10)))) (-1074)
  | _ => x
  end.

(** *** StringToNumber (ECMAScript 7.1.4.1.1) *)

Definition is_space (c : ascii) : bool :=
  let k := N_of_ascii c in
  (((9 <=? k) && (k <=? 13)) || (k =? 32) || (k =? 160))%N.

Fixpoint trim_left (s : string) : string :=
  match s with
  | String c s' => if is_space c then trim_left s' else s
  | EmptyString => EmptyString
  end.

Fixpoint trim_right (s : string) : string :=
  match s with
  | String c s' =>
      match trim_right s' with
      | EmptyString => if is_space c then EmptyString else String c EmptyString
      | t => String c t
      end
  | EmptyString => EmptyString
  end.

(** The value of [c] as a digit in [base]. *)
Definition digit_of (base : N) (c : ascii) : option N :=
  let k := N_of_ascii c in
  let d :=
    if ((48 <=? k) && (k <=? 57))%N then Some (k - 48)%N
    else if ((97 <=? k) && (k <=? 102))%N then Some (k - 87)%N
    else if ((65 <=? k) && (k <=? 70))%N then Some (k - 55)%N
    else None in
  match d with
  | Some v => if (v <? base)%N then Some v else None
  | None => None
  end.

(** The longest run of digits at the head of [s], read after the digits
    of [acc]: its value, the number of digits, and what follows. *)
Fixpoint take_digits (base acc count : N) (s : string) : N * N * string :=
  match s with
  | String c s' =>
      match digit_of base c with
      | Some d => take_digits base (base * acc + d) (count + 1) s'
      | None => (acc, count, s)
      end
  | EmptyString => (acc, count, s)
  end.

(** [0x], [0o] or [0b] and digits of that base. *)
Definition NonDecimalIntegerLiteral (s : string) : option N :=
  match s with
  | String zero (String c s') =>
      let k := N_of_ascii c in
      let base :=
        if ((k =? 120) || (k =? 88))%N then 16%N
        else if ((k =? 111) || (k =? 79))%N then 8%N
        else if ((k =? 98) || (k =? 66))%N then 2%N
        else 0%N in
      if ((N_of_ascii zero =? 48) && (0 <? base))%N then
        match take_digits base 0 0 s' with
        | (v, count, EmptyString) => if (0 <? count)%N then Some v else None
        | _ => None
        end
      else None
  | _ => None
  end.

(** An optional sign. *)
Definition take_sign (s : string) : bool * string :=
  match s with
  | String c s' =>
      if (N_of_ascii c =? 45)%N then (true, s')
      else if (N_of_ascii c =? 43)%N then (false, s')
      else (false, s)
  | EmptyString => (false, s)
  end.

(** What follows [e] or [E]: a signed integer, and nothing after it. *)
Definition ExponentPart (s : string) : option Z :=
  let '(negative, s1) := take_sign s in
  match take_digits 10 0 0 s1 with
  | (v, count, EmptyString) =>
      if (0 <? count)%N then
        Some (if negative : bool then (- Z.of_N v)%Z else Z.of_N v)
      else None
  | _ => None
  end.

(** Digits with an optional point and an optional exponent, as [m 10^x]. *)
Definition StrUnsignedDecimalLiteral (s : string) : option (N * Z) :=
  let '(i, ni, s1) := take_digits 10 0 0 s in
  let '(m, nf, s2) :=
    match s1 with
    | String c r =>
        if (N_of_ascii c =? 46)%N then take_digits 10 i 0 r else (i, 0%N, s1)
    | EmptyString => (i, 0%N, s1)
    end in
  if (ni + nf =? 0)%N then None
  else
    match s2 with
    | EmptyString => Some (m, (- Z.of_N nf)%Z)
    | String c r =>
        if ((N_of_ascii c =? 101) || (N_of_ascii c =? 69))%N then
          match ExponentPart r with
          | Some x => Some (m, (x - Z.of_N nf)%Z)
          | None => None
          end
        else None
    end.

(** The Number value of [m 10^x]. *)
Definition decimal_value (negative : bool) (m : N) (x : Z) : number :=
  if (0 <=? x)%Z then number_value negative (m * 10 ^ Z.to_N x) 1
  else number_value negative m (10 ^ Z.to_N (- x)).

Definition StringToNumber (s : string) : number :=
  match trim_right (trim_left s) with
  | EmptyString => Finite false 0 0
  | t =>
      match NonDecimalIntegerLiteral t with
      | Some v => number_value false v 1
      | None =>
          let '(negative, u) := take_sign t in
          if String.eqb u "Infinity" then Infinity negative
          else
            match StrUnsignedDecimalLiteral u with
            | Some (m, x) => decimal_value negative m x
            | None => NaN
            end
      end
  end.

(** *** Number.prototype.toFixed(2) (ECMAScript 21.1.3.3) *)

(** Whether the integer [v] has the Number value [x]. *)
Definition represents (v x : N) : bool :=
  match number_value false v 1 with
  | Finite _ m e => (m * 2 ^ Z.to_N e =? x)%N
  | _ => false
  end.

(** The decimal with the fewest significant digits whose Number value is
    [x], the nearest to [x] if there are two with that many digits
    (Number::toString, step 5); [digits] is the length of [x]'s numeral. *)
Fixpoint shortest (fuel : nat) (k digits x : N) : N :=
  match fuel with
  | 0 => x
  | S fuel' =>
      let unit := (10 ^ (digits - k))%N in
      let lo := (x / unit * unit)%N in
      let hi := (lo + unit)%N in
      match represents lo x, represents hi x with
      | true, true =>
          if (x - lo <? hi - x)%N then lo
          else if (hi - x <? x - lo)%N then hi
          else if N.even (lo / unit) then lo else hi
      | true, false => lo
      | false, true => hi
      | false, false => shortest fuel' (k + 1)%N digits x
      end
  end.

Fixpoint strip_zeros (s : string) : string :=
  match s with
  | String c s' =>
      match strip_zeros s' with
      | EmptyString =>
          if (N_of_ascii c =? 48)%N then EmptyString else String c EmptyString
      | t => String c t
      end
  | EmptyString => EmptyString
  end.

(** Number::toString of an integer [x >= 10^21]: exponential notation. *)
Definition exponential (x : N) : string :=
  let v := shortest 17 1 (N.of_nat (String.length (pretty x))) x in
  let numeral := pretty v in
  let exponent := pretty (N.of_nat (String.length numeral) - 1)%N in
  match strip_zeros numeral with
  | String d EmptyString => String d ("e+" +:+ exponent)
  | String d rest => String d ("." +:+ rest +:+ "e+" +:+ exponent)
  | EmptyString => "0"
  end.

Definition toFixed2 (x : number) : string :=
  match x with
  | NaN => "NaN"
  | Infinity negative => if negative then "-Infinity" else "Infinity"
  | Finite negative m e =>
      let '(p, q) := over_power_of_two m 1 (- e) in
      if (10 ^ 21 * q <=? p)%N then
        (if negative then "-" else "") +:+ exponential p
      else
        let n := ((100 * p + q / 2) / q)%N in
        (if negative && negb (m =? 0)%N then "-" else "")
          +:+ pretty (n / 100)%N +:+ "." +:+ two_digits (n mod 100)
  end.

(** line 37:
    [totalSize ? (totalSize / 1024 / 1024).toFixed(2) : 'unknown'].
    [null] and the empty string are the falsy values of the header; any
    other string is coerced to a Number by the division. *)
Definition totaledSizeMB (totalSize : option string) : string :=
  match totalSize with
  | None => "unknown"
  | Some EmptyString => "unknown"
  | Some s => toFixed2 (divided_by_1024 (divided_by_1024 (StringToNumber s)))
  end.

(** The template shared by lines 43 and 62. *)
Definition progressLine (marker text downloadedMB totalMB : string) : string :=
  marker +:+ " " +:+ text +:+ " (" +:+ downloadedMB +:+ " MB / " +:+ totalMB
    +:+ " MB)".

(** [loadingFrames[k]]; an index out of range reads [undefined]. *)
Definition frame_at (k : N) : string :=
  nth (N.to_nat k) loadingFrames "undefined".

(** line 62: ["\x1b[32m✔\x1b[0m"], a green check mark. *)
Definition ESC : ascii := ascii_of_nat 27.

Definition successMarker : string :=
  String ESC "[32m✔" +:+ String ESC "[0m".

(** ** The write stream of [fs.createWriteStream] *)

(** The [flags] option: ['w'] creates or truncates, ['a'] creates or
    appends. *)
Inductive open_flags : Type :=
  | flag_w
  | flag_a.

Record WriteStream : Type := mkWriteStream {
  ws_path : string;
  ws_flags : open_flags;
  ws_opened : bool;          (* the file descriptor exists *)
  ws_buffer : list bytes;    (* chunks queued by write(), oldest first *)
  ws_bytesWritten : N;       (* bytes already written through to the file *)
  ws_ending : bool;          (* end() has been called *)
  ws_closed : bool           (* the descriptor has been closed *)
}.

(** The file system: path to contents. *)
Abbreviation filesystem := (gmap string bytes).

(** [fs.createWriteStream(path)]: nothing touches the disk yet; the
    default of [flags] is ['w']. *)
Definition createWriteStream (path : string) : WriteStream :=
  mkWriteStream path flag_w false [] 0 false false.

(** [stream.write(chunk)] queues the chunk (a write after [end()] is
    refused). *)
Definition ws_write (ws : WriteStream) (chunk : bytes) : WriteStream :=
  if ws_ending ws then ws
  else mkWriteStream (ws_path ws) (ws_flags ws) (ws_opened ws)
         (ws_buffer ws ++ [chunk]) (ws_bytesWritten ws) (ws_ending ws)
         (ws_closed ws).

(** [stream.end()] *)
Definition ws_end (ws : WriteStream) : WriteStream :=
  mkWriteStream (ws_path ws) (ws_flags ws) (ws_opened ws) (ws_buffer ws)
    (ws_bytesWritten ws) true (ws_closed ws).

Definition open_file (flags : open_flags) (path : string)
    (disk : filesystem) : filesystem :=
  match flags with
  | flag_w => <[path := []]> disk
  | flag_a =>
      match disk !! path with
      | Some _ => disk
      | None => <[path := []]> disk
      end
  end.

(** One asynchronous operation of the stream: open the file, else write
    the oldest queued chunk at the end of the file, else, once ended and
    drained, close. *)
Definition ws_io (ws : WriteStream) (disk : filesystem)
    : WriteStream * filesystem :=
  if ws_closed ws then (ws, disk)
  else if negb (ws_opened ws) then
    (mkWriteStream (ws_path ws) (ws_flags ws) true (ws_buffer ws)
       (ws_bytesWritten ws) (ws_ending ws) false,
     open_file (ws_flags ws) (ws_path ws) disk)
  else
    match ws_buffer ws with
    | chunk :: rest =>
        (mkWriteStream (ws_path ws) (ws_flags ws) true rest
           (ws_bytesWritten ws + N.of_nat (length chunk)) (ws_ending ws) false,
         alter (fun old => old ++ chunk) (ws_path ws) disk)
    | [] =>
        if ws_ending ws then
          (mkWriteStream (ws_path ws) (ws_flags ws) true []
             (ws_bytesWritten ws) true true, disk)
        else (ws, disk)
    end.

(** Bytes accepted by [write()] and not yet written through
    ([writableLength]). *)
Definition ws_writableLength (ws : WriteStream) : N :=
  N.of_nat (length (concat (ws_buffer ws))).

(** ** One call of [downloadFile] *)

Inductive timer_state : Type :=
  | TimerUnset      (* setInterval not reached *)
  | TimerActive     (* registered, fires every 100 ms *)
  | TimerCleared.   (* clearInterval(interval) done *)

Inductive promise_state : Type :=
  | Pending
  | Resolved
  | Rejected (reason : js_error).

Record state : Type := mkState {
  st_disk : filesystem;
  st_terminal : list string;           (* the lines given to logUpdate, oldest first *)
  st_downloadedSize : N;               (* line 35 *)
  st_i : N;                            (* line 39 *)
  st_interval : timer_state;           (* line 40 *)
  st_fileStream : option WriteStream;  (* line 46 *)
  st_reads : nat;                      (* calls of reader.read() so far *)
  st_promise : promise_state           (* the promise downloadFile returned *)
}.

(** What line 47 throws when [response.body] is [null]. *)
Definition null_body_error : js_error :=
  TypeError "Cannot read properties of null (reading 'getReader')".

(** lines 28-51, up to the first suspension inside the loop. *)
Definition downloadFile_start (disk : filesystem) (fetched : fetch_result)
    (destination : string) : state :=
  match fetched with
  | FetchRejected reason =>
      mkState disk [] 0 0 TimerUnset None 0 (Rejected reason)
  | FetchResponse response =>
      if negb (ok response) then
        mkState disk [] 0 0 TimerUnset None 0
          (Rejected (Error ("Failed to download file: " +:+ statusText response)))
      else if negb (body response) then
        mkState disk [] 0 0 TimerActive
          (Some (createWriteStream destination)) 0 (Rejected null_body_error)
      else
        mkState disk [] 0 0 TimerActive
          (Some (createWriteStream destination)) 1 Pending
  end.

(** lines 41-43, the interval callback. *)
Definition on_tick (text totalMB : string) (st : state) : state :=
  match st_interval st with
  | TimerActive =>
      let frame := frame_at (st_i st mod N.of_nat (length loadingFrames)) in
      let downloadedMB := toFixed2_MB (st_downloadedSize st) in
      mkState (st_disk st)
        (st_terminal st ++ [progressLine frame text downloadedMB totalMB])
        (st_downloadedSize st) (st_i st + 1) (st_interval st)
        (st_fileStream st) (st_reads st) (st_promise st)
  | _ => st
  end.

Definition on_stream_io (st : state) : state :=
  match st_fileStream st with
  | Some ws =>
      let '(ws', disk') := ws_io ws (st_disk st) in
      mkState disk' (st_terminal st) (st_downloadedSize st) (st_i st)
        (st_interval st) (Some ws') (st_reads st) (st_promise st)
  | None => st
  end.

(** lines 51-62, resumed when the awaited read settles.  Nothing awaits a
    read once the returned promise is settled. *)
Definition on_read (text totalMB : string) (st : state) (r : read_result)
    : state :=
  match st_promise st with
  | Pending =>
      match r with
      | ReadValue value =>
          (* lines 53-54, then the loop calls reader.read() again *)
          mkState (st_disk st) (st_terminal st)
            (st_downloadedSize st + N.of_nat (length value)) (st_i st)
            (st_interval st)
            (option_map (fun ws => ws_write ws value) (st_fileStream st))
            (S (st_reads st)) Pending
      | ReadDone =>
          (* line 52, line 56, lines 61-62 *)
          mkState (st_disk st)
            (st_terminal st ++
               [progressLine successMarker text
                  (toFixed2_MB (st_downloadedSize st)) totalMB])
            (st_downloadedSize st) (st_i st) TimerCleared
            (option_map ws_end (st_fileStream st))
            (st_reads st) Resolved
      | ReadRejected reason =>
          (* the rejection leaves writeToFile and downloadFile *)
          mkState (st_disk st) (st_terminal st) (st_downloadedSize st)
            (st_i st) (st_interval st) (st_fileStream st) (st_reads st)
            (Rejected reason)
      end
  | _ => st
  end.

Definition step (text totalMB : string) (st : state) (ev : event) : state :=
  match ev with
  | TimerTick => on_tick text totalMB st
  | StreamIO => on_stream_io st
  | ReaderSettled r => on_read text totalMB st r
  end.

Definition run (text totalMB : string) (st : state) (evs : list event)
    : state :=
  fold_left (step text totalMB) evs st.

Definition response_totalSize (fetched : fetch_result) : option string :=
  match fetched with
  | FetchResponse response => content_length response
  | FetchRejected _ => None
  end.

(** [downloadFile(url, destination, text)] under a schedule: [fetched] is
    what the network answers for [url]; a caller that omits [text] passes
    ['Downloading...']. *)
Definition downloadFile (disk : filesystem) (fetched : fetch_result)
    (destination text : string) (evs : list event) : state :=
  run text (totaledSizeMB (response_totalSize fetched))
    (downloadFile_start disk fetched destination) evs.

(** ** The call site in [createLavalink] (lines 118-126) *)

Record process : Type := mkProcess {
  p_download : state;
  p_stderr : list (string * js_error);  (* console.error(label, err) *)
  p_exitCode : option Z                 (* process.exit(code) *)
}.

(** line 119 *)
Definition jarUrl (version : string) : string :=
  "https://github.com/lavalink-devs/Lavalink/releases/download/" +:+ version
    +:+ "/Lavalink.jar".

(** line 120 *)
Definition jarFile : string := "Lavalink.jar".

(** the label of line 122 *)
Definition jarText (version : string) : string :=
  "Downloading Lavalink version " +:+ version +:+ "...".

(** lines 123-126: the [catch] clause runs as soon as the awaited promise
    is rejected. *)
Definition catch_download (p : process) : process :=
  match st_promise (p_download p) with
  | Rejected err =>
      mkProcess (p_download p)
        (p_stderr p ++ [("Failed to download Lavalink:", err)]) (Some 1%Z)
  | _ => p
  end.

(** No job runs in a process that has exited. *)
Definition process_step (text totalMB : string) (p : process) (ev : event)
    : process :=
  match p_exitCode p with
  | Some _ => p
  | None =>
      catch_download
        (mkProcess (step text totalMB (p_download p) ev) (p_stderr p) None)
  end.

(** lines 119-126 under a schedule; [network] answers [fetch]. *)
Definition createLavalink_download (disk : filesystem)
    (network : string -> fetch_result) (version : string)
    (evs : list event) : process :=
  let fetched := network (jarUrl version) in
  fold_left
    (process_step (jarText version) (totaledSizeMB (response_totalSize fetched)))
    evs
    (catch_download
       (mkProcess (downloadFile_start disk fetched jarFile) [] None)).

(** * Vocabulary of the properties *)

(** ** Schedules *)

(** The results the reader delivers in a schedule, in order. *)
Definition settled (evs : list event) : list read_result :=
  omap (fun ev => match ev with ReaderSettled r => Some r | _ => None end) evs.

Definition is_stream_io (ev : event) : bool :=
  match ev with StreamIO => true | _ => false end.

(** The schedule with the stream's own completions removed. *)
Definition without_io (evs : list event) : list event :=
  filter (fun ev => is_stream_io ev = false) evs.

(** How many completions of the stream's operations a schedule holds. *)
Fixpoint count_io (evs : list event) : nat :=
  match evs with
  | [] => 0
  | ev :: evs' => (if is_stream_io ev then 1 else 0) + count_io evs'
  end.

(** ** Observations on a state *)

(** What the stream has put in the file so far. *)
Definition written_through (ws : WriteStream) (disk : filesystem) : bytes :=
  if ws_opened ws then default [] (disk !! ws_path ws) else [].

(** Every byte given to [fileStream.write], in order: the part already in
    the file followed by the part still queued. *)
Definition stream_contents (st : state) : bytes :=
  match st_fileStream st with
  | Some ws => written_through ws (st_disk st) ++ concat (ws_buffer ws)
  | None => []
  end.

Definition stream_opened (st : state) : bool :=
  match st_fileStream st with
  | Some ws => ws_opened ws
  | None => false
  end.

Definition stream_ending (st : state) : bool :=
  match st_fileStream st with
  | Some ws => ws_ending ws
  | None => false
  end.

Definition stream_closed (st : state) : bool :=
  match st_fileStream st with
  | Some ws => ws_closed ws
  | None => false
  end.

(** Queued chunks not yet written through. *)
Definition stream_queue (st : state) : list bytes :=
  match st_fileStream st with
  | Some ws => ws_buffer ws
  | None => []
  end.

(** Asynchronous operations the stream still has to complete before it is
    closed, once [end()] has been called. *)
Definition ws_todo (ws : WriteStream) : nat :=
  if ws_closed ws then 0
  else (if ws_opened ws then 0 else 1) + length (ws_buffer ws) + 1.

Definition st_todo (st : state) : nat :=
  match st_fileStream st with
  | Some ws => ws_todo ws
  | None => 0
  end.

(** ** Rendered lines *)

(** A string of decimal digits. *)
Fixpoint digits_only (s : string) : Prop :=
  match s with
  | EmptyString => True
  | String c s' =>
      (exists d, (d < 10)%N /\ c = pretty_N_char d) /\ digits_only s'
  end.

(** [figure] shows [d] bytes in megabytes with two decimals: it is the
    numeral of [n / 100], where [n] is the number of hundredths of a
    megabyte ([2^20] bytes) nearest to [d], the larger one on a tie. *)
Definition megabytes_shown (d : N) (figure : string) : Prop :=
  exists n : N,
    (n * 1048576 <= 100 * d + 524288 < (n + 1) * 1048576)%N /\
    figure =
      pretty (n / 100)%N +:+ "." +:+ pretty (n / 10 mod 10)%N
        +:+ pretty (n mod 10)%N.

(** A line starts with one of the spinner glyphs. *)
Definition starts_with_frame (line : string) : bool :=
  existsb (fun frame => String.prefix frame line) loadingFrames.

(** A line rendered by the interval callback from a counter value [d] of
    at most [bound]. *)
Definition tick_line (text total : string) (bound : N) (line : string) : Prop :=
  exists k d,
    (k < 10)%N /\ (d <= bound)%N /\
    line = progressLine (frame_at k) text (toFixed2_MB d) total.

(** The line of line 62 for a body made of the chunks [cs]. *)
Definition final_line (text total : string) (cs : list bytes) : string :=
  progressLine successMarker text
    (toFixed2_MB (N.of_nat (length (concat cs)))) total.

(** The shape of every line a call can have rendered: a spinner glyph or
    the success marker, the label, a counter value of at most [bound]
    bytes printed in megabytes, and the total. *)
Definition rendered_line (text total : string) (bound : N) (line : string)
    : Prop :=
  exists marker d,
    marker ∈ successMarker :: loadingFrames /\ (d <= bound)%N /\
    line = progressLine marker text (toFixed2_MB d) total.

(** The lines of the ticks show the spinner glyphs in order, cyclically:
    line number [j] starts with glyph number [j mod 10]. *)
Definition tick_frames (lines : list string) : Prop :=
  forall j line,
    lines !! j = Some line ->
    String.prefix (frame_at (N.of_nat j mod 10)) line = true.

(** ** Invariants *)

(** What ties a stream opened with the default flags at [dest] to the disk:
    [disk0] is the disk before the call and [handed] the chunks given to
    [write()] so far. *)
Record stream_inv (disk0 : filesystem) (dest : string) (handed : list bytes)
    (ws : WriteStream) (disk : filesystem) : Prop := {
  si_path : ws_path ws = dest;
  si_flags : ws_flags ws = flag_w;
  si_others : forall p, p <> dest -> disk !! p = disk0 !! p;
  si_buflen : length (ws_buffer ws) <= length handed;
  si_unopened :
    ws_opened ws = false ->
    disk = disk0 /\ ws_bytesWritten ws = 0%N /\
    concat (ws_buffer ws) = concat handed /\ ws_closed ws = false;
  si_opened :
    ws_opened ws = true ->
    exists flushed,
      disk !! dest = Some flushed /\
      flushed ++ concat (ws_buffer ws) = concat handed /\
      ws_bytesWritten ws = N.of_nat (length flushed);
  si_closed :
    ws_closed ws = true ->
    ws_opened ws = true /\ ws_buffer ws = [] /\ ws_ending ws = true
}.

(** The loop is suspended at [await reader.read()]; the chunks [cs] have
    been received. *)
Record pending_inv (text total : string) (disk0 : filesystem) (dest : string)
    (cs : list bytes) (st : state) : Prop := {
  pi_promise : st_promise st = Pending;
  pi_interval : st_interval st = TimerActive;
  pi_size : st_downloadedSize st = N.of_nat (length (concat cs));
  pi_reads : st_reads st = S (length cs);
  pi_terminal :
    Forall (tick_line text total (st_downloadedSize st)) (st_terminal st);
  pi_stream :
    exists ws,
      st_fileStream st = Some ws /\ ws_ending ws = false /\
      stream_inv disk0 dest cs ws (st_disk st)
}.

(** The call has returned normally; [term] is what the terminal showed
    at that moment. *)
Record resolved_inv (disk0 : filesystem) (dest : string) (cs : list bytes)
    (term : list string) (st : state) : Prop := {
  ri_promise : st_promise st = Resolved;
  ri_interval : st_interval st = TimerCleared;
  ri_size : st_downloadedSize st = N.of_nat (length (concat cs));
  ri_reads : st_reads st = S (length cs);
  ri_terminal : st_terminal st = term;
  ri_stream :
    exists ws,
      st_fileStream st = Some ws /\ ws_ending ws = true /\
      stream_inv disk0 dest cs ws (st_disk st)
}.

(** The call has thrown [reason] after its timer and its stream were set
    up, having received the chunks [cs] through [reads] calls of
    [reader.read()]. *)
Record rejected_inv (text total : string) (disk0 : filesystem) (dest : string)
    (cs : list bytes) (reason : js_error) (reads : nat) (st : state)
    : Prop := {
  ji_promise : st_promise st = Rejected reason;
  ji_interval : st_interval st = TimerActive;
  ji_size : st_downloadedSize st = N.of_nat (length (concat cs));
  ji_reads : st_reads st = reads;
  ji_terminal :
    Forall (tick_line text total (st_downloadedSize st)) (st_terminal st);
  ji_stream :
    exists ws,
      st_fileStream st = Some ws /\ ws_ending ws = false /\
      stream_inv disk0 dest cs ws (st_disk st)
}.

(** The state [downloadFile_start] returns when [fetch] rejects or the
    status is not ok. *)
Definition failed_state (disk0 : filesystem) (reason : js_error) : state :=
  mkState disk0 [] 0 0 TimerUnset None 0 (Rejected reason).

(** What the timer, its counter [i] and the terminal have to do with each
    other. *)
Definition spinner_inv (st : state) : Prop :=
  match st_interval st with
  | TimerUnset => st_terminal st = [] /\ st_promise st <> Pending
  | TimerActive =>
      tick_frames (st_terminal st) /\
      st_i st = N.of_nat (length (st_terminal st))
  | TimerCleared =>
      st_promise st <> Pending /\
      exists ticks final,
        st_terminal st = ticks ++ [final] /\ tick_frames ticks /\
        starts_with_frame final = false
  end.

(** What the caller's record of a download has to do with the download. *)
Definition caller_inv (p : process) : Prop :=
  (p_exitCode p = None /\ p_stderr p = [] /\
   forall reason, st_promise (p_download p) <> Rejected reason) \/
  (exists reason,
     p_exitCode p = Some 1%Z /\
     p_stderr p = [("Failed to download Lavalink:", reason)] /\
     st_promise (p_download p) = Rejected reason).

(** The states a call can be in. *)
Inductive phase (text total : string) (disk0 : filesystem) (dest : string)
    (st : state) : Prop :=
  | phase_failed reason :
      st = failed_state disk0 reason -> phase text total disk0 dest st
  | phase_pending cs :
      pending_inv text total disk0 dest cs st -> phase text total disk0 dest st
  | phase_resolved cs ticks :
      Forall (tick_line text total (N.of_nat (length (concat cs)))) ticks ->
      resolved_inv disk0 dest cs (ticks ++ [final_line text total cs]) st ->
      phase text total disk0 dest st
  | phase_rejected cs reason reads :
      rejected_inv text total disk0 dest cs reason reads st ->
      phase text total disk0 dest st.

(** What a call shows of itself apart from the file: the terminal, the
    counter, the spinner's index, the timer, the number of reads and the
    promise. *)
Definition observable (st : state)
    : list string * N * N * timer_state * nat * promise_state :=
  (st_terminal st, st_downloadedSize st, st_i st, st_interval st,
   st_reads st, st_promise st).

(** ** The rest of [createLavalink] (lines 17-25 and 65-203)

    Everything the wizard asks of its surroundings is given by an
    [environment]: the answers of the network, of the prompts of
    [@inquirer/prompts], of [js-yaml], of the shell and of the file
    system.  The wizard itself is written in a monad of state and early
    termination over a [world], in the order of the source. *)

(** A value of a function that may throw, or of an awaited promise. *)
Inductive result (A : Type) : Type :=
  | Ok (a : A)
  | Throw (err : js_error).

Arguments Ok {A} a.
Arguments Throw {A} err.

(** A value made by [yaml.load], or typed at a prompt.  A document is
    taken to be a tree: it shares no node (no YAML alias).  A number is
    kept as its literal.  With the default schema of js-yaml a mapping
    (also a set or a merge) is a plain object, a sequence (also an omap
    or pairs) an array, a timestamp a [Date] and a [!!binary] scalar a
    [Uint8Array]; [extra] holds the properties that have been assigned
    to an object that is no plain one. *)
#[warnings="-register-all"] Inductive js_value : Type :=
  | JUndefined
  | JNull
  | JBool (b : bool)
  | JNumber (literal : string)
  | JString (s : string)
  | JArray (items : list js_value) (extra : list (string * js_value))
  | JObject (fields : list (string * js_value))
  | JDate (time : string) (extra : list (string * js_value))
  | JBinary (data : bytes) (extra : list (string * js_value)).

(** One release of the index fetched on line 66. *)
Record release : Type := mkRelease {
  name : js_value;
  tag_name : string
}.

(** What [res.json()] gave for the index: an array of releases, or
    something else (an error object, say). *)
Inductive releases : Type :=
  | ReleaseArray (list_ : list release)
  | NotAnArray.

(** What the process does that can be seen from outside, in order. *)
Inductive action : Type :=
  | AFetch (url : string)
  | APrompt (message : string)
  | AExec (command : string)                      (* execSync *)
  | AChdir (dir : string)                         (* process.chdir *)
  | ADownload (url destination text : string)     (* downloadFile *)
  | ARender (line : string)                       (* logUpdate *)
  | AWriteFile (path content : string)            (* fs.writeFileSync *)
  | AChmod (path mode : string)                   (* fs.chmodSync *)
  | ALog (line : string)                          (* console.log *)
  | AError (message : string) (err : option js_error).  (* console.error *)

(** How a run ends. *)
Inductive ending : Type :=
  | Exited (code : Z)          (* process.exit(code) *)
  | Unhandled (err : js_error) (* an exception leaves createLavalink *)
  | Hung                       (* the awaited download has not settled *)
  | Finished.                  (* createLavalink has returned *)

(** The surroundings of a run.  Two things are taken for granted in it.
    Every promise the wizard awaits outside [downloadFile], of a prompt or
    of a fetch, settles, with a value or with an error: a question that
    is never answered is no run of this model.  And every operation of the
    write stream (opening the file, writing to it, closing it) succeeds:
    a stream that fails emits ['error'], for which the source installs no
    listener, so that the process would die there.  What is said of whole
    runs of the wizard is said under these two provisos. *)
Record environment : Type := mkEnvironment {
  (* fetch(url).then(res => res.json()) and .then(res => res.text()) *)
  env_fetch_json : string -> result releases;
  env_fetch_text : string -> result string;
  (* fetch(url) inside downloadFile, and the jobs of the event loop while
     the download is awaited *)
  env_fetch : string -> fetch_result;
  env_schedule : list event;
  (* the prompts, by message: input with a string default, input with a
     default read from the document, confirm, select *)
  env_input_string : string -> string -> result string;
  env_input : string -> js_value -> result js_value;
  env_confirm : string -> result bool;
  env_select : string -> list release -> result string;
  (* fs.existsSync, execSync, process.chdir, and the files of the
     directory named at the first prompt, by relative path, as the process
     finds them when it enters it *)
  env_existsSync : string -> bool;
  env_execSync : string -> option js_error;
  env_chdir : string -> option js_error;
  env_disk : filesystem;
  (* what fs.writeFileSync and fs.chmodSync throw, by path *)
  env_writeFileSync : string -> option js_error;
  env_chmodSync : string -> option js_error;
  (* js-yaml *)
  env_yaml_load : string -> result js_value;
  env_yaml_dump : js_value -> result string;
  (* completions of the write stream's operations while the fetch or the
     prompt with this url or message is awaited *)
  env_io : string -> nat
}.

Record world : Type := mkWorld {
  w_actions : list action;
  w_disk : filesystem;               (* the files of that directory *)
  w_modes : gmap string string;      (* modes set by chmodSync *)
  w_stream : option WriteStream      (* the stream the download left *)
}.

Inductive outcome (A : Type) : Type :=
  | Next (a : A)
  | Stop (e : ending).

Arguments Next {A} a.
Arguments Stop {A} e.

Definition wizard (A : Type) : Type := world -> outcome A * world.

Definition ret {A : Type} (a : A) : wizard A := fun w => (Next a, w).

Definition bind {A B : Type} (m : wizard A) (k : A -> wizard B) : wizard B :=
  fun w =>
    match m w with
    | (Next a, w') => k a w'
    | (Stop e, w') => (Stop e, w')
    end.

Notation "x <- m ;; k" := (bind m (fun x => k))
  (at level 100, m at next level, right associativity).
Notation "m ;;; k" := (bind m (fun _ => k))
  (at level 100, right associativity).

Definition stop {A : Type} (e : ending) : wizard A := fun w => (Stop e, w).

Definition act (a : action) : wizard unit :=
  fun w =>
    (Next tt,
     mkWorld (w_actions w ++ [a]) (w_disk w) (w_modes w) (w_stream w)).

(** [n] operations of a stream, one after the other. *)
Fixpoint ws_io_n (n : nat) (ws : WriteStream) (disk : filesystem)
    : WriteStream * filesystem :=
  match n with
  | 0 => (ws, disk)
  | S n' => let '(ws', disk') := ws_io ws disk in ws_io_n n' ws' disk'
  end.

(** While the process awaits, the stream left by the download goes on. *)
Definition background (n : nat) : wizard unit :=
  fun w =>
    match w_stream w with
    | Some ws =>
        let '(ws', disk') := ws_io_n n ws (w_disk w) in
        (Next tt, mkWorld (w_actions w) disk' (w_modes w) (Some ws'))
    | None => (Next tt, w)
    end.

(** [await p] where nothing catches a rejection of [p]. *)
Definition await {A : Type} (env : environment) (label : string)
    (r : result A) : wizard A :=
  background (env_io env label) ;;;
  match r with
  | Ok a => ret a
  | Throw err => stop (Unhandled err)
  end.

(** A call that may throw, uncaught. *)
Definition try_ {A : Type} (r : result A) : wizard A :=
  match r with
  | Ok a => ret a
  | Throw err => stop (Unhandled err)
  end.

(** [await fetch(url).then(...).catch(err => { console.error(message, err);
    process.exit(1) })], lines 66-69 and 129-132. *)
Definition fetch_or_exit {A : Type} (env : environment) (url message : string)
    (r : result A) : wizard A :=
  act (AFetch url) ;;;
  background (env_io env url) ;;;
  match r with
  | Ok a => ret a
  | Throw err => act (AError message (Some err)) ;;; stop (Exited 1)
  end.

Definition confirm (env : environment) (message : string) : wizard bool :=
  act (APrompt message) ;;; await env message (env_confirm env message).

Definition input (env : environment) (message : string) (default : js_value)
    : wizard js_value :=
  act (APrompt message) ;;; await env message (env_input env message default).

Definition console_log (line : string) : wizard unit := act (ALog line).

(** [process.chdir(dir)], which throws when it cannot enter [dir]. *)
Definition chdir (env : environment) (dir : string) : wizard unit :=
  match env_chdir env dir with
  | Some err => stop (Unhandled err)
  | None => act (AChdir dir)
  end.

Definition bytes_of_string (s : string) : bytes := list_byte_of_string s.

Definition writeFileSync (env : environment) (path content : string)
    : wizard unit :=
  fun w =>
    match env_writeFileSync env path with
    | Some err => (Stop (Unhandled err), w)
    | None =>
        (Next tt,
         mkWorld (w_actions w ++ [AWriteFile path content])
           (<[path := bytes_of_string content]> (w_disk w)) (w_modes w)
           (w_stream w))
    end.

Definition chmodSync (env : environment) (path mode : string) : wizard unit :=
  fun w =>
    match env_chmodSync env path with
    | Some err => (Stop (Unhandled err), w)
    | None =>
        (Next tt,
         mkWorld (w_actions w ++ [AChmod path mode]) (w_disk w)
           (<[path := mode]> (w_modes w)) (w_stream w))
    end.

(** lines 17-25 *)
Definition runCommand (env : environment) (command : string) : wizard bool :=
  act (AExec command) ;;;
  match env_execSync env command with
  | None => ret true
  | Some err =>
      act (AError ("Failed to execute " +:+ command) (Some err)) ;;; ret false
  end.

(** *** Property access on a document *)

Fixpoint lookup_field (key : string) (fields : list (string * js_value))
    : js_value :=
  match fields with
  | [] => JUndefined
  | (k, v) :: rest => if String.eqb k key then v else lookup_field key rest
  end.

(** An assignment keeps the place of a key that exists and puts a new key
    last. *)
Fixpoint store_field (key : string) (x : js_value)
    (fields : list (string * js_value)) : list (string * js_value) :=
  match fields with
  | [] => [(key, x)]
  | (k, v) :: rest =>
      if String.eqb k key then (k, x) :: rest
      else (k, v) :: store_field key x rest
  end.

(** [v.key] for the keys the wizard reads, none of which is inherited. *)
Definition get_prop (v : js_value) (key : string) : result js_value :=
  match v with
  | JUndefined =>
      Throw (TypeError
               ("Cannot read properties of undefined (reading '" +:+ key
                  +:+ "')"))
  | JNull =>
      Throw (TypeError
               ("Cannot read properties of null (reading '" +:+ key +:+ "')"))
  | JObject fields => Ok (lookup_field key fields)
  | JArray _ extra => Ok (lookup_field key extra)
  | JDate _ extra => Ok (lookup_field key extra)
  | JBinary _ extra => Ok (lookup_field key extra)
  | _ => Ok JUndefined
  end.

(** [v.key = x] in a module, which is strict code: assigning to a
    property of a primitive throws (the text of that message is
    shortened here). *)
Definition set_prop (v : js_value) (key : string) (x : js_value)
    : result js_value :=
  match v with
  | JUndefined =>
      Throw (TypeError
               ("Cannot set properties of undefined (setting '" +:+ key
                  +:+ "')"))
  | JNull =>
      Throw (TypeError
               ("Cannot set properties of null (setting '" +:+ key +:+ "')"))
  | JObject fields => Ok (JObject (store_field key x fields))
  | JArray items extra => Ok (JArray items (store_field key x extra))
  | JDate time extra => Ok (JDate time (store_field key x extra))
  | JBinary data extra => Ok (JBinary data (store_field key x extra))
  | _ => Throw (TypeError ("Cannot create property '" +:+ key +:+ "'"))
  end.

(** The parent of a node that an assignment has changed: in the tree,
    the parent holds the new node where it held the old one. *)
Definition update_child (parent : js_value) (key : string) (child : js_value)
    : js_value :=
  match parent with
  | JObject fields => JObject (store_field key child fields)
  | JArray items extra => JArray items (store_field key child extra)
  | JDate time extra => JDate time (store_field key child extra)
  | JBinary data extra => JBinary data (store_field key child extra)
  | _ => parent
  end.

(** [json.a.b = x] *)
Definition assign2 (json : js_value) (a b : string) (x : js_value)
    : result js_value :=
  match get_prop json a with
  | Throw err => Throw err
  | Ok node =>
      match set_prop node b x with
      | Throw err => Throw err
      | Ok node' => Ok (update_child json a node')
      end
  end.

(** [json.a.b.c = x] *)
Definition assign3 (json : js_value) (a b c : string) (x : js_value)
    : result js_value :=
  match get_prop json a with
  | Throw err => Throw err
  | Ok node =>
      match assign2 node b c x with
      | Throw err => Throw err
      | Ok node' => Ok (update_child json a node')
      end
  end.

(** [json.a.b] and [json.a.b.c] *)
Definition read2 (json : js_value) (a b : string) : result js_value :=
  match get_prop json a with
  | Throw err => Throw err
  | Ok node => get_prop node b
  end.

Definition read3 (json : js_value) (a b c : string) : result js_value :=
  match get_prop json a with
  | Throw err => Throw err
  | Ok node => read2 node b c
  end.

(** *** The steps of the wizard *)

Definition dquote : string := String (ascii_of_nat 34) "".
Definition newline : string := String (ascii_of_nat 10) "".

(** line 66 *)
Definition releasesUrl : string :=
  "https://api.github.com/repos/lavalink-devs/Lavalink/releases".

(** line 129 *)
Definition exampleUrl : string :=
  "https://raw.githubusercontent.com/hewkawar/create-lavalink/refs/heads/main/files/application.example.yaml".

Definition dirMessage : string := "What is your server named?".

(** line 79 *)
Definition overwriteMessage (dir : string) : string :=
  "Directory " +:+ dquote +:+ dir +:+ dquote
    +:+ " already exists. Do you want to continue?".

Definition versionMessage : string :=
  "Which version of Lavalink do you want to use?".
Definition runScriptMessage : string :=
  "Do you need to get the run script file?".
Definition needConfigMessage : string :=
  "Do you need to config application.yml?".
Definition needCommentMessage : string :=
  "Do you need to comment the application.yml?".

(** line 180 and line 186 *)
Definition runScriptContent : string :=
  "#!/bin/sh" +:+ newline +:+ "java -jar Lavalink.jar".
Definition runScriptWindowsContent : string :=
  "@echo off" +:+ newline +:+ "java -jar Lavalink.jar".

(** lines 71-96 *)
Definition enter_directory (env : environment) : wizard string :=
  dir <- (act (APrompt dirMessage) ;;;
          await env dirMessage
            (env_input_string env dirMessage "lavalink-server")) ;;
  (if env_existsSync env dir then
     overwrite <- confirm env (overwriteMessage dir) ;;
     if negb overwrite
     then console_log "Operation cancelled by user." ;;; stop (Exited 0)
     else chdir env dir
   else
     created <- runCommand env ("mkdir " +:+ dir) ;;
     (if negb created
      then act (AError "Failed to create directory" None) ;;; stop (Exited 1)
      else ret tt) ;;;
     chdir env dir) ;;;
  ret dir.

(** lines 98-110.  [versionList.sort] throws on a value that is no array,
    and [versionList[0].tag_name] on an empty one (the texts of the
    messages are shortened).  The choices shown are the tags of the
    releases in the order [sort] leaves them with the comparator of line
    100; what is chosen is the prompt's answer. *)
Definition select_version (env : environment) (versionList : releases)
    : wizard string :=
  match versionList with
  | NotAnArray => stop (Unhandled (TypeError "versionList.sort is not a function"))
  | ReleaseArray [] =>
      stop (Unhandled
              (TypeError
                 "Cannot read properties of undefined (reading 'tag_name')"))
  | ReleaseArray list_ =>
      act (APrompt versionMessage) ;;;
      await env versionMessage (env_select env versionMessage list_)
  end.

(** lines 118-126, with [downloadFile] as embedded above. *)
Definition download_jar (env : environment) (version : string) : wizard unit :=
  fun w =>
    let p :=
      createLavalink_download (w_disk w) (env_fetch env) version
        (env_schedule env) in
    let st := p_download p in
    let w' :=
      mkWorld
        (w_actions w
           ++ [ADownload (jarUrl version) jarFile (jarText version)]
           ++ map ARender (st_terminal st)
           ++ map (fun e => AError e.1 (Some e.2)) (p_stderr p))
        (st_disk st) (w_modes w) (st_fileStream st) in
    match p_exitCode p with
    | Some code => (Stop (Exited code), w')
    | None =>
        match st_promise st with
        | Resolved => (Next tt, w')
        | Pending => (Stop Hung, w')
        | Rejected err => (Stop (Unhandled err), w')
        end
    end.

(** lines 140-161 *)
Definition configure (env : environment) (exampleYml : string) : wizard unit :=
  json <- try_ (env_yaml_load env exampleYml) ;;
  default_address <- try_ (read2 json "server" "address") ;;
  address <- input env "What is the address?" default_address ;;
  default_port <- try_ (read2 json "server" "port") ;;
  port <- input env "What is the port?" default_port ;;
  default_password <- try_ (read3 json "lavalink" "server" "password") ;;
  password <- input env "What is the password?" default_password ;;
  json1 <- try_ (assign2 json "server" "address" address) ;;
  json2 <- try_ (assign2 json1 "server" "port" port) ;;
  json3 <- try_ (assign3 json2 "lavalink" "server" "password" password) ;;
  content <- try_ (env_yaml_dump env json3) ;;
  writeFileSync env "application.yml" content.

(** lines 162-173 *)
Definition copy_example (env : environment) (exampleYml : string)
    : wizard unit :=
  needComment <- confirm env needCommentMessage ;;
  json <- try_ (env_yaml_load env exampleYml) ;;
  content <- (if needComment : bool then ret exampleYml
              else try_ (env_yaml_dump env json)) ;;
  writeFileSync env "application.yml" content.

(** lines 178-189 *)
Definition write_run_scripts (env : environment) : wizard unit :=
  writeFileSync env "run.sh" runScriptContent ;;;
  chmodSync env "run.sh" "755" ;;;
  console_log "Linux/MacOS run script created successfully." ;;;
  writeFileSync env "run.bat" runScriptWindowsContent ;;;
  console_log "Windows run script created successfully.".

(** lines 192-202 *)
Definition final_lines (dir : string) : list string :=
  [newline +:+ "Lavalink server setup completed in directory: " +:+ dir;
   "You can now run the server using the provided run scripts:";
   "";
   "    java -jar Lavalink.jar";
   "or";
   "    ./run.sh (Linux/MacOS)";
   "    run.bat (Windows)";
   "";
   "For more information, visit: https://docs.lavalink.dev";
   "Thank you for using create-lavalink!";
   "If you have any issues, please report them at: https://github.com/hewkawar/create-lavalink/issues"].

Definition log_lines (lines : list string) : wizard unit :=
  fun w =>
    (Next tt,
     mkWorld (w_actions w ++ map ALog lines) (w_disk w) (w_modes w)
       (w_stream w)).

(** lines 65-203 *)
Definition createLavalink (env : environment) : wizard unit :=
  versionList <- fetch_or_exit env releasesUrl
                   "Failed to fetch Lavalink versions:"
                   (env_fetch_json env releasesUrl) ;;
  dir <- enter_directory env ;;
  version <- select_version env versionList ;;
  runScript <- confirm env runScriptMessage ;;
  download_jar env version ;;;
  exampleYml <- fetch_or_exit env exampleUrl
                  "Failed to fetch example.application.yml:"
                  (env_fetch_text env exampleUrl) ;;
  needConfig <- confirm env needConfigMessage ;;
  (if needConfig : bool then configure env exampleYml
   else copy_example env exampleYml) ;;;
  console_log "application.yml created successfully." ;;;
  (if runScript : bool then write_run_scripts env else ret tt) ;;;
  log_lines (final_lines dir).

Definition initial_world (env : environment) : world :=
  mkWorld [] (env_disk env) ∅ None.

(** Once [createLavalink] has returned, the process lives until the
    stream has nothing left to do. *)
Definition settle (w : world) : world :=
  match w_stream w with
  | Some ws =>
      let '(ws', disk') := ws_io_n (ws_todo ws) ws (w_disk w) in
      mkWorld (w_actions w) disk' (w_modes w) (Some ws')
  | None => w
  end.

(** line 205 *)
Definition main (env : environment) : ending * world :=
  match createLavalink env (initial_world env) with
  | (Next _, w) => (Finished, settle w)
  | (Stop e, w) => (e, w)
  end.

(** ** Vocabulary for the wizard *)

(** The files the wizard is there to make. *)
Definition wizard_files : list string :=
  [jarFile; "application.yml"; "run.sh"; "run.bat"].

(** Every way in which [m] stops satisfies [E]. *)
Definition stops {A : Type} (m : wizard A) (E : ending -> world -> Prop)
    : Prop :=
  forall w, match m w with (Stop e, w') => E e w' | (Next _, _) => True end.

(** From a world that satisfies [P], [m] goes on in a world that satisfies
    [Q] or stops in a way that satisfies [E]. *)
Definition ensures {A : Type} (m : wizard A) (P : world -> Prop)
    (Q : A -> world -> Prop) (E : ending -> world -> Prop) : Prop :=
  forall w,
    P w ->
    match m w with (Next a, w') => Q a w' | (Stop e, w') => E e w' end.

(** The messages of the four [console.error] calls that are followed by
    [process.exit(1)] (lines 67, 92, 124 and 130). *)
Definition exit_messages : list string :=
  ["Failed to fetch Lavalink versions:"; "Failed to create directory";
   "Failed to download Lavalink:"; "Failed to fetch example.application.yml:"].

(** How [createLavalink] stops before it returns: [process.exit] is called
    with 0 right after the cancellation message and with 1 right after one
    of those four messages. *)
Definition exit_logged (e : ending) (w : world) : Prop :=
  match e with
  | Exited code =>
      (code = 0%Z /\
       last (w_actions w) = Some (ALog "Operation cancelled by user.")) \/
      (code = 1%Z /\
       exists message err,
         message ∈ exit_messages /\
         last (w_actions w) = Some (AError message err))
  | Finished => False
  | _ => True
  end.

(** An exception, not an exit. *)
Definition thrown (e : ending) (w : world) : Prop :=
  exists err, e = Unhandled err.

(** Not the exit of a cancellation. *)
Definition not_cancelled (e : ending) (w : world) : Prop :=
  e <> Exited 0.

(** An action that writes nothing and starts no download. *)
Definition quiet (a : action) : Prop :=
  match a with
  | AWriteFile _ _ | AChmod _ _ | ADownload _ _ _ | ARender _ => False
  | _ => True
  end.

(** The world before the download: the directory is as the process found
    it. *)
Definition pristine (env : environment) (w : world) : Prop :=
  w_disk w = env_disk env /\ w_modes w = ∅ /\ w_stream w = None /\
  Forall quiet (w_actions w).

(** The world after a download of the chunks [cs] has resolved: [d] is
    what the directory holds but for the jar, which the stream is still
    writing or has written. *)
Definition jar_inv (d : filesystem) (cs : list bytes) (w : world) : Prop :=
  exists ws,
    w_stream w = Some ws /\ ws_ending ws = true /\
    stream_inv d jarFile cs ws (w_disk w).

Definition settled_state (d : filesystem) (cs : list bytes)
    (modes : gmap string string) (w : world) : Prop :=
  jar_inv d cs w /\ w_modes w = modes.

(** [d] differs from the directory the process found at most in the files
    the wizard makes. *)
Definition agrees (env : environment) (d : filesystem) : Prop :=
  forall path, path ∉ wizard_files -> d !! path = env_disk env !! path.

(** The download of [version] has resolved, having received the chunks
    [cs]. *)
Definition download_resolved (env : environment) (version : string)
    (cs : list bytes) : Prop :=
  exists term,
    resolved_inv (env_disk env) jarFile cs term
      (downloadFile (env_disk env) (env_fetch env (jarUrl version)) jarFile
         (jarText version) (env_schedule env)).

(** The document written when the user configures it: the answers are in
    [server.address], [server.port] and [lavalink.server.password]. *)
Definition patched (json address port password json3 : js_value) : Prop :=
  exists json1 json2,
    assign2 json "server" "address" address = Ok json1 /\
    assign2 json1 "server" "port" port = Ok json2 /\
    assign3 json2 "lavalink" "server" "password" password = Ok json3.

(** What lines 140-173 write to application.yml, given the text fetched on
    line 129. *)
Definition application_yml (env : environment) (exampleYml content : string)
    : Prop :=
  exists json,
    env_yaml_load env exampleYml = Ok json /\
    ((env_confirm env needConfigMessage = Ok true /\
      exists d_address d_port d_password address port password json3,
        read2 json "server" "address" = Ok d_address /\
        env_input env "What is the address?" d_address = Ok address /\
        read2 json "server" "port" = Ok d_port /\
        env_input env "What is the port?" d_port = Ok port /\
        read3 json "lavalink" "server" "password" = Ok d_password /\
        env_input env "What is the password?" d_password = Ok password /\
        patched json address port password json3 /\
        env_yaml_dump env json3 = Ok content) \/
     (env_confirm env needConfigMessage = Ok false /\
      env_confirm env needCommentMessage = Ok true /\
      content = exampleYml) \/
     (env_confirm env needConfigMessage = Ok false /\
      env_confirm env needCommentMessage = Ok false /\
      env_yaml_dump env json = Ok content)).

(** The directory once the run scripts have been written, if asked. *)
Definition with_scripts (runScript : bool) (d : filesystem) : filesystem :=
  if runScript
  then <["run.bat" := bytes_of_string runScriptWindowsContent]>
         (<["run.sh" := bytes_of_string runScriptContent]> d)
  else d.

Definition script_modes (runScript : bool) : gmap string string :=
  if runScript then {["run.sh" := "755"]} else ∅.

(** Where the wizard may stop once the download has resolved. *)
Definition settled_stop (env : environment) (cs : list bytes) (e : ending)
    (w : world) : Prop :=
  exists d modes, agrees env d /\ settled_state d cs modes w.

(** What holds when lines 128-202 are through. *)
Definition set_up (env : environment) (cs : list bytes) (dir : string)
    (runScript : bool) (w : world) : Prop :=
  exists exampleYml content,
    env_fetch_text env exampleUrl = Ok exampleYml /\
    application_yml env exampleYml content /\
    settled_state
      (with_scripts runScript
         (<["application.yml" := bytes_of_string content]> (env_disk env)))
      cs (script_modes runScript) w /\
    exists before, w_actions w = before ++ map ALog (final_lines dir).

(** No action of the wizard has written a file or set a mode. *)
Definition writes_nothing (a : action) : Prop :=
  match a with
  | AWriteFile _ _ | AChmod _ _ => False
  | _ => True
  end.

(** The world of a run that has stopped before the download resolved: but
    for the jar, the directory is as the process found it. *)
Definition unwritten (env : environment) (w : world) : Prop :=
  (forall path, path <> jarFile -> w_disk w !! path = env_disk env !! path) /\
  w_modes w = ∅ /\
  Forall writes_nothing (w_actions w).

(** What the prompts and the network have answered when the download
    starts. *)
Definition asked (env : environment) (dir version : string)
    (runScript : bool) : Prop :=
  env_input_string env dirMessage "lavalink-server" = Ok dir /\
  (exists list_,
     env_fetch_json env releasesUrl = Ok (ReleaseArray list_) /\
     list_ <> [] /\
     env_select env versionMessage list_ = Ok version) /\
  env_confirm env runScriptMessage = Ok runScript.

(** Where [createLavalink] may stop. *)
Definition wizard_stop (env : environment) (e : ending) (w : world) : Prop :=
  unwritten env w \/
  exists dir version runScript cs,
    asked env dir version runScript /\
    download_resolved env version cs /\
    settled_stop env cs e w.

(** What holds when [createLavalink] returns. *)
Definition wizard_done (env : environment) (w : world) : Prop :=
  exists dir version runScript cs,
    asked env dir version runScript /\
    download_resolved env version cs /\
    set_up env cs dir runScript w.

(** The part of [createLavalink] that follows the download (lines
    128-202) and the part that follows the choice of a directory (lines
    98-202), named for the statements below. *)
Definition after_download (env : environment) (dir : string) (runScript : bool)
    : wizard unit :=
  exampleYml <- fetch_or_exit env exampleUrl
                  "Failed to fetch example.application.yml:"
                  (env_fetch_text env exampleUrl) ;;
  needConfig <- confirm env needConfigMessage ;;
  (if needConfig : bool then configure env exampleYml
   else copy_example env exampleYml) ;;;
  console_log "application.yml created successfully." ;;;
  (if runScript : bool then write_run_scripts env else ret tt) ;;;
  log_lines (final_lines dir).

Definition after_directory (env : environment) (versionList : releases)
    (dir : string) : wizard unit :=
  version <- select_version env versionList ;;
  runScript <- confirm env runScriptMessage ;;
  download_jar env version ;;;
  after_download env dir runScript.

(** A value that can take a property: an object, not a primitive. *)
Definition is_object (v : js_value) : Prop :=
  match v with
  | JObject _ | JArray _ _ | JDate _ _ | JBinary _ _ => True
  | _ => False
  end.

(** Lines 77-96 let the wizard into the directory [dir]. *)
Definition directory_entered (env : environment) (dir : string) : Prop :=
  (if env_existsSync env dir
   then env_confirm env (overwriteMessage dir) = Ok true
   else env_execSync env ("mkdir " +:+ dir) = None) /\
  env_chdir env dir = None.

(** The response for the jar of [version] is ok and has a body, and its
    reader reaches the end of the stream without a failure. *)
Definition download_succeeds (env : environment) (version : string) : Prop :=
  exists response cs rest,
    env_fetch env (jarUrl version) = FetchResponse response /\
    ok response = true /\ body response = true /\
    settled (env_schedule env) = map ReadValue cs ++ ReadDone :: rest.

(** The download is still awaited when the schedule has run out. *)
Definition download_stalls (env : environment) (version : string) : Prop :=
  exists response cs,
    env_fetch env (jarUrl version) = FetchResponse response /\
    ok response = true /\ body response = true /\
    settled (env_schedule env) = map ReadValue cs.

(** [fs.writeFileSync] and [fs.chmodSync] do not throw for the files the
    wizard makes. *)
Definition files_written (env : environment) (runScript : bool) : Prop :=
  env_writeFileSync env "application.yml" = None /\
  (runScript = true ->
   env_writeFileSync env "run.sh" = None /\
   env_chmodSync env "run.sh" = None /\
   env_writeFileSync env "run.bat" = None).

(** [m] goes on with [a] from every world; [m] goes on from no world. *)
Definition proceeds {A : Type} (m : wizard A) (a : A) : Prop :=
  forall w, (m w).1 = Next a.

Definition fails {A : Type} (m : wizard A) : Prop :=
  forall w a, (m w).1 <> Next a.

(** ** Sample inputs *)

(** A 200 response without content-length. *)
Definition sample_response : Response := mkResponse true "OK" None true.

(** A 404 response. *)
Definition sample_not_found : Response :=
  mkResponse false "Not Found" None true.

(** A body of three bytes delivered as two chunks. *)
Definition sample_chunks : list bytes :=
  [["001"; "002"]; ["003"]]%byte.

(** The two chunks and end of stream, with two ticks and one completion of
    the stream in between. *)
Definition sample_schedule : list event :=
  [TimerTick; ReaderSettled (ReadValue ["001"; "002"]%byte); StreamIO;
   ReaderSettled (ReadValue ["003"%byte]); TimerTick; ReaderSettled ReadDone].

(** The first chunk, then a failing read. *)
Definition sample_failing_prefix : list event :=
  [TimerTick; ReaderSettled (ReadValue ["001"; "002"]%byte); StreamIO; StreamIO].

Definition sample_reason : js_error := Error "terminated".

(** Enough completions to open, write two chunks and close. *)
Definition sample_drain : list event :=
  [StreamIO; StreamIO; StreamIO; StreamIO].

(** A disk on which the destination already exists. *)
Definition sample_disk : filesystem :=
  {[ "Lavalink.jar" := ["255"; "254"; "253"; "252"]%byte ]}.

Definition sample_network (url : string) : fetch_result :=
  FetchResponse sample_response.

(** A body of 15729 bytes, which is 0.015 MB, in two chunks, with its
    length declared. *)
Definition sample_large_chunks : list bytes :=
  [replicate (N.to_nat 10000) "000"%byte; replicate (N.to_nat 5729) "255"%byte].

Definition sample_sized_response : Response :=
  mkResponse true "OK" (Some "15729") true.

Definition sample_large_schedule : list event :=
  [TimerTick; ReaderSettled (ReadValue (replicate (N.to_nat 10000) "000"%byte)); StreamIO;
   ReaderSettled (ReadValue (replicate (N.to_nat 5729) "255"%byte)); TimerTick;
   ReaderSettled ReadDone].

(** A template with the three settings the wizard asks about. *)
Definition sample_document : js_value :=
  JObject
    [("server",
      JObject [("port", JNumber "2333"); ("address", JString "0.0.0.0")]);
     ("lavalink",
      JObject
        [("server",
          JObject [("password", JString "youshallnotpass");
                   ("bufferDurationMs", JNumber "400")])]);
     ("logging", JObject [("level", JString "INFO")])].

Definition sample_releases : list release :=
  [mkRelease (JString "4.0.8") "4.0.8"; mkRelease (JString "4.0.7") "4.0.7"].

(** A run in which everything succeeds: the directory is new, the user
    takes the second version, asks for the run scripts and sets the port. *)
Definition sample_env : environment :=
  mkEnvironment
    (fun _ => Ok (ReleaseArray sample_releases))
    (fun _ => Ok "server: # REST and WS server")
    sample_network
    sample_schedule
    (fun _ default => Ok default)
    (fun message default =>
       if String.eqb message "What is the port?"
       then Ok (JString "2334") else Ok default)
    (fun _ => Ok true)
    (fun _ _ => Ok "4.0.7")
    (fun _ => false)
    (fun _ => None)
    (fun _ => None)
    ∅
    (fun _ => None)
    (fun _ => None)
    (fun _ => Ok sample_document)
    (fun _ => Ok "server: {port: '2334'}")
    (fun _ => 1).

(** The same surroundings with other answers to the prompts, another
    answer for the index, or a shell that fails. *)
Definition with_confirm (env : environment)
    (answer : string -> result bool) : environment :=
  mkEnvironment (env_fetch_json env) (env_fetch_text env) (env_fetch env)
    (env_schedule env) (env_input_string env) (env_input env) answer
    (env_select env) (env_existsSync env) (env_execSync env) (env_chdir env)
    (env_disk env) (env_writeFileSync env) (env_chmodSync env)
    (env_yaml_load env) (env_yaml_dump env) (env_io env).

Definition with_index (env : environment) (index : result releases)
    : environment :=
  mkEnvironment (fun _ => index) (env_fetch_text env) (env_fetch env)
    (env_schedule env) (env_input_string env) (env_input env)
    (env_confirm env) (env_select env) (env_existsSync env)
    (env_execSync env) (env_chdir env) (env_disk env)
    (env_writeFileSync env) (env_chmodSync env) (env_yaml_load env)
    (env_yaml_dump env) (env_io env).

Definition with_directory (env : environment) (exists_ : bool)
    (exec : option js_error) (disk : filesystem) : environment :=
  mkEnvironment (env_fetch_json env) (env_fetch_text env) (env_fetch env)
    (env_schedule env) (env_input_string env) (env_input env)
    (env_confirm env) (env_select env) (fun _ => exists_) (fun _ => exec)
    (env_chdir env) disk (env_writeFileSync env) (env_chmodSync env)
    (env_yaml_load env) (env_yaml_dump env) (env_io env).

Definition with_yaml_load (env : environment)
    (load : string -> result js_value) : environment :=
  mkEnvironment (env_fetch_json env) (env_fetch_text env) (env_fetch env)
    (env_schedule env) (env_input_string env) (env_input env)
    (env_confirm env) (env_select env) (env_existsSync env)
    (env_execSync env) (env_chdir env) (env_disk env)
    (env_writeFileSync env) (env_chmodSync env) load (env_yaml_dump env)
    (env_io env).

(** The download succeeds, no operation of the write stream completes
    while the process awaits, and the template cannot be fetched. *)
Definition sample_template_env : environment :=
  mkEnvironment (env_fetch_json sample_env)
    (fun _ => Throw (TypeError "fetch failed")) (env_fetch sample_env)
    (without_io sample_schedule) (env_input_string sample_env)
    (env_input sample_env) (env_confirm sample_env) (env_select sample_env)
    (env_existsSync sample_env) (env_execSync sample_env)
    (env_chdir sample_env) (env_disk sample_env)
    (env_writeFileSync sample_env) (env_chmodSync sample_env)
    (env_yaml_load sample_env) (env_yaml_dump sample_env) (fun _ => 0).

(** The connection stalls after the first chunk. *)
Definition sample_stalled_env : environment :=
  mkEnvironment (env_fetch_json sample_env) (env_fetch_text sample_env)
    (env_fetch sample_env) sample_failing_prefix
    (env_input_string sample_env) (env_input sample_env)
    (env_confirm sample_env) (env_select sample_env)
    (env_existsSync sample_env) (env_execSync sample_env)
    (env_chdir sample_env) (env_disk sample_env)
    (env_writeFileSync sample_env) (env_chmodSync sample_env)
    (env_yaml_load sample_env) (env_yaml_dump sample_env)
    (env_io sample_env).

(** The directory exists and the user declines to go on. *)
Definition sample_cancel_env : environment :=
  with_confirm (with_directory sample_env true None sample_disk)
    (fun _ => Ok false).

(** [mkdir] fails. *)
Definition sample_mkdir_env : environment :=
  with_directory sample_env false (Some (Error "Command failed: mkdir")) ∅.

(** * Lemmas *)

(** ** Schedules *)

Lemma run_app text total st evs1 evs2 :
  run text total st (evs1 ++ evs2) = run text total (run text total st evs1) evs2.
Proof. apply fold_left_app. Qed.

Lemma run_cons text total st ev evs :
  run text total st (ev :: evs) = run text total (step text total st ev) evs.
Proof. reflexivity. Qed.

Lemma settled_app evs1 evs2 : settled (evs1 ++ evs2) = settled evs1 ++ settled evs2.
Proof. apply omap_app. Qed.

(** A schedule whose reader results are [rs1 ++ r :: rs2] splits at the
    event that delivers [r]. *)
Lemma settled_split evs rs1 r rs2 :
  settled evs = rs1 ++ r :: rs2 ->
  exists pre post,
    evs = pre ++ ReaderSettled r :: post /\ settled pre = rs1 /\ settled post = rs2.
Proof.
  revert rs1. induction evs as [|ev evs IH]; intros rs1 H.
  - destruct rs1; discriminate.
  - destruct ev as [| |r'].
    + destruct (IH rs1 H) as (pre & post & -> & H1 & H2).
      exists (TimerTick :: pre), post. auto.
    + destruct (IH rs1 H) as (pre & post & -> & H1 & H2).
      exists (StreamIO :: pre), post. auto.
    + change (r' :: settled evs = rs1 ++ r :: rs2) in H.
      destruct rs1 as [|r1 rs1]; simpl in H.
      * injection H as -> H. exists [], evs. auto.
      * injection H as -> H.
        destruct (IH rs1 H) as (pre & post & -> & H1 & H2).
        exists (ReaderSettled r1 :: pre), post. simpl.
        split; [reflexivity|]. split; [|assumption].
        change (r1 :: settled pre = r1 :: rs1). congruence.
Qed.

Lemma settled_without_io evs : settled (without_io evs) = settled evs.
Proof.
  induction evs as [|ev evs IH]; [reflexivity|].
  unfold without_io. rewrite filter_cons. fold (without_io evs).
  destruct ev; simpl; congruence.
Qed.

(** ** The write stream *)

Lemma stream_inv_create disk0 dest :
  stream_inv disk0 dest [] (createWriteStream dest) disk0.
Proof. split; simpl; try done. Qed.

Lemma stream_inv_write disk0 dest handed ws disk value :
  ws_ending ws = false ->
  stream_inv disk0 dest handed ws disk ->
  stream_inv disk0 dest (handed ++ [value]) (ws_write ws value) disk.
Proof.
  intros Hend [Hp Hf Ho Hl Hu Hop Hc]. unfold ws_write. rewrite Hend.
  split; simpl; try done.
  - rewrite !length_app. simpl. lia.
  - intros H. destruct (Hu H) as (? & ? & Hb & ?).
    rewrite !concat_app, Hb. done.
  - intros H. destruct (Hop H) as (flushed & ? & Hb & ?).
    exists flushed. rewrite !concat_app, app_assoc, Hb. done.
  - intros H. destruct (Hc H) as (_ & _ & ?). congruence.
Qed.

Lemma stream_inv_end disk0 dest handed ws disk :
  stream_inv disk0 dest handed ws disk ->
  stream_inv disk0 dest handed (ws_end ws) disk.
Proof.
  intros [Hp Hf Ho Hl Hu Hop Hc]. split; simpl; try done.
  intros H. destruct (Hc H) as (? & ? & _). done.
Qed.

Lemma stream_inv_io disk0 dest handed ws disk :
  stream_inv disk0 dest handed ws disk ->
  stream_inv disk0 dest handed (ws_io ws disk).1 (ws_io ws disk).2.
Proof.
  intros Hinv. pose proof Hinv as [Hp Hf Ho Hl Hu Hop Hc]. unfold ws_io.
  destruct (ws_closed ws) eqn:Ecl; [exact Hinv|].
  destruct (ws_opened ws) eqn:Eop; simpl.
  - destruct (Hop eq_refl) as (flushed & Hd & Hb & Hw).
    destruct (ws_buffer ws) as [|chunk rest] eqn:Ebuf.
    + destruct (ws_ending ws) eqn:Een; simpl; [|exact Hinv].
      split; simpl; try done.
    + split; simpl; try done.
      * intros p Hne. rewrite lookup_alter_ne by congruence. auto.
      * simpl in Hl. lia.
      * intros _. exists (flushed ++ chunk). rewrite Hp.
        rewrite lookup_alter_eq, Hd. simpl.
        split; [done|]. split.
        -- rewrite <- app_assoc. exact Hb.
        -- rewrite Hw, length_app. lia.
  - destruct (Hu eq_refl) as (-> & Hw & Hb & _).
    split; simpl; try done.
    + intros p Hne. rewrite Hf. unfold open_file.
      rewrite lookup_insert_ne by congruence. done.
    + intros _. exists []. rewrite Hf, Hp. unfold open_file.
      rewrite lookup_insert_eq. done.
Qed.

Lemma ws_io_ending ws disk : ws_ending (ws_io ws disk).1 = ws_ending ws.
Proof.
  unfold ws_io. destruct (ws_closed ws) eqn:?; [done|].
  destruct (ws_opened ws); simpl; [|done].
  destruct (ws_buffer ws); [|done].
  destruct (ws_ending ws) eqn:E; simpl; done.
Qed.

Lemma stream_inv_contents disk0 dest handed ws disk :
  stream_inv disk0 dest handed ws disk ->
  written_through ws disk ++ concat (ws_buffer ws) = concat handed.
Proof.
  intros [Hp Hf Ho Hl Hu Hop Hc]. unfold written_through.
  destruct (ws_opened ws) eqn:E.
  - destruct (Hop eq_refl) as (flushed & Hd & Hb & _).
    rewrite Hp, Hd. exact Hb.
  - destruct (Hu eq_refl) as (_ & _ & Hb & _). exact Hb.
Qed.

Lemma stream_inv_closed disk0 dest handed ws disk :
  stream_inv disk0 dest handed ws disk ->
  ws_closed ws = true -> disk !! dest = Some (concat handed).
Proof.
  intros [Hp Hf Ho Hl Hu Hop Hc] Hcl.
  destruct (Hc Hcl) as (Hopen & Hbuf & _).
  destruct (Hop Hopen) as (flushed & Hd & Hb & _).
  rewrite Hbuf in Hb. simpl in Hb. rewrite app_nil_r in Hb. congruence.
Qed.

Lemma stream_inv_prefix disk0 dest handed ws disk :
  stream_inv disk0 dest handed ws disk ->
  ws_opened ws = true ->
  exists flushed,
    disk !! dest = Some flushed /\ flushed `prefix_of` concat handed /\
    ws_bytesWritten ws = N.of_nat (length flushed).
Proof.
  intros [Hp Hf Ho Hl Hu Hop Hc] Hopen.
  destruct (Hop Hopen) as (flushed & Hd & Hb & Hw).
  exists flushed. split; [done|]. split; [|done].
  exists (concat (ws_buffer ws)). done.
Qed.

Lemma ws_todo_io ws disk :
  ws_ending ws = true -> ws_todo (ws_io ws disk).1 = pred (ws_todo ws).
Proof.
  intros He. unfold ws_io, ws_todo.
  destruct (ws_closed ws) eqn:Ecl; simpl; [rewrite Ecl; done|].
  destruct (ws_opened ws) eqn:Eop; simpl.
  - destruct (ws_buffer ws) as [|chunk rest] eqn:Eb; simpl.
    + rewrite He. simpl. done.
    + lia.
  - lia.
Qed.

Lemma ws_todo_closed ws : ws_todo ws = 0 -> ws_closed ws = true.
Proof. unfold ws_todo. destruct (ws_closed ws); [done|lia]. Qed.

Lemma ws_todo_bound disk0 dest handed ws disk :
  stream_inv disk0 dest handed ws disk -> ws_todo ws <= length handed + 2.
Proof.
  intros [_ _ _ Hl _ _ _]. unfold ws_todo.
  destruct (ws_closed ws), (ws_opened ws); lia.
Qed.

Lemma ws_io_keeps ws disk path :
  is_Some (disk !! path) -> is_Some ((ws_io ws disk).2 !! path).
Proof.
  intros Hsome. unfold ws_io.
  destruct (ws_closed ws); [exact Hsome|].
  destruct (ws_opened ws); simpl.
  - destruct (ws_buffer ws) as [|chunk rest]; simpl.
    + destruct (ws_ending ws); exact Hsome.
    + rewrite lookup_alter. case_decide; [|exact Hsome].
      subst. destruct Hsome as [old ->]. eexists. reflexivity.
  - unfold open_file. destruct (ws_flags ws).
    + rewrite lookup_insert. case_decide; [eexists; reflexivity|exact Hsome].
    + destruct (disk !! ws_path ws); [exact Hsome|].
      rewrite lookup_insert. case_decide; [eexists; reflexivity|exact Hsome].
Qed.

(** ** Rendered lines *)

Lemma tick_line_mono text total bound bound' line :
  (bound <= bound')%N ->
  tick_line text total bound line -> tick_line text total bound' line.
Proof. intros Hle (k & d & ? & ? & ?). exists k, d. repeat split; [done|lia|done]. Qed.

Lemma frame_at_elem k : (k < 10)%N -> frame_at k ∈ loadingFrames.
Proof.
  intros Hk. unfold frame_at.
  assert (N.to_nat k < 10) as Hlt by lia.
  destruct (N.to_nat k) as [|[|[|[|[|[|[|[|[|[|n]]]]]]]]]] eqn:E; simpl;
    try lia; set_solver.
Qed.

Lemma tick_line_starts_with_frame text total bound line :
  tick_line text total bound line -> starts_with_frame line = true.
Proof.
  intros (k & d & Hk & _ & ->). unfold frame_at.
  assert (N.to_nat k < 10) as Hlt by lia.
  destruct (N.to_nat k) as [|[|[|[|[|[|[|[|[|[|n]]]]]]]]]] eqn:E;
    try lia; reflexivity.
Qed.

Lemma final_line_no_frame text totalMB downloadedMB :
  starts_with_frame (progressLine successMarker text downloadedMB totalMB)
    = false.
Proof. reflexivity. Qed.

Lemma tick_line_rendered text total bound line :
  tick_line text total bound line -> rendered_line text total bound line.
Proof.
  intros (k & d & Hk & Hd & ->). exists (frame_at k), d.
  split; [|done]. apply elem_of_cons. right. apply frame_at_elem, Hk.
Qed.

Lemma final_line_rendered text total cs :
  rendered_line text total (N.of_nat (length (concat cs)))
    (final_line text total cs).
Proof.
  exists successMarker, (N.of_nat (length (concat cs))).
  split; [apply elem_of_cons; left; reflexivity|]. split; [lia|reflexivity].
Qed.

Lemma length_concat_sum (cs : list bytes) :
  length (concat cs) = list_sum (map length cs).
Proof.
  induction cs as [|c cs IH]; [reflexivity|].
  simpl. rewrite length_app, IH. reflexivity.
Qed.

(** ** The phases of a call *)

Section Phases.

Variables (text total : string) (disk0 : filesystem) (dest : string).

Lemma frame_index_lt (i : N) : (i mod N.of_nat (length loadingFrames) < 10)%N.
Proof. apply N.mod_lt. discriminate. Qed.

Lemma tick_line_intro (i d : N) :
  tick_line text total d
    (progressLine (frame_at (i mod N.of_nat (length loadingFrames))) text
       (toFixed2_MB d) total).
Proof.
  exists (i mod N.of_nat (length loadingFrames))%N, d.
  split; [apply frame_index_lt|]. split; [lia|done].
Qed.

Lemma pending_start (response : Response) :
  ok response = true ->
  body response = true ->
  pending_inv text total disk0 dest []
    (downloadFile_start disk0 (FetchResponse response) dest).
Proof.
  intros Hok Hbody. unfold downloadFile_start. rewrite Hok, Hbody. simpl.
  split; simpl; try done.
  exists (createWriteStream dest). auto using stream_inv_create.
Qed.

Lemma rejected_start (response : Response) :
  ok response = true ->
  body response = false ->
  rejected_inv text total disk0 dest [] null_body_error 0
    (downloadFile_start disk0 (FetchResponse response) dest).
Proof.
  intros Hok Hbody. unfold downloadFile_start. rewrite Hok, Hbody. simpl.
  split; simpl; try done.
  exists (createWriteStream dest). auto using stream_inv_create.
Qed.

(** The stream's own step keeps whatever invariant the stream is under. *)
Lemma stream_io_step cs (ending : bool) st ws :
  st_fileStream st = Some ws ->
  ws_ending ws = ending ->
  stream_inv disk0 dest cs ws (st_disk st) ->
  exists ws',
    st_fileStream (on_stream_io st) = Some ws' /\ ws_ending ws' = ending /\
    stream_inv disk0 dest cs ws' (st_disk (on_stream_io st)).
Proof.
  intros Hws He Hinv. unfold on_stream_io. rewrite Hws.
  pose proof (ws_io_ending ws (st_disk st)) as He'.
  pose proof (stream_inv_io _ _ _ _ _ Hinv) as Hinv'.
  destruct (ws_io ws (st_disk st)) as [ws' disk']. simpl in *.
  exists ws'. split; [reflexivity|]. split; [congruence|exact Hinv'].
Qed.

Lemma on_stream_io_fields st :
  st_promise (on_stream_io st) = st_promise st /\
  st_interval (on_stream_io st) = st_interval st /\
  st_downloadedSize (on_stream_io st) = st_downloadedSize st /\
  st_reads (on_stream_io st) = st_reads st /\
  st_terminal (on_stream_io st) = st_terminal st.
Proof.
  unfold on_stream_io. destruct (st_fileStream st) as [ws|]; [|done].
  destruct (ws_io ws (st_disk st)). done.
Qed.

Lemma pending_tick cs st :
  pending_inv text total disk0 dest cs st ->
  pending_inv text total disk0 dest cs (step text total st TimerTick).
Proof.
  intros [Hp Hi Hs Hr Ht Hw]. simpl. unfold on_tick. rewrite Hi.
  split; simpl; try done.
  apply Forall_app. split; [done|].
  apply Forall_singleton, tick_line_intro.
Qed.

Lemma pending_io cs st :
  pending_inv text total disk0 dest cs st ->
  pending_inv text total disk0 dest cs (step text total st StreamIO).
Proof.
  intros [Hp Hi Hs Hr Ht (ws & Hws & He & Hinv)]. simpl.
  destruct (on_stream_io_fields st) as (Fp & Fi & Fs & Fr & Ft).
  split; [congruence..| |].
  - rewrite Fs, Ft. exact Ht.
  - eapply stream_io_step; eassumption.
Qed.

Lemma pending_value cs st value :
  pending_inv text total disk0 dest cs st ->
  pending_inv text total disk0 dest (cs ++ [value])
    (step text total st (ReaderSettled (ReadValue value))).
Proof.
  intros [Hp Hi Hs Hr Ht (ws & Hws & He & Hinv)]. simpl. unfold on_read.
  rewrite Hp, Hws. split; simpl; try done.
  - rewrite Hs, concat_app, !length_app. simpl. rewrite length_app. simpl. lia.
  - rewrite Hr, length_app. simpl. lia.
  - eapply Forall_impl; [exact Ht|]. intros line. apply tick_line_mono. lia.
  - exists (ws_write ws value). split; [done|]. split.
    + unfold ws_write. rewrite He. simpl. done.
    + apply stream_inv_write; done.
Qed.

Lemma pending_done cs st :
  pending_inv text total disk0 dest cs st ->
  exists ticks,
    Forall (tick_line text total (N.of_nat (length (concat cs)))) ticks /\
    resolved_inv disk0 dest cs (ticks ++ [final_line text total cs])
      (step text total st (ReaderSettled ReadDone)).
Proof.
  intros [Hp Hi Hs Hr Ht (ws & Hws & He & Hinv)]. simpl. unfold on_read.
  rewrite Hp, Hws. exists (st_terminal st). split; [congruence|].
  split; simpl; try done.
  - unfold final_line. rewrite Hs. done.
  - exists (ws_end ws). auto using stream_inv_end.
Qed.

Lemma pending_rejected cs st reason :
  pending_inv text total disk0 dest cs st ->
  rejected_inv text total disk0 dest cs reason (S (length cs))
    (step text total st (ReaderSettled (ReadRejected reason))).
Proof.
  intros [Hp Hi Hs Hr Ht Hw]. simpl. unfold on_read. rewrite Hp.
  split; simpl; done.
Qed.

Lemma resolved_step cs term st ev :
  resolved_inv disk0 dest cs term st ->
  resolved_inv disk0 dest cs term (step text total st ev).
Proof.
  intros Hinv. pose proof Hinv as [Hp Hi Hs Hr Ht (ws & Hws & He & Hsi)].
  destruct ev as [| |r]; simpl.
  - unfold on_tick. rewrite Hi. done.
  - destruct (on_stream_io_fields st) as (Fp & Fi & Fs & Fr & Ft).
    split; [congruence..|]. eapply stream_io_step; eassumption.
  - unfold on_read. rewrite Hp. done.
Qed.

Lemma rejected_step cs reason reads st ev :
  rejected_inv text total disk0 dest cs reason reads st ->
  rejected_inv text total disk0 dest cs reason reads (step text total st ev).
Proof.
  intros Hinv. pose proof Hinv as [Hp Hi Hs Hr Ht (ws & Hws & He & Hsi)].
  destruct ev as [| |r]; simpl.
  - unfold on_tick. rewrite Hi. split; simpl; try done.
    + apply Forall_app. split; [done|].
      apply Forall_singleton, tick_line_intro.
    + eauto.
  - destruct (on_stream_io_fields st) as (Fp & Fi & Fs & Fr & Ft).
    split; [congruence..| |].
    + rewrite Fs, Ft. exact Ht.
    + eapply stream_io_step; eassumption.
  - unfold on_read. rewrite Hp. done.
Qed.

Lemma run_pending evs : forall cs0 cs st,
  pending_inv text total disk0 dest cs0 st ->
  settled evs = map ReadValue cs ->
  pending_inv text total disk0 dest (cs0 ++ cs) (run text total st evs).
Proof.
  induction evs as [|ev evs IH]; intros cs0 cs st Hinv Hs.
  - destruct cs; [|discriminate]. rewrite app_nil_r. exact Hinv.
  - rewrite run_cons. destruct ev as [| |r].
    + apply IH; [apply pending_tick; exact Hinv | exact Hs].
    + apply IH; [apply pending_io; exact Hinv | exact Hs].
    + change (r :: settled evs = map ReadValue cs) in Hs.
      destruct cs as [|value cs]; [discriminate|].
      simpl in Hs. injection Hs as -> Hs.
      replace (cs0 ++ value :: cs) with ((cs0 ++ [value]) ++ cs)
        by (rewrite <- app_assoc; reflexivity).
      apply IH; [apply pending_value; exact Hinv | exact Hs].
Qed.

Lemma run_resolved evs : forall cs term st,
  resolved_inv disk0 dest cs term st ->
  resolved_inv disk0 dest cs term (run text total st evs).
Proof.
  induction evs as [|ev evs IH]; intros cs term st Hinv; [exact Hinv|].
  rewrite run_cons. apply IH, resolved_step, Hinv.
Qed.

Lemma run_rejected evs : forall cs reason reads st,
  rejected_inv text total disk0 dest cs reason reads st ->
  rejected_inv text total disk0 dest cs reason reads (run text total st evs).
Proof.
  induction evs as [|ev evs IH]; intros cs reason reads st Hinv; [exact Hinv|].
  rewrite run_cons. apply IH, rejected_step, Hinv.
Qed.

(** *** Draining the stream after the call has resolved *)

Lemma resolved_todo_step cs term st ev :
  resolved_inv disk0 dest cs term st ->
  st_todo (step text total st ev) =
    if is_stream_io ev then pred (st_todo st) else st_todo st.
Proof.
  intros [Hp Hi Hs Hr Ht (ws & Hws & He & Hsi)].
  destruct ev as [| |r]; simpl.
  - unfold on_tick. rewrite Hi. done.
  - unfold on_stream_io, st_todo. rewrite Hws.
    pose proof (ws_todo_io ws (st_disk st) He) as Hio.
    destruct (ws_io ws (st_disk st)) as [ws' disk']. simpl in *. exact Hio.
  - unfold on_read. rewrite Hp. done.
Qed.

Lemma resolved_todo_run evs : forall cs term st,
  resolved_inv disk0 dest cs term st ->
  st_todo (run text total st evs) = st_todo st - count_io evs.
Proof.
  induction evs as [|ev evs IH]; intros cs term st Hinv.
  - simpl. lia.
  - rewrite run_cons.
    rewrite (IH cs term) by (apply resolved_step; exact Hinv).
    rewrite (resolved_todo_step cs term) by exact Hinv.
    simpl. destruct (is_stream_io ev); lia.
Qed.

(** Once the call has resolved, any schedule with enough completions of
    the stream's operations closes the file. *)
Lemma resolved_drains cs term st evs :
  resolved_inv disk0 dest cs term st ->
  length cs + 2 <= count_io evs ->
  stream_closed (run text total st evs) = true.
Proof.
  intros Hinv Hn.
  pose proof (resolved_todo_run evs cs term st Hinv) as Htodo.
  pose proof (run_resolved evs cs term st Hinv)
    as [_ _ _ _ _ (ws' & Hws' & _ & _)].
  destruct Hinv as [_ _ _ _ _ (ws & Hws & _ & Hsi)].
  pose proof (ws_todo_bound _ _ _ _ _ Hsi) as Hb.
  unfold st_todo in Htodo. rewrite Hws, Hws' in Htodo.
  unfold stream_closed. rewrite Hws'. apply ws_todo_closed. lia.
Qed.

End Phases.

(** ** Reachable states *)

Lemma failed_state_step text total disk0 reason ev :
  step text total (failed_state disk0 reason) ev = failed_state disk0 reason.
Proof. destruct ev; reflexivity. Qed.

Lemma failed_state_run text total disk0 reason evs :
  run text total (failed_state disk0 reason) evs = failed_state disk0 reason.
Proof.
  induction evs as [|ev evs IH]; [reflexivity|].
  rewrite run_cons, failed_state_step. exact IH.
Qed.

Lemma phase_start text total disk0 dest fetched :
  phase text total disk0 dest (downloadFile_start disk0 fetched dest).
Proof.
  destruct fetched as [reason|response].
  - eapply phase_failed. reflexivity.
  - destruct (ok response) eqn:Hok.
    + destruct (body response) eqn:Hbody.
      * apply (phase_pending _ _ _ _ _ []). apply pending_start; assumption.
      * eapply phase_rejected. apply rejected_start; assumption.
    + eapply phase_failed. unfold downloadFile_start. rewrite Hok. reflexivity.
Qed.

Lemma phase_step text total disk0 dest st ev :
  phase text total disk0 dest st ->
  phase text total disk0 dest (step text total st ev).
Proof.
  intros [reason ->|cs Hinv|cs ticks Hticks Hinv|cs reason reads Hinv].
  - rewrite failed_state_step. eapply phase_failed. reflexivity.
  - destruct ev as [| |[value| |reason]].
    + eapply phase_pending, pending_tick, Hinv.
    + eapply phase_pending, pending_io, Hinv.
    + eapply phase_pending, pending_value, Hinv.
    + destruct (pending_done text total disk0 dest cs st Hinv)
        as (ticks & Hticks & Hres).
      eapply phase_resolved; eassumption.
    + eapply phase_rejected, pending_rejected, Hinv.
  - eapply phase_resolved; [exact Hticks|]. apply resolved_step, Hinv.
  - eapply phase_rejected, rejected_step, Hinv.
Qed.

Lemma phase_run text total disk0 dest evs : forall st,
  phase text total disk0 dest st ->
  phase text total disk0 dest (run text total st evs).
Proof.
  induction evs as [|ev evs IH]; intros st H; [exact H|].
  rewrite run_cons. apply IH, phase_step, H.
Qed.

Lemma downloadFile_phase disk fetched dest text evs :
  phase text (totaledSizeMB (response_totalSize fetched)) disk dest
    (downloadFile disk fetched dest text evs).
Proof. apply phase_run, phase_start. Qed.

Lemma downloadFile_app disk fetched dest text evs evs' :
  downloadFile disk fetched dest text (evs ++ evs') =
  run text (totaledSizeMB (response_totalSize fetched))
    (downloadFile disk fetched dest text evs) evs'.
Proof. apply run_app. Qed.

(** A successful response whose reader delivers the chunks [cs] and has
    not settled otherwise leaves the call suspended in its loop. *)
Lemma downloadFile_pending disk response dest text cs evs :
  ok response = true ->
  body response = true ->
  settled evs = map ReadValue cs ->
  pending_inv text (totaledSizeMB (content_length response)) disk dest cs
    (downloadFile disk (FetchResponse response) dest text evs).
Proof.
  intros Hok Hbody Hs.
  apply (run_pending _ _ _ _ evs [] cs); [|exact Hs].
  apply pending_start; assumption.
Qed.

(** ... and end of stream after them resolves the call. *)
Lemma downloadFile_resolved disk response dest text cs rest evs :
  ok response = true ->
  body response = true ->
  settled evs = map ReadValue cs ++ ReadDone :: rest ->
  exists ticks,
    Forall (tick_line text (totaledSizeMB (content_length response))
              (N.of_nat (length (concat cs)))) ticks /\
    resolved_inv disk dest cs
      (ticks ++ [final_line text (totaledSizeMB (content_length response)) cs])
      (downloadFile disk (FetchResponse response) dest text evs).
Proof.
  intros Hok Hbody Hs.
  destruct (settled_split _ _ _ _ Hs) as (pre & post & -> & Hpre & _).
  pose proof (downloadFile_pending disk response dest text cs pre Hok Hbody
                Hpre) as Hpend.
  destruct (pending_done _ _ _ _ _ _ Hpend) as (ticks & Hticks & Hres).
  exists ticks. split; [exact Hticks|].
  rewrite downloadFile_app, run_cons. apply run_resolved. exact Hres.
Qed.

(** ... while a rejected read after them rejects it. *)
Lemma downloadFile_rejected disk response dest text cs reason rest evs :
  ok response = true ->
  body response = true ->
  settled evs = map ReadValue cs ++ ReadRejected reason :: rest ->
  rejected_inv text (totaledSizeMB (content_length response)) disk dest cs
    reason (S (length cs))
    (downloadFile disk (FetchResponse response) dest text evs).
Proof.
  intros Hok Hbody Hs.
  destruct (settled_split _ _ _ _ Hs) as (pre & post & -> & Hpre & _).
  pose proof (downloadFile_pending disk response dest text cs pre Hok Hbody
                Hpre) as Hpend.
  rewrite downloadFile_app, run_cons. apply run_rejected.
  apply pending_rejected. exact Hpend.
Qed.

(** In every reachable state the counter is the number of bytes given to
    the write stream, and every line on the terminal shows a value the
    counter has had. *)
Lemma phase_disk text total disk0 dest st :
  phase text total disk0 dest st ->
  (forall path, path <> dest -> st_disk st !! path = disk0 !! path) /\
  (stream_opened st = false -> st_disk st = disk0) /\
  (stream_opened st = true ->
   exists flushed,
     st_disk st !! dest = Some flushed /\
     flushed `prefix_of` stream_contents st).
Proof.
  assert (forall cs ws,
            st_fileStream st = Some ws ->
            stream_inv disk0 dest cs ws (st_disk st) ->
            (forall path, path <> dest -> st_disk st !! path = disk0 !! path) /\
            (stream_opened st = false -> st_disk st = disk0) /\
            (stream_opened st = true ->
             exists flushed,
               st_disk st !! dest = Some flushed /\
               flushed `prefix_of` stream_contents st)) as Hstream.
  { intros cs ws Hws Hsi. unfold stream_opened, stream_contents. rewrite Hws.
    split; [exact (si_others _ _ _ _ _ Hsi)|]. split.
    - intros Hop. apply (si_unopened _ _ _ _ _ Hsi Hop).
    - intros Hop. rewrite (stream_inv_contents _ _ _ _ _ Hsi).
      destruct (stream_inv_prefix _ _ _ _ _ Hsi Hop) as (flushed & ? & ? & _).
      eauto. }
  intros [reason ->|cs Hinv|cs ticks _ Hinv|cs reason reads Hinv].
  - repeat split; try done.
  - destruct Hinv as [_ _ _ _ _ (ws & Hws & _ & Hsi)]. eauto.
  - destruct Hinv as [_ _ _ _ _ (ws & Hws & _ & Hsi)]. eauto.
  - destruct Hinv as [_ _ _ _ _ (ws & Hws & _ & Hsi)]. eauto.
Qed.

Lemma phase_rendered text total disk0 dest st :
  phase text total disk0 dest st ->
  st_downloadedSize st = N.of_nat (length (stream_contents st)) /\
  Forall (rendered_line text total (st_downloadedSize st)) (st_terminal st).
Proof.
  assert (forall cs ws,
            st_fileStream st = Some ws ->
            stream_inv disk0 dest cs ws (st_disk st) ->
            stream_contents st = concat cs) as Hcontents.
  { intros cs ws Hws Hsi. unfold stream_contents. rewrite Hws.
    eapply stream_inv_contents, Hsi. }
  intros [reason ->|cs Hinv|cs ticks Hticks Hinv|cs reason reads Hinv].
  - split; [reflexivity|constructor].
  - destruct Hinv as [_ _ Hs _ Ht (ws & Hws & _ & Hsi)].
    rewrite (Hcontents cs ws Hws Hsi). split; [exact Hs|].
    eapply Forall_impl; [exact Ht|]. intros line. apply tick_line_rendered.
  - destruct Hinv as [_ _ Hs _ Ht (ws & Hws & _ & Hsi)].
    rewrite (Hcontents cs ws Hws Hsi). split; [exact Hs|].
    rewrite Ht, Hs. apply Forall_app. split.
    + eapply Forall_impl; [exact Hticks|]. intros line. apply tick_line_rendered.
    + apply Forall_singleton, final_line_rendered.
  - destruct Hinv as [_ _ Hs _ Ht (ws & Hws & _ & Hsi)].
    rewrite (Hcontents cs ws Hws Hsi). split; [exact Hs|].
    eapply Forall_impl; [exact Ht|]. intros line. apply tick_line_rendered.
Qed.

(** ** The counter *)

Lemma step_downloadedSize text total st ev :
  st_downloadedSize (step text total st ev) = st_downloadedSize st \/
  exists value,
    ev = ReaderSettled (ReadValue value) /\
    st_downloadedSize (step text total st ev) =
      (st_downloadedSize st + N.of_nat (length value))%N.
Proof.
  destruct ev as [| |r]; simpl.
  - left. unfold on_tick. destruct (st_interval st); reflexivity.
  - left. unfold on_stream_io. destruct (st_fileStream st) as [ws|]; [|reflexivity].
    destruct (ws_io ws (st_disk st)). reflexivity.
  - unfold on_read. destruct (st_promise st); [|left; reflexivity..].
    destruct r as [value| |reason]; [right|left|left]; eauto.
Qed.

Lemma run_downloadedSize_mono text total evs : forall st,
  (st_downloadedSize st <= st_downloadedSize (run text total st evs))%N.
Proof.
  induction evs as [|ev evs IH]; intros st; [simpl; lia|].
  rewrite run_cons. etrans; [|apply IH].
  destruct (step_downloadedSize text total st ev) as [->|(value & _ & ->)]; lia.
Qed.

(** ** The disk *)

(** No job of the call removes a file. *)
Lemma step_keeps_files text total st ev path :
  is_Some (st_disk st !! path) ->
  is_Some (st_disk (step text total st ev) !! path).
Proof.
  intros Hsome. destruct ev as [| |r]; simpl.
  - unfold on_tick. destruct (st_interval st); exact Hsome.
  - unfold on_stream_io. destruct (st_fileStream st) as [ws|]; [|exact Hsome].
    pose proof (ws_io_keeps ws (st_disk st) path Hsome) as H.
    destruct (ws_io ws (st_disk st)). exact H.
  - unfold on_read. destruct (st_promise st); [|exact Hsome..].
    destruct r; exact Hsome.
Qed.

Lemma run_keeps_files text total evs path : forall st,
  is_Some (st_disk st !! path) ->
  is_Some (st_disk (run text total st evs) !! path).
Proof.
  induction evs as [|ev evs IH]; intros st H; [exact H|].
  rewrite run_cons. apply IH, step_keeps_files, H.
Qed.

(** ** The caller *)

Lemma process_exited text total evs : forall p code,
  p_exitCode p = Some code -> fold_left (process_step text total) evs p = p.
Proof.
  induction evs as [|ev evs IH]; intros p code H; [reflexivity|].
  simpl. unfold process_step at 2. rewrite H. eapply IH, H.
Qed.

Lemma process_pending text total disk0 dest evs : forall cs0 cs st log,
  pending_inv text total disk0 dest cs0 st ->
  settled evs = map ReadValue cs ->
  fold_left (process_step text total) evs (mkProcess st log None) =
  mkProcess (run text total st evs) log None.
Proof.
  induction evs as [|ev evs IH]; intros cs0 cs st log Hinv Hs; [reflexivity|].
  simpl fold_left. rewrite run_cons.
  assert (exists cs1 cs',
            pending_inv text total disk0 dest cs1 (step text total st ev) /\
            settled evs = map ReadValue cs') as (cs1 & cs' & Hinv' & Hs').
  { destruct ev as [| |r].
    - exists cs0, cs. split; [apply pending_tick, Hinv|exact Hs].
    - exists cs0, cs. split; [apply pending_io, Hinv|exact Hs].
    - change (r :: settled evs = map ReadValue cs) in Hs.
      destruct cs as [|value cs]; [discriminate|].
      simpl in Hs. injection Hs as -> Hs.
      exists (cs0 ++ [value]), cs. split; [apply pending_value, Hinv|exact Hs]. }
  unfold process_step at 2. simpl p_exitCode. cbv iota.
  unfold catch_download. simpl p_download.
  rewrite (pi_promise _ _ _ _ _ _ Hinv').
  eapply IH; eassumption.
Qed.

(** The caller under a schedule in which a read rejects after the chunks
    [cs]: it stops at that event. *)
Lemma createLavalink_download_rejected disk network version response cs reason
    pre post :
  network (jarUrl version) = FetchResponse response ->
  ok response = true ->
  body response = true ->
  settled pre = map ReadValue cs ->
  createLavalink_download disk network version
    (pre ++ ReaderSettled (ReadRejected reason) :: post) =
  mkProcess
    (downloadFile disk (FetchResponse response) jarFile (jarText version)
       (pre ++ [ReaderSettled (ReadRejected reason)]))
    [("Failed to download Lavalink:", reason)] (Some 1%Z).
Proof.
  intros Hnet Hok Hbody Hpre. unfold createLavalink_download. rewrite Hnet.
  simpl response_totalSize.
  set (total := totaledSizeMB (content_length response)).
  set (start := downloadFile_start disk (FetchResponse response) jarFile).
  pose proof (pending_start (jarText version) total disk jarFile response Hok
                Hbody) as Hstart.
  fold start in Hstart.
  assert (catch_download (mkProcess start [] None) = mkProcess start [] None)
    as ->.
  { unfold catch_download. simpl.
    rewrite (pi_promise _ _ _ _ _ _ Hstart). reflexivity. }
  rewrite fold_left_app.
  rewrite (process_pending (jarText version) total disk jarFile pre [] cs
             start [] Hstart Hpre).
  pose proof (run_pending (jarText version) total disk jarFile pre [] cs start
                Hstart Hpre) as Hpend.
  simpl fold_left.
  assert (process_step (jarText version) total
            (mkProcess (run (jarText version) total start pre) [] None)
            (ReaderSettled (ReadRejected reason)) =
          mkProcess
            (downloadFile disk (FetchResponse response) jarFile
               (jarText version)
               (pre ++ [ReaderSettled (ReadRejected reason)]))
            [("Failed to download Lavalink:", reason)] (Some 1%Z)) as ->.
  { rewrite downloadFile_app.
    change (downloadFile disk (FetchResponse response) jarFile
              (jarText version) pre)
      with (run (jarText version) total start pre).
    simpl response_totalSize. fold total.
    unfold process_step, catch_download. simpl. unfold on_read.
    rewrite (pi_promise _ _ _ _ _ _ Hpend). reflexivity. }
  eapply process_exited. reflexivity.
Qed.

(** ** The Number of a decimal numeral *)

Ltac digit_cases d Hd :=
  let Hcases := fresh "Hcases" in
  assert (d = 0 \/ d = 1 \/ d = 2 \/ d = 3 \/ d = 4 \/ d = 5 \/ d = 6 \/
          d = 7 \/ d = 8 \/ d = 9)%N as Hcases by lia;
  clear Hd;
  repeat (destruct Hcases as [->|Hcases]); [..|subst d].

Lemma digit_of_char (d : N) :
  (d < 10)%N -> digit_of 10 (pretty_N_char d) = Some d.
Proof. intros Hd. digit_cases d Hd; reflexivity. Qed.

(** Reading the decimal digits of [x] in front of [s] shifts what was read
    before and adds [x]. *)
Lemma take_digits_pretty_go (x : N) : forall s,
  exists k,
    ((0 < x)%N -> (0 < k)%N) /\
    forall acc count,
      take_digits 10 acc count (pretty_N_go x s) =
      take_digits 10 (acc * 10 ^ k + x) (count + k) s.
Proof.
  induction (N.lt_wf_0 x) as [x _ IH]. intros s.
  destruct (N.eq_dec x 0%N) as [->|Hx].
  - exists 0%N. split; [lia|]. intros acc count. rewrite pretty_N_go_0.
    f_equal; lia.
  - assert (0 < x)%N as Hpos by lia.
    destruct (IH (x / 10)%N (N.div_lt x 10 Hpos eq_refl)
                (String (pretty_N_char (x mod 10)%N) s)) as (k & _ & Hk).
    exists (k + 1)%N. split; [lia|]. intros acc count.
    rewrite pretty_N_go_step by exact Hpos. rewrite Hk.
    cbn [take_digits].
    rewrite digit_of_char by (apply N.mod_lt; discriminate).
    f_equal; [|lia]. rewrite N.pow_add_r.
    pose proof (N.div_mod x 10%N ltac:(discriminate)) as Hdm.
    set (q := (x / 10)%N) in *. set (r := (x mod 10)%N) in *.
    set (p := (10 ^ k)%N). nia.
Qed.

Lemma take_digits_pretty (n : N) :
  exists k, (0 < k)%N /\ take_digits 10 0 0 (pretty n) = (n, k, EmptyString).
Proof.
  unfold pretty, pretty_N. destruct (decide (n = 0%N)) as [->|Hn].
  - exists 1%N. split; [lia|reflexivity].
  - destruct (take_digits_pretty_go n "") as (k & Hk & Hgo).
    exists k. split; [apply Hk; lia|]. rewrite Hgo. cbn [take_digits].
    rewrite N.mul_0_l, !N.add_0_l. reflexivity.
Qed.

Lemma pretty_go_digits (x : N) : forall s,
  digits_only s -> digits_only (pretty_N_go x s).
Proof.
  induction (N.lt_wf_0 x) as [x _ IH]. intros s Hs.
  destruct (N.eq_dec x 0%N) as [->|Hx].
  - rewrite pretty_N_go_0. exact Hs.
  - assert (0 < x)%N as Hpos by lia.
    rewrite pretty_N_go_step by exact Hpos.
    apply IH; [apply N.div_lt; [exact Hpos|reflexivity]|].
    split; [|exact Hs]. exists (x mod 10)%N.
    split; [apply N.mod_lt; discriminate|reflexivity].
Qed.

Lemma pretty_digits (n : N) : digits_only (pretty n).
Proof.
  unfold pretty, pretty_N. destruct (decide (n = 0%N)) as [_|Hn].
  - split; [|exact I]. exists 0%N. split; [lia|reflexivity].
  - apply pretty_go_digits. exact I.
Qed.

Lemma trim_left_digits s : digits_only s -> trim_left s = s.
Proof.
  destruct s as [|c s]; [reflexivity|]. intros [(d & Hd & ->) _].
  digit_cases d Hd; reflexivity.
Qed.

Lemma trim_right_digits s : digits_only s -> trim_right s = s.
Proof.
  induction s as [|c s IH]; [reflexivity|]. intros [(d & Hd & ->) Hs].
  cbn [trim_right]. rewrite (IH Hs). destruct s as [|c' s]; [|reflexivity].
  digit_cases d Hd; reflexivity.
Qed.

Lemma NonDecimalIntegerLiteral_digits s :
  digits_only s -> NonDecimalIntegerLiteral s = None.
Proof.
  destruct s as [|zero [|c s]]; [reflexivity..|].
  intros [_ [(d & Hd & ->) _]]. unfold NonDecimalIntegerLiteral.
  digit_cases d Hd; cbn; rewrite andb_false_r; reflexivity.
Qed.

Lemma take_sign_digits s : digits_only s -> take_sign s = (false, s).
Proof.
  destruct s as [|c s]; [reflexivity|]. intros [(d & Hd & ->) _].
  digit_cases d Hd; reflexivity.
Qed.

Lemma not_Infinity_digits s : digits_only s -> String.eqb s "Infinity" = false.
Proof.
  destruct s as [|c s]; [reflexivity|]. intros [(d & Hd & ->) _].
  digit_cases d Hd; reflexivity.
Qed.

(** The decimal numeral of an integer below [2^53] is read as that
    integer, exactly. *)
Lemma StringToNumber_pretty (n : N) :
  (n < 2 ^ 53)%N -> StringToNumber (pretty n) = Finite false n 0.
Proof.
  intros Hn. pose proof (pretty_digits n) as Hdigits.
  destruct (take_digits_pretty n) as (k & Hk & Htake).
  unfold StringToNumber.
  rewrite (trim_left_digits _ Hdigits), (trim_right_digits _ Hdigits).
  destruct (pretty n) as [|c s] eqn:Hnumeral.
  { cbn in Htake. injection Htake as _ <-. lia. }
  rewrite (NonDecimalIntegerLiteral_digits _ Hdigits).
  rewrite (take_sign_digits _ Hdigits), (not_Infinity_digits _ Hdigits).
  unfold StrUnsignedDecimalLiteral. rewrite Htake.
  assert ((k + 0 =? 0)%N = false) as -> by (apply N.eqb_neq; lia).
  unfold decimal_value. cbn [Z.of_N Z.opp Z.leb Z.compare Z.to_N N.pow].
  unfold number_value. rewrite N.mul_1_r, N.eqb_refl.
  apply N.ltb_lt in Hn. rewrite Hn. reflexivity.
Qed.

(** Such a header is rendered as a counter of [n] bytes is. *)
Lemma totaledSizeMB_pretty (n : N) :
  (n < 2 ^ 53)%N -> totaledSizeMB (Some (pretty n)) = toFixed2_MB n.
Proof.
  intros Hn. unfold totaledSizeMB.
  pose proof (StringToNumber_pretty n Hn) as Hnumber.
  destruct (pretty n) as [|c s] eqn:Hnumeral.
  { destruct (take_digits_pretty n) as (k & Hk & Htake).
    rewrite Hnumeral in Htake. cbn in Htake. injection Htake as _ <-. lia. }
  rewrite Hnumber.
  change (divided_by_1024 (divided_by_1024 (Finite false n 0)))
    with (Finite false n (-20)).
  unfold toFixed2, over_power_of_two.
  change (0 <=? - -20)%Z with true.
  change (1 * 2 ^ Z.to_N (- -20))%N with 1048576%N.
  cbv beta iota zeta.
  assert ((10 ^ 21 * 1048576 <=? n)%N = false) as ->.
  { apply N.leb_gt. change (2 ^ 53)%N with 9007199254740992%N in Hn.
    change (10 ^ 21 * 1048576)%N with 1048576000000000000000000000%N.
    lia. }
  reflexivity.
Qed.

(** ** What a line shows *)

Lemma pretty_digit (d : N) :
  (d < 10)%N -> pretty d = String (pretty_N_char d) EmptyString.
Proof. intros Hd. digit_cases d Hd; reflexivity. Qed.

Lemma two_digits_pretty (n : N) :
  two_digits (n mod 100) = pretty (n / 10 mod 10)%N +:+ pretty (n mod 10)%N.
Proof.
  unfold two_digits.
  assert ((n mod 100) / 10 = n / 10 mod 10)%N as ->.
  { change 100%N with (10 * 10)%N. rewrite N.Div0.mod_mul_r.
    rewrite N.mul_comm, N.div_add by discriminate.
    rewrite N.div_small by (apply N.mod_lt; discriminate). reflexivity. }
  assert ((n mod 100) mod 10 = n mod 10)%N as ->.
  { change 100%N with (10 * 10)%N. rewrite N.Div0.mod_mul_r.
    rewrite N.mul_comm, N.Div0.mod_add. apply N.Div0.mod_mod. }
  rewrite !pretty_digit by (apply N.mod_lt; discriminate). reflexivity.
Qed.

(** [toFixed(2)] of the megabytes of a counter shows them. *)
Lemma toFixed2_MB_shown (d : N) : megabytes_shown d (toFixed2_MB d).
Proof.
  exists (hundredths_of_MB d). split.
  - unfold hundredths_of_MB.
    pose proof (N.div_mod (100 * d + 524288) 1048576 ltac:(discriminate))
      as Hdm.
    pose proof (N.mod_lt (100 * d + 524288) 1048576 ltac:(discriminate))
      as Hlt.
    set (q := ((100 * d + 524288) / 1048576)%N) in *.
    set (r := ((100 * d + 524288) mod 1048576)%N) in *.
    lia.
  - unfold toFixed2_MB. rewrite two_digits_pretty. reflexivity.
Qed.

(** The text of a rendered line. *)
Lemma rendered_line_shown text total bound line :
  rendered_line text total bound line ->
  exists marker d figure,
    (marker ∈ loadingFrames \/
     marker = String "027" "[32m✔" +:+ String "027" "[0m") /\
    (d <= bound)%N /\ megabytes_shown d figure /\
    line =
      marker +:+ " " +:+ text +:+ " (" +:+ figure +:+ " MB / " +:+ total
        +:+ " MB)".
Proof.
  intros (marker & d & Hmarker & Hd & ->).
  exists marker, d, (toFixed2_MB d).
  split; [|split; [exact Hd|split; [apply toFixed2_MB_shown|reflexivity]]].
  apply elem_of_cons in Hmarker. destruct Hmarker as [->|Hframe];
    [right; reflexivity|left; exact Hframe].
Qed.

(** ** Checks of the embedding on concrete inputs *)

(** [hundredths_of_MB] rounds to the nearest hundredth, halves upwards. *)
Lemma hundredths_of_MB_nearest (x : N) :
  (100 * x < hundredths_of_MB x * 1048576 + 524288)%N /\
  (hundredths_of_MB x * 1048576 <= 100 * x + 524288)%N.
Proof.
  unfold hundredths_of_MB.
  pose proof (N.div_mod (100 * x + 524288) 1048576 ltac:(discriminate)) as Hdm.
  pose proof (N.mod_lt (100 * x + 524288) 1048576 ltac:(discriminate)) as Hlt.
  set (q := ((100 * x + 524288) / 1048576)%N) in *.
  set (r := ((100 * x + 524288) mod 1048576)%N) in *.
  lia.
Qed.

Example toFixed2_MB_samples :
  toFixed2_MB 0 = "0.00" /\ toFixed2_MB 5242 = "0.00" /\
  toFixed2_MB 5243 = "0.01" /\ toFixed2_MB 1048576 = "1.00" /\
  toFixed2_MB 5242880 = "5.00" /\ toFixed2_MB 1234567890 = "1177.38".
Proof. repeat split; reflexivity. Qed.

Example totaledSizeMB_samples :
  totaledSizeMB None = "unknown" /\ totaledSizeMB (Some "") = "unknown" /\
  totaledSizeMB (Some "0") = "0.00" /\
  totaledSizeMB (Some "5242880") = "5.00".
Proof. repeat split; reflexivity. Qed.

(** Headers that are no numeral of an exact integer: a length beyond
    [2^53] is rounded to a double before it is divided, and other texts
    are read as JavaScript reads them. *)
Example totaledSizeMB_coercions :
  totaledSizeMB (Some "40502724029091676") = "38626407651.04" /\
  totaledSizeMB (Some "18446744073709551615") = "17592186044416.00" /\
  totaledSizeMB (Some "1.5e6") = "1.43" /\
  totaledSizeMB (Some "0x500000") = "5.00" /\
  totaledSizeMB (Some " 5242880 ") = "5.00" /\
  totaledSizeMB (Some "-5") = "-0.00" /\
  totaledSizeMB (Some "5242880 bytes") = "NaN" /\
  totaledSizeMB (Some "Infinity") = "Infinity" /\
  totaledSizeMB (Some "1048576000000000000000000000") = "1e+21" /\
  totaledSizeMB (Some "1180591620717411303424000000")
    = "1.125899906842624e+21".
Proof. repeat split; vm_compute; reflexivity. Qed.

(** The terminal and the disk of the sample transfer, step by step. *)
Example sample_transfer :
  let st :=
    downloadFile sample_disk (FetchResponse sample_response) "Lavalink.jar"
      "Downloading..." (sample_schedule ++ sample_drain) in
  st_terminal st =
    ["⠋ Downloading... (0.00 MB / unknown MB)";
     "⠙ Downloading... (0.00 MB / unknown MB)";
     successMarker +:+ " Downloading... (0.00 MB / unknown MB)"] /\
  st_disk st !! "Lavalink.jar" = Some ["001"; "002"; "003"]%byte /\
  st_downloadedSize st = 3%N /\
  stream_closed st = true.
Proof. repeat split; reflexivity. Qed.

(** With the flags ['a'] the old contents would have stayed. *)
Example append_flag_keeps_old :
  let ws := mkWriteStream "Lavalink.jar" flag_a false [["001"%byte]] 0 true false in
  let '(ws1, disk1) := ws_io ws sample_disk in
  let '(ws2, disk2) := ws_io ws1 disk1 in
  disk2 !! "Lavalink.jar" = Some ["255"; "254"; "253"; "252"; "001"]%byte.
Proof. reflexivity. Qed.

(** Scenario A of the specification: 5242880 bytes with a declared
    content-length of 5242880, in any chunks. *)
Example scenario_A disk cs evs :
  N.of_nat (length (concat cs)) = 5242880%N ->
  settled evs = map ReadValue cs ++ [ReadDone] ->
  last
    (st_terminal
       (downloadFile disk
          (FetchResponse (mkResponse true "OK" (Some "5242880") true))
          "out.bin" "Downloading test..." evs))
    = Some (successMarker +:+ " Downloading test... (5.00 MB / 5.00 MB)").
Proof.
  intros Hlen Hs.
  destruct (downloadFile_resolved disk
              (mkResponse true "OK" (Some "5242880") true) "out.bin"
              "Downloading test..." cs [] evs eq_refl eq_refl Hs)
    as (ticks & _ & Hres).
  rewrite (ri_terminal _ _ _ _ _ Hres), last_snoc.
  unfold final_line. rewrite Hlen. reflexivity.
Qed.

(** Scenario B: no content-length, 1048576 bytes. *)
Example scenario_B disk cs evs :
  N.of_nat (length (concat cs)) = 1048576%N ->
  settled evs = map ReadValue cs ++ [ReadDone] ->
  last
    (st_terminal
       (downloadFile disk (FetchResponse sample_response) "out.bin"
          "Downloading test..." evs))
    = Some (successMarker +:+ " Downloading test... (1.00 MB / unknown MB)").
Proof.
  intros Hlen Hs.
  destruct (downloadFile_resolved disk sample_response "out.bin"
              "Downloading test..." cs [] evs eq_refl eq_refl Hs)
    as (ticks & _ & Hres).
  rewrite (ri_terminal _ _ _ _ _ Hres), last_snoc.
  unfold final_line. rewrite Hlen. reflexivity.
Qed.

(** Scenario C: status 404. *)
Example scenario_C evs :
  downloadFile sample_disk (FetchResponse sample_not_found) "out.bin"
    "Downloading test..." evs
  = failed_state sample_disk (Error "Failed to download file: Not Found").
Proof. apply failed_state_run. Qed.

(** A 204 has no body: line 47 throws after the timer and the stream
    have been set up. *)
Example null_body_rejects :
  let st :=
    downloadFile ∅ (FetchResponse (mkResponse true "No Content" None false))
      "out.bin" "Downloading test..." [TimerTick; StreamIO] in
  st_promise st = Rejected null_body_error /\
  st_interval st = TimerActive /\
  st_disk st !! "out.bin" = Some [].
Proof. repeat split; reflexivity. Qed.

(** * The claims *)

(** C1, the claim as stated fails: resolving does not wait for the
    file.  In the sample transfer the stream has opened the destination,
    which empties it, and has written nothing yet when the call resolves:
    the file holds none of the three bytes, they are still queued.  And
    when no operation of the stream has completed at all, the file still
    holds what it held before the call. *)
Lemma downloadFile_resolved_file_incomplete :
  let call :=
    downloadFile sample_disk (FetchResponse sample_response) "Lavalink.jar"
      "Downloading..." in
  settled sample_schedule = map ReadValue sample_chunks ++ [ReadDone] /\
  concat sample_chunks = ["001"; "002"; "003"]%byte /\
  st_promise (call sample_schedule) = Resolved /\
  st_disk (call sample_schedule) !! "Lavalink.jar" = Some [] /\
  stream_queue (call sample_schedule) = sample_chunks /\
  st_promise (call (without_io sample_schedule)) = Resolved /\
  st_disk (call (without_io sample_schedule)) !! "Lavalink.jar"
    = Some ["255"; "254"; "253"; "252"]%byte.
Proof. repeat split; reflexivity. Qed.

(** C1, amended.  Whatever the partition [cs] of the response body into
    chunks and however timer ticks and the stream's own operations
    interleave with the reads, a call that resolves has given exactly the
    bytes of the body, in receipt order, to the write stream (nothing
    reordered, repeated or dropped); whenever afterwards the stream has
    closed, the destination file holds exactly those bytes, and any
    continuation with [length cs + 2] completions of the stream's
    operations closes it. *)
Theorem downloadFile_copies_body disk response dest text content cs evs :
  ok response = true ->
  body response = true ->
  concat cs = content ->
  settled evs = map ReadValue cs ++ [ReadDone] ->
  let st := downloadFile disk (FetchResponse response) dest text evs in
  st_promise st = Resolved /\
  stream_contents st = content /\
  forall evs',
    let st' :=
      downloadFile disk (FetchResponse response) dest text (evs ++ evs') in
    stream_contents st' = content /\
    (stream_closed st' = true -> st_disk st' !! dest = Some content) /\
    (length cs + 2 <= count_io evs' -> stream_closed st' = true).
Proof.
  intros Hok Hbody <- Hs. simpl.
  assert (forall evs',
            exists term,
              resolved_inv disk dest cs term
                (downloadFile disk (FetchResponse response) dest text
                   (evs ++ evs'))) as Hall.
  { intros evs'.
    destruct (downloadFile_resolved disk response dest text cs (settled evs')
                (evs ++ evs') Hok Hbody) as (ticks & _ & Hres).
    - rewrite settled_app, Hs, <- app_assoc. reflexivity.
    - eauto. }
  assert (forall st term,
            resolved_inv disk dest cs term st ->
            stream_contents st = concat cs) as Hcontents.
  { intros st term [_ _ _ _ _ (ws & Hws & _ & Hsi)].
    unfold stream_contents. rewrite Hws.
    eapply stream_inv_contents, Hsi. }
  destruct (Hall []) as (term & Hres). rewrite app_nil_r in Hres.
  split; [apply (ri_promise _ _ _ _ _ Hres)|].
  split; [eapply Hcontents, Hres|].
  intros evs'. destruct (Hall evs') as (term' & Hres').
  split; [eapply Hcontents, Hres'|]. split.
  - destruct Hres' as [_ _ _ _ _ (ws & Hws & _ & Hsi)].
    unfold stream_closed. rewrite Hws. exact (stream_inv_closed _ _ _ _ _ Hsi).
  - intros Hn. rewrite downloadFile_app.
    eapply resolved_drains; eassumption.
Qed.

Lemma downloadFile_copies_body_witness :
  ok sample_response = true /\
  body sample_response = true /\
  settled sample_schedule = map ReadValue sample_chunks ++ [ReadDone] /\
  st_disk
    (downloadFile sample_disk (FetchResponse sample_response) "Lavalink.jar"
       "Downloading..." (sample_schedule ++ sample_drain)) !! "Lavalink.jar"
    = Some ["001"; "002"; "003"]%byte.
Proof.
  split; [reflexivity|]. split; [reflexivity|]. split; [reflexivity|].
  destruct (downloadFile_copies_body sample_disk sample_response "Lavalink.jar"
              "Downloading..." ["001"; "002"; "003"]%byte sample_chunks
              sample_schedule eq_refl eq_refl eq_refl eq_refl) as (_ & _ & H).
  destruct (H sample_drain) as (_ & Hclosed & Hdrain).
  apply Hclosed, Hdrain. simpl. lia.
Defined.

(** C2, the claim as stated fails: when the reader delivers one chunk and
    then end of stream before the write stream has completed any
    operation, the call has resolved while the stream is not closed, the
    chunk is still queued and the destination file does not exist yet. *)
Lemma downloadFile_resolves_before_flush :
  let st :=
    downloadFile ∅ (FetchResponse sample_response) "Lavalink.jar"
      "Downloading..."
      [ReaderSettled (ReadValue ["001"%byte]); ReaderSettled ReadDone] in
  st_promise st = Resolved /\
  stream_closed st = false /\
  stream_queue st = [["001"%byte]] /\
  st_disk st !! "Lavalink.jar" = None.
Proof. repeat split; reflexivity. Qed.

(** C2, amended.  For every successful transfer the call resolves once
    every chunk has been given to the write stream and [end()] has been
    called on it: the bytes written through plus the bytes still queued are
    the whole body.  Resolution does not wait for the stream: the same
    schedule without any completion of the stream's operations resolves
    as well.  Closing and flushing follow from the stream's later
    operations alone. *)
Theorem downloadFile_resolves_after_end disk response dest text cs evs :
  ok response = true ->
  body response = true ->
  settled evs = map ReadValue cs ++ [ReadDone] ->
  let st := downloadFile disk (FetchResponse response) dest text evs in
  st_promise st = Resolved /\
  stream_ending st = true /\
  (exists ws,
     st_fileStream st = Some ws /\
     (ws_bytesWritten ws + ws_writableLength ws)%N =
       N.of_nat (length (concat cs))) /\
  st_promise
    (downloadFile disk (FetchResponse response) dest text (without_io evs))
    = Resolved /\
  forall evs',
    length cs + 2 <= count_io evs' ->
    stream_closed
      (downloadFile disk (FetchResponse response) dest text (evs ++ evs'))
      = true.
Proof.
  intros Hok Hbody Hs. simpl.
  destruct (downloadFile_resolved disk response dest text cs [] evs Hok Hbody
              Hs) as (ticks & _ & Hres).
  split; [apply (ri_promise _ _ _ _ _ Hres)|].
  pose proof Hres as [_ _ _ _ _ (ws & Hws & He & Hsi)].
  split; [unfold stream_ending; rewrite Hws; exact He|].
  split.
  - exists ws. split; [exact Hws|].
    unfold ws_writableLength. rewrite <- (stream_inv_contents _ _ _ _ _ Hsi).
    unfold written_through. destruct (ws_opened ws) eqn:Eop.
    + destruct (stream_inv_prefix _ _ _ _ _ Hsi Eop) as (flushed & Hd & _ & Hw).
      rewrite (si_path _ _ _ _ _ Hsi), Hd, Hw, length_app. simpl. lia.
    + destruct (si_unopened _ _ _ _ _ Hsi Eop) as (_ & Hw & _).
      rewrite Hw. simpl. lia.
  - split.
    + destruct (downloadFile_resolved disk response dest text cs []
                  (without_io evs) Hok Hbody) as (ticks' & _ & Hres').
      * rewrite settled_without_io. exact Hs.
      * apply (ri_promise _ _ _ _ _ Hres').
    + intros evs' Hn. rewrite downloadFile_app.
      eapply resolved_drains; eassumption.
Qed.

Lemma downloadFile_resolves_after_end_witness :
  ok sample_response = true /\
  body sample_response = true /\
  settled sample_schedule = map ReadValue sample_chunks ++ [ReadDone] /\
  stream_ending
    (downloadFile ∅ (FetchResponse sample_response) "Lavalink.jar"
       "Downloading..." sample_schedule) = true /\
  stream_closed
    (downloadFile ∅ (FetchResponse sample_response) "Lavalink.jar"
       "Downloading..." (sample_schedule ++ sample_drain)) = true.
Proof.
  split; [reflexivity|]. split; [reflexivity|]. split; [reflexivity|].
  destruct (downloadFile_resolves_after_end ∅ sample_response "Lavalink.jar"
              "Downloading..." sample_chunks sample_schedule eq_refl eq_refl
              eq_refl) as (_ & Hending & _ & _ & Hdrain).
  split; [exact Hending|]. apply Hdrain. simpl. lia.
Defined.

(** C3.  A response whose status is not ok rejects the call at once with
    [Error("Failed to download file: " + statusText)]: whatever the
    schedule, no write stream has been created, the disk is as it was, no
    timer has been set, nothing has been read and nothing rendered. *)
Theorem downloadFile_rejects_bad_status disk response dest text evs :
  ok response = false ->
  let st := downloadFile disk (FetchResponse response) dest text evs in
  st_promise (downloadFile_start disk (FetchResponse response) dest) =
    Rejected (Error ("Failed to download file: " +:+ statusText response)) /\
  st_promise st =
    Rejected (Error ("Failed to download file: " +:+ statusText response)) /\
  st_fileStream st = None /\
  st_disk st = disk /\
  st_interval st = TimerUnset /\
  st_reads st = 0 /\
  st_terminal st = [].
Proof.
  intros Hok. simpl. unfold downloadFile, downloadFile_start.
  rewrite Hok. simpl negb. cbv iota.
  change (mkState disk [] 0 0 TimerUnset None 0 ?p) with
    (failed_state disk
       (Error ("Failed to download file: " +:+ statusText response))).
  rewrite failed_state_run. repeat split; reflexivity.
Qed.

Lemma downloadFile_rejects_bad_status_witness :
  ok sample_not_found = false /\
  let st :=
    downloadFile sample_disk (FetchResponse sample_not_found) "Lavalink.jar"
      "Downloading..." sample_schedule in
  st_promise st = Rejected (Error "Failed to download file: Not Found") /\
  st_fileStream st = None /\
  st_disk st = sample_disk.
Proof.
  split; [reflexivity|].
  destruct (downloadFile_rejects_bad_status sample_disk sample_not_found
              "Lavalink.jar" "Downloading..." sample_schedule eq_refl)
    as (_ & Hp & Hf & Hd & _).
  split; [exact Hp|]. split; [exact Hf|exact Hd].
Defined.

(** C4.  In every call and under every schedule the counter
    [downloadedSize] never decreases: each job either leaves it alone or
    is the arrival of a chunk, which adds that chunk's length.  When the
    call resolves, the counter is the sum of the lengths of the chunks, and
    it is the size of the destination file once the stream has closed. *)
Theorem downloadedSize_monotone disk fetched dest text evs :
  let st := downloadFile disk fetched dest text evs in
  (forall evs',
     (st_downloadedSize st <=
      st_downloadedSize (downloadFile disk fetched dest text (evs ++ evs')))%N) /\
  (forall ev,
     let st' := downloadFile disk fetched dest text (evs ++ [ev]) in
     st_downloadedSize st' = st_downloadedSize st \/
     exists value,
       ev = ReaderSettled (ReadValue value) /\
       st_downloadedSize st' =
         (st_downloadedSize st + N.of_nat (length value))%N) /\
  (forall response cs,
     fetched = FetchResponse response ->
     ok response = true ->
     body response = true ->
     settled evs = map ReadValue cs ++ [ReadDone] ->
     st_promise st = Resolved /\
     st_downloadedSize st = N.of_nat (list_sum (map length cs)) /\
     forall evs',
       let st' := downloadFile disk fetched dest text (evs ++ evs') in
       stream_closed st' = true ->
       exists content,
         st_disk st' !! dest = Some content /\
         st_downloadedSize st' = N.of_nat (length content)).
Proof.
  simpl. split; [|split].
  - intros evs'. rewrite downloadFile_app. apply run_downloadedSize_mono.
  - intros ev. rewrite downloadFile_app. apply step_downloadedSize.
  - intros response cs -> Hok Hbody Hs.
    destruct (downloadFile_resolved disk response dest text cs [] evs Hok Hbody
                Hs) as (ticks & _ & Hres).
    split; [apply (ri_promise _ _ _ _ _ Hres)|].
    split; [rewrite (ri_size _ _ _ _ _ Hres), length_concat_sum; reflexivity|].
    intros evs' Hcl.
    destruct (downloadFile_resolved disk response dest text cs (settled evs')
                (evs ++ evs') Hok Hbody) as (ticks' & _ & Hres').
    { rewrite settled_app, Hs, <- app_assoc. reflexivity. }
    exists (concat cs). split; [|apply (ri_size _ _ _ _ _ Hres')].
    destruct Hres' as [_ _ _ _ _ (ws & Hws & _ & Hsi)].
    unfold stream_closed in Hcl. rewrite Hws in Hcl.
    exact (stream_inv_closed _ _ _ _ _ Hsi Hcl).
Qed.

Lemma downloadedSize_monotone_witness :
  let call :=
    downloadFile sample_disk (FetchResponse sample_response) "Lavalink.jar"
      "Downloading..." in
  (st_downloadedSize (call sample_failing_prefix) <=
   st_downloadedSize (call (sample_failing_prefix ++ sample_drain)))%N /\
  st_downloadedSize (call sample_schedule) = 3%N /\
  exists content,
    st_disk (call (sample_schedule ++ sample_drain)) !! "Lavalink.jar"
      = Some content /\
    st_downloadedSize (call (sample_schedule ++ sample_drain))
      = N.of_nat (length content).
Proof.
  simpl. split; [|split].
  - destruct (downloadedSize_monotone sample_disk (FetchResponse sample_response)
                "Lavalink.jar" "Downloading..." sample_failing_prefix)
      as (Hmono & _). apply (Hmono sample_drain).
  - destruct (downloadedSize_monotone sample_disk (FetchResponse sample_response)
                "Lavalink.jar" "Downloading..." sample_schedule)
      as (_ & _ & Hfinal).
    destruct (Hfinal sample_response sample_chunks eq_refl eq_refl eq_refl
                eq_refl) as (_ & Hsize & _). exact Hsize.
  - destruct (downloadedSize_monotone sample_disk (FetchResponse sample_response)
                "Lavalink.jar" "Downloading..." sample_schedule)
      as (_ & _ & Hfinal).
    destruct (Hfinal sample_response sample_chunks eq_refl eq_refl eq_refl
                eq_refl) as (_ & _ & Hfile).
    apply (Hfile sample_drain). reflexivity.
Defined.

(** C5.  When the response has no content-length header, every line the
    call renders, on a tick or at the end, is a spinner glyph or the green
    check mark, the label, and [(<x.yy> MB / unknown MB)], where [x.yy]
    shows a value the counter has had.  Rendering cannot fail: the total
    is the constant "unknown", obtained without any division, and a tick
    of the active timer always yields its line and leaves the call's
    promise as it was. *)
Theorem unknown_total_rendered disk response dest text evs :
  content_length response = None ->
  let total := totaledSizeMB (content_length response) in
  let st := downloadFile disk (FetchResponse response) dest text evs in
  Forall
    (fun line =>
       exists marker d figure,
         (marker ∈ loadingFrames \/
          marker = String "027" "[32m✔" +:+ String "027" "[0m") /\
         (d <= st_downloadedSize st)%N /\
         megabytes_shown d figure /\
         line =
           marker +:+ " " +:+ text +:+ " (" +:+ figure
             +:+ " MB / unknown MB)")
    (st_terminal st) /\
  (st_interval st = TimerActive ->
   exists frame figure,
     frame ∈ loadingFrames /\
     megabytes_shown (st_downloadedSize st) figure /\
     st_terminal (step text total st TimerTick) =
       st_terminal st ++
         [frame +:+ " " +:+ text +:+ " (" +:+ figure
            +:+ " MB / unknown MB)"]) /\
  st_promise (step text total st TimerTick) = st_promise st.
Proof.
  intros Hnone. simpl.
  pose proof (downloadFile_phase disk (FetchResponse response) dest text evs)
    as Hphase.
  simpl in Hphase. rewrite Hnone in *. simpl in Hphase.
  split; [|split].
  - destruct (phase_rendered _ _ _ _ _ Hphase) as [_ Hall].
    eapply Forall_impl; [exact Hall|].
    intros line Hline.
    destruct (rendered_line_shown _ _ _ _ Hline)
      as (marker & d & figure & Hmarker & Hd & Hfigure & ->).
    exists marker, d, figure. done.
  - intros Hact. unfold on_tick. rewrite Hact. simpl.
    eexists _, _. split; [apply frame_at_elem, N.mod_lt; discriminate|].
    split; [apply toFixed2_MB_shown|reflexivity].
  - unfold on_tick. destruct (st_interval _); reflexivity.
Qed.

Lemma unknown_total_rendered_witness :
  content_length sample_response = None /\
  st_terminal
    (downloadFile sample_disk (FetchResponse sample_response) "Lavalink.jar"
       "Downloading..." sample_large_schedule)
  = ["⠋ Downloading... (0.00 MB / unknown MB)";
     "⠙ Downloading... (0.02 MB / unknown MB)";
     String "027" "[32m✔" +:+ String "027" "[0m"
       +:+ " Downloading... (0.02 MB / unknown MB)"] /\
  Forall
    (fun line =>
       exists marker figure,
         line =
           marker +:+ " Downloading... (" +:+ figure +:+ " MB / unknown MB)")
    (st_terminal
       (downloadFile sample_disk (FetchResponse sample_response) "Lavalink.jar"
          "Downloading..." sample_large_schedule)).
Proof.
  split; [reflexivity|]. split; [vm_compute; reflexivity|].
  destruct (unknown_total_rendered sample_disk sample_response "Lavalink.jar"
              "Downloading..." sample_large_schedule eq_refl)
    as (Hlines & _).
  eapply Forall_impl; [exact Hlines|].
  intros line (marker & d & figure & _ & _ & _ & ->). eauto.
Defined.

(** C6, the claim as stated fails: the display can be ahead of the file.
    Here a chunk of 5243 bytes has been counted and handed to
    [fileStream.write], and the next tick shows 0.01 MB, which is 10486
    bytes, while the chunk is still queued: the file does not exist yet
    when no operation of the stream has completed, and is empty when the
    stream has only opened it. *)
Lemma display_ahead_of_file :
  let chunk := replicate (N.to_nat 5243) "000"%byte in
  let call :=
    downloadFile ∅ (FetchResponse sample_response) "Lavalink.jar"
      "Downloading..." in
  st_terminal (call [ReaderSettled (ReadValue chunk); TimerTick])
    = ["⠋ Downloading... (0.01 MB / unknown MB)"] /\
  st_disk (call [ReaderSettled (ReadValue chunk); TimerTick])
    !! "Lavalink.jar" = None /\
  st_terminal (call [StreamIO; ReaderSettled (ReadValue chunk); TimerTick])
    = ["⠋ Downloading... (0.01 MB / unknown MB)"] /\
  st_disk (call [StreamIO; ReaderSettled (ReadValue chunk); TimerTick])
    !! "Lavalink.jar" = Some [] /\
  stream_queue (call [StreamIO; ReaderSettled (ReadValue chunk); TimerTick])
    = [chunk].
Proof. vm_compute. repeat split; reflexivity. Qed.

(** C6, amended.  In every reachable state of every call the counter
    equals the number of bytes already given to [fileStream.write]: a
    chunk is counted and handed over within one job, which no tick can
    interrupt.  So a tick shows exactly that number, in megabytes rounded
    to the nearest hundredth, and every line on the terminal shows a
    value of the counter that is at most the bytes handed over so far.
    The file itself never holds more than them, and can hold fewer. *)
Theorem display_never_ahead_of_writes disk fetched dest text evs :
  let total := totaledSizeMB (response_totalSize fetched) in
  let st := downloadFile disk fetched dest text evs in
  let handed := N.of_nat (length (stream_contents st)) in
  st_downloadedSize st = handed /\
  (forall value,
     st_promise st = Pending ->
     let st' := step text total st (ReaderSettled (ReadValue value)) in
     st_downloadedSize st' = (st_downloadedSize st + N.of_nat (length value))%N /\
     stream_contents st' = stream_contents st ++ value) /\
  (st_interval st = TimerActive ->
   exists figure,
     megabytes_shown handed figure /\
     st_terminal (step text total st TimerTick) =
       st_terminal st ++
         [frame_at (st_i st mod 10) +:+ " " +:+ text +:+ " (" +:+ figure
            +:+ " MB / " +:+ total +:+ " MB)"]) /\
  Forall
    (fun line =>
       exists marker d figure,
         (d <= handed)%N /\
         megabytes_shown d figure /\
         line =
           marker +:+ " " +:+ text +:+ " (" +:+ figure +:+ " MB / " +:+ total
             +:+ " MB)")
    (st_terminal st) /\
  (stream_opened st = true ->
   exists flushed,
     st_disk st !! dest = Some flushed /\
     (N.of_nat (length flushed) <= handed)%N).
Proof.
  simpl.
  pose proof (downloadFile_phase disk fetched dest text evs) as Hphase.
  destruct (phase_rendered _ _ _ _ _ Hphase) as [Hsize Hall].
  split; [exact Hsize|]. split; [|split; [|split]].
  - intros value Hpend. split.
    + unfold on_read. rewrite Hpend. reflexivity.
    + destruct Hphase as [reason Hst|cs Hinv|cs ticks _ Hinv|cs reason n Hinv].
      * rewrite Hst in Hpend. discriminate.
      * pose proof (pending_value _ _ _ _ _ _ value Hinv)
          as [_ _ _ _ _ (ws' & Hws' & _ & Hsi')].
        destruct Hinv as [_ _ _ _ _ (ws & Hws & _ & Hsi)].
        unfold stream_contents at 1 2. simpl step in Hws', Hsi'.
        rewrite Hws', Hws.
        rewrite (stream_inv_contents _ _ _ _ _ Hsi').
        rewrite (stream_inv_contents _ _ _ _ _ Hsi).
        rewrite concat_app. simpl. rewrite app_nil_r. reflexivity.
      * rewrite (ri_promise _ _ _ _ _ Hinv) in Hpend. discriminate.
      * rewrite (ji_promise _ _ _ _ _ _ _ _ Hinv) in Hpend. discriminate.
  - intros Hact. unfold on_tick. rewrite Hact, <- Hsize.
    exists (toFixed2_MB
              (st_downloadedSize (downloadFile disk fetched dest text evs))).
    split; [apply toFixed2_MB_shown|reflexivity].
  - rewrite <- Hsize. eapply Forall_impl; [exact Hall|].
    intros line Hline.
    destruct (rendered_line_shown _ _ _ _ Hline)
      as (marker & d & figure & _ & Hd & Hfigure & ->).
    exists marker, d, figure. done.
  - intros Hopened.
    destruct (phase_disk _ _ _ _ _ Hphase) as (_ & _ & Hprefix).
    destruct (Hprefix Hopened) as (flushed & Hfile & Hpre).
    exists flushed. split; [exact Hfile|].
    apply prefix_length in Hpre. lia.
Qed.

Lemma display_never_ahead_of_writes_witness :
  let st :=
    downloadFile sample_disk (FetchResponse sample_response) "Lavalink.jar"
      "Downloading..."
      [TimerTick;
       ReaderSettled (ReadValue (replicate (N.to_nat 10000) "000"%byte));
       StreamIO] in
  st_interval st = TimerActive /\
  st_downloadedSize st = 10000%N /\
  st_terminal (step "Downloading..." "unknown" st TimerTick) =
    st_terminal st ++ ["⠙ Downloading... (0.01 MB / unknown MB)"].
Proof.
  simpl.
  destruct (display_never_ahead_of_writes sample_disk
              (FetchResponse sample_response) "Lavalink.jar" "Downloading..."
              [TimerTick;
               ReaderSettled
                 (ReadValue (replicate (N.to_nat 10000) "000"%byte));
               StreamIO]) as (Hsize & _ & Htick & _).
  split; [reflexivity|].
  assert (N.of_nat
            (length
               (stream_contents
                  (downloadFile sample_disk (FetchResponse sample_response)
                     "Lavalink.jar" "Downloading..."
                     [TimerTick;
                      ReaderSettled
                        (ReadValue (replicate (N.to_nat 10000) "000"%byte));
                      StreamIO]))) = 10000%N) as Hhanded
    by (vm_compute; reflexivity).
  rewrite Hhanded in Hsize, Htick.
  split; [exact Hsize|].
  destruct (Htick eq_refl) as (figure & (n & Hn & ->) & Hline).
  assert (n = 1%N) as -> by lia.
  exact Hline.
Defined.

(** C7.  When the call resolves the timer has been cleared and the
    terminal holds the lines of the ticks, each starting with a spinner
    glyph, followed by one last line: the green check mark and no glyph,
    the label, the final count in megabytes with two decimals, and the
    total, which is "unknown" without a content-length header and the
    declared length in megabytes with two decimals when the header is the
    numeral of a length.  Nothing is rendered afterwards. *)
Theorem final_line_on_success disk response dest text cs evs :
  ok response = true ->
  body response = true ->
  settled evs = map ReadValue cs ++ [ReadDone] ->
  let total := totaledSizeMB (content_length response) in
  let st := downloadFile disk (FetchResponse response) dest text evs in
  st_interval st = TimerCleared /\
  (exists ticks figure,
     st_terminal st =
       ticks ++
         [(String "027" "[32m✔" +:+ String "027" "[0m") +:+ " " +:+ text
            +:+ " (" +:+ figure +:+ " MB / " +:+ total +:+ " MB)"] /\
     megabytes_shown (N.of_nat (length (concat cs))) figure /\
     Forall (fun line => starts_with_frame line = true) ticks /\
     starts_with_frame
       ((String "027" "[32m✔" +:+ String "027" "[0m") +:+ " " +:+ text
          +:+ " (" +:+ figure +:+ " MB / " +:+ total +:+ " MB)") = false) /\
  (content_length response = None -> total = "unknown") /\
  (forall n,
     (n < 2 ^ 53)%N ->
     content_length response = Some (pretty n) ->
     megabytes_shown n total) /\
  forall evs',
    let st' :=
      downloadFile disk (FetchResponse response) dest text (evs ++ evs') in
    st_terminal st' = st_terminal st /\ st_interval st' = TimerCleared.
Proof.
  intros Hok Hbody Hs. simpl.
  destruct (downloadFile_resolved disk response dest text cs [] evs Hok Hbody
              Hs) as (ticks & Hticks & Hres).
  split; [apply (ri_interval _ _ _ _ _ Hres)|]. split; [|split; [|split]].
  - exists ticks, (toFixed2_MB (N.of_nat (length (concat cs)))).
    split; [apply (ri_terminal _ _ _ _ _ Hres)|].
    split; [apply toFixed2_MB_shown|]. split.
    + eapply Forall_impl; [exact Hticks|].
      intros line. apply tick_line_starts_with_frame.
    + apply (final_line_no_frame text
               (totaledSizeMB (content_length response))
               (toFixed2_MB (N.of_nat (length (concat cs))))).
  - intros ->. reflexivity.
  - intros n Hn ->. rewrite (totaledSizeMB_pretty n Hn).
    apply toFixed2_MB_shown.
  - intros evs'. rewrite downloadFile_app. simpl response_totalSize.
    pose proof (run_resolved text (totaledSizeMB (content_length response))
                  disk dest evs' _ _ _ Hres) as Hres'.
    rewrite (ri_terminal _ _ _ _ _ Hres'), (ri_terminal _ _ _ _ _ Hres).
    split; [reflexivity|apply (ri_interval _ _ _ _ _ Hres')].
Qed.

Lemma final_line_on_success_witness :
  ok sample_sized_response = true /\
  body sample_sized_response = true /\
  settled sample_large_schedule
    = map ReadValue sample_large_chunks ++ [ReadDone] /\
  let st :=
    downloadFile sample_disk (FetchResponse sample_sized_response)
      "Lavalink.jar" "Downloading..." sample_large_schedule in
  st_interval st = TimerCleared /\
  exists ticks,
    st_terminal st =
      ticks ++
        [String "027" "[32m✔" +:+ String "027" "[0m"
           +:+ " Downloading... (0.02 MB / 0.02 MB)"] /\
    Forall (fun line => starts_with_frame line = true) ticks.
Proof.
  split; [reflexivity|]. split; [reflexivity|]. split; [reflexivity|].
  destruct (final_line_on_success sample_disk sample_sized_response
              "Lavalink.jar" "Downloading..." sample_large_chunks
              sample_large_schedule eq_refl eq_refl eq_refl)
    as (Hcleared & (ticks & figure & Hlines & (n & Hn & ->) & Hticks & _) &
        _ & Htotal & _).
  split; [exact Hcleared|]. exists ticks. split; [|exact Hticks].
  destruct (Htotal 15729%N eq_refl eq_refl) as (m & Hm & Hshown).
  change (N.of_nat (length (concat sample_large_chunks))) with 15729%N in Hn.
  assert (n = 2%N) as -> by lia.
  assert (m = 2%N) as -> by lia.
  rewrite Hlines, Hshown. reflexivity.
Defined.

(** C8.  The write stream is created with the default flags ['w'], so
    opening it empties a file that exists at the destination.  For a
    successful transfer to a path that held [old]: until the stream opens
    the disk is untouched; from then on the file holds a prefix of the new
    body and nothing of [old]; once the stream has closed it holds exactly
    the new body; no other path changes. *)
Theorem existing_file_truncated disk response dest text old cs evs :
  disk !! dest = Some old ->
  ok response = true ->
  body response = true ->
  settled evs = map ReadValue cs ++ [ReadDone] ->
  (exists ws,
     st_fileStream (downloadFile_start disk (FetchResponse response) dest)
       = Some ws /\
     ws_path ws = dest /\ ws_flags ws = flag_w /\
     open_file (ws_flags ws) (ws_path ws) disk !! dest = Some []) /\
  forall evs',
    let st' :=
      downloadFile disk (FetchResponse response) dest text (evs ++ evs') in
    (stream_opened st' = false -> st_disk st' = disk) /\
    (stream_opened st' = true ->
     exists flushed,
       st_disk st' !! dest = Some flushed /\ flushed `prefix_of` concat cs) /\
    (stream_closed st' = true -> st_disk st' !! dest = Some (concat cs)) /\
    (forall path, path <> dest -> st_disk st' !! path = disk !! path).
Proof.
  intros _ Hok Hbody Hs. split.
  - exists (createWriteStream dest). unfold downloadFile_start. rewrite Hok, Hbody.
    simpl. repeat split. unfold open_file. apply lookup_insert_eq.
  - intros evs'. simpl.
    destruct (downloadFile_resolved disk response dest text cs (settled evs')
                (evs ++ evs') Hok Hbody) as (ticks & _ & Hres).
    { rewrite settled_app, Hs, <- app_assoc. reflexivity. }
    destruct Hres as [_ _ _ _ _ (ws & Hws & _ & Hsi)].
    unfold stream_opened, stream_closed. rewrite Hws.
    split; [|split; [|split]].
    + intros Hop. apply (si_unopened _ _ _ _ _ Hsi Hop).
    + intros Hop.
      destruct (stream_inv_prefix _ _ _ _ _ Hsi Hop) as (flushed & ? & ? & _).
      eauto.
    + exact (stream_inv_closed _ _ _ _ _ Hsi).
    + exact (si_others _ _ _ _ _ Hsi).
Qed.

Lemma existing_file_truncated_witness :
  sample_disk !! "Lavalink.jar" = Some ["255"; "254"; "253"; "252"]%byte /\
  ok sample_response = true /\
  body sample_response = true /\
  settled sample_schedule = map ReadValue sample_chunks ++ [ReadDone] /\
  st_disk
    (downloadFile sample_disk (FetchResponse sample_response) "Lavalink.jar"
       "Downloading..." (sample_schedule ++ sample_drain)) !! "Lavalink.jar"
    = Some ["001"; "002"; "003"]%byte.
Proof.
  split; [reflexivity|].
  split; [reflexivity|]. split; [reflexivity|]. split; [reflexivity|].
  destruct (existing_file_truncated sample_disk sample_response "Lavalink.jar"
              "Downloading..." ["255"; "254"; "253"; "252"]%byte sample_chunks
              sample_schedule eq_refl eq_refl eq_refl eq_refl) as (_ & H).
  destruct (H sample_drain) as (_ & _ & Hclosed & _).
  apply Hclosed. reflexivity.
Defined.

(** C9.  When a read rejects with [reason] after the chunks [cs], the call
    rejects with that same [reason] in the job that delivers it.  Each
    result was asked for once: the number of [reader.read()] calls is
    [length cs + 1] and stays so, and the promise stays rejected, whatever
    happens next.  No job removes a file: every path present before the
    call, or at the failure, is still present, and if the stream had
    opened the destination holds a prefix of the bytes received.  The
    caller logs the error and exits with code 1 in that same job, after
    which nothing runs. *)
Theorem midstream_error_is_final disk network version response cs reason
    pre post :
  network (jarUrl version) = FetchResponse response ->
  ok response = true ->
  body response = true ->
  settled pre = map ReadValue cs ->
  let failing := pre ++ [ReaderSettled (ReadRejected reason)] in
  let call := downloadFile disk (FetchResponse response) jarFile
                (jarText version) in
  st_promise (call pre) = Pending /\
  st_promise (call failing) = Rejected reason /\
  st_reads (call failing) = S (length cs) /\
  (forall evs',
     st_promise (call (failing ++ evs')) = Rejected reason /\
     st_reads (call (failing ++ evs')) = S (length cs) /\
     forall path,
       is_Some (st_disk (call failing) !! path) ->
       is_Some (st_disk (call (failing ++ evs')) !! path)) /\
  (forall path,
     is_Some (disk !! path) -> is_Some (st_disk (call failing) !! path)) /\
  (stream_opened (call failing) = true ->
   exists flushed,
     st_disk (call failing) !! jarFile = Some flushed /\
     flushed `prefix_of` concat cs) /\
  let p := createLavalink_download disk network version (failing ++ post) in
  p_exitCode p = Some 1%Z /\
  p_stderr p = [("Failed to download Lavalink:", reason)] /\
  p_download p = call failing.
Proof.
  intros Hnet Hok Hbody Hpre. simpl.
  set (total := totaledSizeMB (content_length response)).
  pose proof (downloadFile_pending disk response jarFile (jarText version)
                cs pre Hok Hbody Hpre) as Hpend.
  assert (forall evs',
            rejected_inv (jarText version) total disk jarFile cs reason
              (S (length cs))
              (downloadFile disk (FetchResponse response) jarFile
                 (jarText version)
                 ((pre ++ [ReaderSettled (ReadRejected reason)]) ++ evs')))
    as Hall.
  { intros evs'.
    apply (downloadFile_rejected disk response jarFile (jarText version) cs
             reason (settled evs')); [exact Hok|exact Hbody|].
    rewrite !settled_app, Hpre, <- app_assoc. reflexivity. }
  pose proof (Hall []) as Hrej. rewrite app_nil_r in Hrej.
  split; [apply (pi_promise _ _ _ _ _ _ Hpend)|].
  split; [apply (ji_promise _ _ _ _ _ _ _ _ Hrej)|].
  split; [apply (ji_reads _ _ _ _ _ _ _ _ Hrej)|].
  split; [|split; [|split]].
  - intros evs'. pose proof (Hall evs') as Hrej'.
    split; [apply (ji_promise _ _ _ _ _ _ _ _ Hrej')|].
    split; [apply (ji_reads _ _ _ _ _ _ _ _ Hrej')|].
    intros path. rewrite (downloadFile_app _ _ _ _ _ evs').
    apply run_keeps_files.
  - intros path Hsome. unfold downloadFile. apply run_keeps_files.
    unfold downloadFile_start. rewrite Hok, Hbody. exact Hsome.
  - intros Hop. destruct Hrej as [_ _ _ _ _ (ws & Hws & _ & Hsi)].
    unfold stream_opened in Hop. rewrite Hws in Hop.
    destruct (stream_inv_prefix _ _ _ _ _ Hsi Hop) as (flushed & ? & ? & _).
    eauto.
  - rewrite <- app_assoc. simpl app.
    rewrite (createLavalink_download_rejected disk network version response
               cs reason pre post Hnet Hok Hbody Hpre).
    repeat split; reflexivity.
Qed.

Lemma midstream_error_is_final_witness :
  sample_network (jarUrl "4.0.8") = FetchResponse sample_response /\
  ok sample_response = true /\
  body sample_response = true /\
  settled sample_failing_prefix = map ReadValue [["001"; "002"]%byte] /\
  let failing :=
    sample_failing_prefix ++ [ReaderSettled (ReadRejected sample_reason)] in
  st_promise
    (downloadFile ∅ (FetchResponse sample_response) jarFile (jarText "4.0.8")
       failing) = Rejected sample_reason /\
  let p :=
    createLavalink_download ∅ sample_network "4.0.8"
      (failing ++ [TimerTick; StreamIO]) in
  p_exitCode p = Some 1%Z /\
  p_stderr p = [("Failed to download Lavalink:", sample_reason)].
Proof.
  split; [reflexivity|].
  split; [reflexivity|]. split; [reflexivity|]. split; [reflexivity|].
  destruct (midstream_error_is_final ∅ sample_network "4.0.8" sample_response
              [["001"; "002"]%byte] sample_reason sample_failing_prefix
              [TimerTick; StreamIO] eq_refl eq_refl eq_refl eq_refl)
    as (_ & Hrej & _ & _ & _ & _ & Hexit & Hlog & _).
  split; [exact Hrej|]. split; [exact Hexit|exact Hlog].
Defined.

(** C10.  When a read rejects mid-stream the call rejects and
    [clearInterval] is never reached: the timer is still active then and
    stays active under every continuation, and each later tick renders one
    more progress line.  In every call and under every schedule the timer
    has been cleared exactly when the call has resolved. *)
Theorem timer_survives_midstream_error disk response dest text cs reason evs :
  ok response = true ->
  body response = true ->
  settled evs = map ReadValue cs ++ [ReadRejected reason] ->
  let total := totaledSizeMB (content_length response) in
  let call := downloadFile disk (FetchResponse response) dest text in
  st_promise (call evs) = Rejected reason /\
  st_interval (call evs) = TimerActive /\
  (forall evs',
     let st' := call (evs ++ evs') in
     st_promise st' = Rejected reason /\
     st_interval st' = TimerActive /\
     st_terminal (call (evs ++ evs' ++ [TimerTick])) =
       st_terminal st' ++
         [progressLine (frame_at (st_i st' mod 10)) text
            (toFixed2_MB (st_downloadedSize st')) total]) /\
  forall fetched evs0,
    let st0 := downloadFile disk fetched dest text evs0 in
    st_interval st0 = TimerCleared <-> st_promise st0 = Resolved.
Proof.
  intros Hok Hbody Hs. simpl.
  assert (forall evs',
            rejected_inv text (totaledSizeMB (content_length response)) disk
              dest cs reason (S (length cs))
              (downloadFile disk (FetchResponse response) dest text
                 (evs ++ evs'))) as Hall.
  { intros evs'.
    apply (downloadFile_rejected disk response dest text cs reason
             (settled evs')); [exact Hok|exact Hbody|].
    rewrite !settled_app, Hs, <- app_assoc. reflexivity. }
  pose proof (Hall []) as Hrej. rewrite app_nil_r in Hrej.
  split; [apply (ji_promise _ _ _ _ _ _ _ _ Hrej)|].
  split; [apply (ji_interval _ _ _ _ _ _ _ _ Hrej)|]. split.
  - intros evs'. pose proof (Hall evs') as Hrej'.
    split; [apply (ji_promise _ _ _ _ _ _ _ _ Hrej')|].
    split; [apply (ji_interval _ _ _ _ _ _ _ _ Hrej')|].
    rewrite app_assoc, (downloadFile_app _ _ _ _ (evs ++ evs')).
    simpl. unfold on_tick. rewrite (ji_interval _ _ _ _ _ _ _ _ Hrej').
    reflexivity.
  - intros fetched evs0.
    destruct (downloadFile_phase disk fetched dest text evs0)
      as [r0 Hst|cs0 Hinv|cs0 ticks _ Hinv|cs0 r0 n0 Hinv].
    + rewrite Hst. simpl. split; discriminate.
    + rewrite (pi_interval _ _ _ _ _ _ Hinv), (pi_promise _ _ _ _ _ _ Hinv).
      split; discriminate.
    + rewrite (ri_interval _ _ _ _ _ Hinv), (ri_promise _ _ _ _ _ Hinv).
      split; reflexivity.
    + rewrite (ji_interval _ _ _ _ _ _ _ _ Hinv), (ji_promise _ _ _ _ _ _ _ _ Hinv).
      split; discriminate.
Qed.

Lemma timer_survives_midstream_error_witness :
  ok sample_response = true /\
  body sample_response = true /\
  settled (sample_failing_prefix ++ [ReaderSettled (ReadRejected sample_reason)])
    = map ReadValue [["001"; "002"]%byte] ++ [ReadRejected sample_reason] /\
  let call :=
    downloadFile ∅ (FetchResponse sample_response) "Lavalink.jar"
      "Downloading..." in
  let evs :=
    sample_failing_prefix ++ [ReaderSettled (ReadRejected sample_reason)] in
  st_promise (call evs) = Rejected sample_reason /\
  st_interval (call evs) = TimerActive /\
  st_terminal (call (evs ++ [StreamIO] ++ [TimerTick])) =
    st_terminal (call (evs ++ [StreamIO])) ++
      [progressLine "⠙" "Downloading..." "0.00" "unknown"].
Proof.
  split; [reflexivity|]. split; [reflexivity|]. split; [reflexivity|].
  destruct (timer_survives_midstream_error ∅ sample_response "Lavalink.jar"
              "Downloading..." [["001"; "002"]%byte] sample_reason
              (sample_failing_prefix ++
                 [ReaderSettled (ReadRejected sample_reason)])
              eq_refl eq_refl eq_refl) as (Hrej & Hact & Hlater & _).
  split; [exact Hrej|]. split; [exact Hact|].
  destruct (Hlater [StreamIO]) as (_ & _ & Hline). exact Hline.
Defined.

(** * Further properties of the downloader *)

(** ** Calls that fail before the first read *)

Lemma caller_exits_at_start disk network version evs reason :
  st_promise (downloadFile_start disk (network (jarUrl version)) jarFile)
    = Rejected reason ->
  createLavalink_download disk network version evs =
  mkProcess (downloadFile_start disk (network (jarUrl version)) jarFile)
    [("Failed to download Lavalink:", reason)] (Some 1%Z).
Proof.
  intros Hrej. unfold createLavalink_download.
  unfold catch_download. simpl p_download. rewrite Hrej. simpl p_stderr.
  eapply process_exited. reflexivity.
Qed.

(** X1.  When [fetch] rejects, or answers with a status that is not ok,
    the caller logs the error and exits with code 1 before any job of the
    event loop: whatever the schedule, the disk is as it was, nothing has
    been rendered, no timer runs and no stream exists. *)
Theorem download_refused_exits_at_once disk network version evs reason :
  network (jarUrl version) = FetchRejected reason \/
  (exists response,
     network (jarUrl version) = FetchResponse response /\
     ok response = false /\
     reason = Error ("Failed to download file: " +:+ statusText response)) ->
  createLavalink_download disk network version evs =
  mkProcess (failed_state disk reason)
    [("Failed to download Lavalink:", reason)] (Some 1%Z).
Proof.
  intros H.
  assert (downloadFile_start disk (network (jarUrl version)) jarFile
          = failed_state disk reason) as Hstart.
  { destruct H as [->|(response & -> & Hok & ->)]; [reflexivity|].
    unfold downloadFile_start. rewrite Hok. reflexivity. }
  rewrite (caller_exits_at_start disk network version evs reason);
    rewrite Hstart; reflexivity.
Qed.

Lemma download_refused_exits_at_once_witness :
  createLavalink_download sample_disk (fun _ => FetchResponse sample_not_found)
    "4.0.8" sample_schedule =
  mkProcess
    (failed_state sample_disk (Error "Failed to download file: Not Found"))
    [("Failed to download Lavalink:",
      Error "Failed to download file: Not Found")] (Some 1%Z).
Proof.
  apply (download_refused_exits_at_once sample_disk
           (fun _ => FetchResponse sample_not_found) "4.0.8" sample_schedule).
  right. exists sample_not_found. repeat split; reflexivity.
Defined.

Lemma opened_step text total st ev :
  stream_opened st = true -> stream_opened (step text total st ev) = true.
Proof.
  unfold stream_opened. destruct ev as [| |r]; simpl.
  - unfold on_tick. destruct (st_interval st); done.
  - unfold on_stream_io. destruct (st_fileStream st) as [ws|]; [|done].
    intros Hop. unfold ws_io. rewrite Hop.
    destruct (ws_closed ws); simpl; [done|].
    destruct (ws_buffer ws); [|done]. destruct (ws_ending ws); done.
  - unfold on_read. destruct (st_promise st); [|done..].
    destruct (st_fileStream st) as [ws|] eqn:Hws; [|done].
    intros Hop. destruct r; simpl; rewrite ?Hws; simpl; try done.
    unfold ws_write. destruct (ws_ending ws); done.
Qed.

Lemma opened_run text total evs : forall st,
  stream_opened st = true -> stream_opened (run text total st evs) = true.
Proof.
  induction evs as [|ev evs IH]; intros st H; [exact H|].
  rewrite run_cons. apply IH, opened_step, H.
Qed.

Lemma rejected_opens text total disk0 dest cs reason reads evs : forall st,
  rejected_inv text total disk0 dest cs reason reads st ->
  1 <= count_io evs ->
  stream_opened (run text total st evs) = true.
Proof.
  induction evs as [|ev evs IH]; intros st Hinv Hn; [simpl in Hn; lia|].
  rewrite run_cons. destruct ev as [| |r].
  - apply (IH _ (rejected_step _ _ _ _ _ _ _ _ TimerTick Hinv)). exact Hn.
  - apply opened_run.
    destruct Hinv as [_ _ _ _ _ (ws & Hws & _ & Hsi)].
    unfold stream_opened. simpl. unfold on_stream_io. rewrite Hws.
    unfold ws_io. destruct (ws_closed ws) eqn:Ecl.
    + simpl. apply (si_closed _ _ _ _ _ Hsi Ecl).
    + destruct (ws_opened ws) eqn:Eop; simpl; [|done].
      destruct (ws_buffer ws); [|done]. destruct (ws_ending ws); simpl; done.
  - apply (IH _ (rejected_step _ _ _ _ _ _ _ _ (ReaderSettled r) Hinv)).
    exact Hn.
Qed.

(** X2.  A successful response without a body ([response.body] is [null])
    makes line 47 throw after the timer and the write stream have been set
    up.  The call is rejected with that [TypeError] under every schedule,
    nothing is ever counted or read, and the timer stays active; and as
    soon as the stream completes its first operation the destination is an
    empty file, whatever it held before. *)
Theorem null_body_empties_destination disk response dest text evs :
  ok response = true ->
  body response = false ->
  let st := downloadFile disk (FetchResponse response) dest text evs in
  st_promise st = Rejected null_body_error /\
  st_interval st = TimerActive /\
  st_downloadedSize st = 0%N /\
  st_reads st = 0 /\
  (count_io evs = 0 -> st_disk st = disk) /\
  (1 <= count_io evs -> st_disk st !! dest = Some []).
Proof.
  intros Hok Hbody. simpl.
  pose proof (rejected_start text (totaledSizeMB (content_length response))
                disk dest response Hok Hbody) as Hstart.
  pose proof (run_rejected _ _ _ _ evs _ _ _ _ Hstart) as Hinv.
  fold (downloadFile disk (FetchResponse response) dest text evs) in Hinv.
  split; [apply (ji_promise _ _ _ _ _ _ _ _ Hinv)|].
  split; [apply (ji_interval _ _ _ _ _ _ _ _ Hinv)|].
  split; [apply (ji_size _ _ _ _ _ _ _ _ Hinv)|].
  split; [apply (ji_reads _ _ _ _ _ _ _ _ Hinv)|].
  assert (forall evs0 st0,
            rejected_inv text (totaledSizeMB (content_length response)) disk
              dest [] null_body_error 0 st0 ->
            count_io evs0 = 0 ->
            stream_opened st0 = false ->
            stream_opened
              (run text (totaledSizeMB (content_length response)) st0 evs0)
              = false) as Hunopened.
  { induction evs0 as [|ev evs0 IH]; intros st0 Hinv0 Hn Hop; [exact Hop|].
    rewrite run_cons. destruct ev as [| |r]; simpl in Hn; [|lia|].
    - apply IH; [apply rejected_step, Hinv0|exact Hn|].
      simpl. unfold on_tick, stream_opened in *.
      destruct (st_interval st0); exact Hop.
    - apply IH; [apply rejected_step, Hinv0|exact Hn|].
      simpl. unfold on_read, stream_opened in *.
      rewrite (ji_promise _ _ _ _ _ _ _ _ Hinv0). exact Hop. }
  split.
  - intros Hn.
    pose proof (Hunopened evs _ Hstart Hn) as Hop.
    destruct Hinv as [_ _ _ _ _ (ws & Hws & _ & Hsi)].
    unfold stream_opened in Hop.
    unfold downloadFile in Hws. simpl response_totalSize in Hws.
    rewrite Hws in Hop.
    apply (si_unopened _ _ _ _ _ Hsi). apply Hop.
    unfold downloadFile_start. rewrite Hok, Hbody. reflexivity.
  - intros Hn.
    pose proof (rejected_opens _ _ _ _ _ _ _ evs _ Hstart Hn) as Hop.
    destruct Hinv as [_ _ _ _ _ (ws & Hws & _ & Hsi)].
    unfold stream_opened in Hop.
    unfold downloadFile in Hws. simpl response_totalSize in Hws.
    rewrite Hws in Hop.
    destruct (stream_inv_prefix _ _ _ _ _ Hsi Hop) as (flushed & Hd & Hpre & _).
    simpl in Hpre. apply prefix_nil_inv in Hpre. subst flushed. exact Hd.
Qed.

Lemma null_body_empties_destination_witness :
  ok (mkResponse true "No Content" None false) = true /\
  body (mkResponse true "No Content" None false) = false /\
  st_disk
    (downloadFile sample_disk
       (FetchResponse (mkResponse true "No Content" None false))
       "Lavalink.jar" "Downloading..." [TimerTick; StreamIO])
    !! "Lavalink.jar" = Some [].
Proof.
  split; [reflexivity|]. split; [reflexivity|].
  destruct (null_body_empties_destination sample_disk
              (mkResponse true "No Content" None false) "Lavalink.jar"
              "Downloading..." [TimerTick; StreamIO] eq_refl eq_refl)
    as (_ & _ & _ & _ & _ & H).
  apply H. simpl. lia.
Defined.

(** ** What a call does to the disk *)

(** X3.  Whatever the network answers and whatever the schedule, a call
    changes no file but its destination; it leaves the whole disk alone
    until its stream has opened; and from then on the destination holds a
    prefix of the bytes received so far, in order. *)
Theorem downloadFile_confined_to_destination disk fetched dest text evs :
  let st := downloadFile disk fetched dest text evs in
  (forall path, path <> dest -> st_disk st !! path = disk !! path) /\
  (stream_opened st = false -> st_disk st = disk) /\
  (stream_opened st = true ->
   exists flushed,
     st_disk st !! dest = Some flushed /\
     flushed `prefix_of` stream_contents st /\
     N.of_nat (length (stream_contents st)) = st_downloadedSize st).
Proof.
  simpl. pose proof (downloadFile_phase disk fetched dest text evs) as Hphase.
  destruct (phase_disk _ _ _ _ _ Hphase) as (Hothers & Hclosed & Hopen).
  destruct (phase_rendered _ _ _ _ _ Hphase) as (Hsize & _).
  split; [exact Hothers|]. split; [exact Hclosed|].
  intros Hop. destruct (Hopen Hop) as (flushed & ? & ?). eauto.
Qed.

Lemma downloadFile_confined_to_destination_witness :
  let st :=
    downloadFile sample_disk (FetchResponse sample_response) "Lavalink.jar"
      "Downloading..." sample_failing_prefix in
  stream_opened st = true /\
  exists flushed,
    st_disk st !! "Lavalink.jar" = Some flushed /\
    flushed `prefix_of` stream_contents st.
Proof.
  simpl. split; [reflexivity|].
  destruct (downloadFile_confined_to_destination sample_disk
              (FetchResponse sample_response) "Lavalink.jar" "Downloading..."
              sample_failing_prefix) as (_ & _ & H).
  destruct (H eq_refl) as (flushed & Hd & Hp & _). eauto.
Defined.

(** ** The spinner *)

Lemma prefix_append (s t : string) : String.prefix s (s +:+ t) = true.
Proof.
  induction s as [|c s IH]; simpl.
  - destruct t; reflexivity.
  - rewrite IH. destruct (ascii_dec c c); [reflexivity|congruence].
Qed.

Lemma tick_frames_nil : tick_frames [].
Proof. intros j line H. rewrite lookup_nil in H. discriminate. Qed.

Lemma tick_frames_snoc lines rest :
  tick_frames lines ->
  tick_frames
    (lines ++ [frame_at (N.of_nat (length lines) mod 10) +:+ rest]).
Proof.
  intros H j line Hj.
  apply lookup_app_Some in Hj. destruct Hj as [Hin|[Hlen Hlast]].
  - apply (H j line Hin).
  - destruct (j - length lines) as [|n] eqn:E; [|destruct n; discriminate].
    simpl in Hlast. injection Hlast as <-.
    replace j with (length lines) by lia. apply prefix_append.
Qed.

Lemma spinner_inv_start disk fetched dest :
  spinner_inv (downloadFile_start disk fetched dest).
Proof.
  unfold downloadFile_start, spinner_inv.
  destruct fetched as [reason|response]; simpl; [done|].
  destruct (ok response); simpl; [|done].
  destruct (body response); simpl; split; auto using tick_frames_nil.
Qed.

Lemma on_stream_io_i st : st_i (on_stream_io st) = st_i st.
Proof.
  unfold on_stream_io. destruct (st_fileStream st) as [ws|]; [|done].
  destruct (ws_io ws (st_disk st)). done.
Qed.

Lemma spinner_inv_step text total st ev :
  spinner_inv st -> spinner_inv (step text total st ev).
Proof.
  unfold spinner_inv. intros Hinv. destruct ev as [| |r]; simpl.
  - unfold on_tick.
    destruct (st_interval st) eqn:Ei; simpl; rewrite ?Ei; try exact Hinv.
    destruct Hinv as [Hframes Hi]. split.
    + rewrite Hi. unfold progressLine. apply tick_frames_snoc, Hframes.
    + rewrite Hi, length_app. simpl. lia.
  - destruct (on_stream_io_fields st) as (Fp & Fi & _ & _ & Ft).
    rewrite Fp, Fi, Ft, on_stream_io_i. exact Hinv.
  - unfold on_read.
    destruct (st_promise st) eqn:Ep; simpl; rewrite ?Ep; try exact Hinv.
    destruct r as [value| |reason]; simpl.
    + exact Hinv.
    + destruct (st_interval st) eqn:Ei.
      * destruct Hinv as [_ Hn]. congruence.
      * destruct Hinv as [Hframes _]. split; [discriminate|].
        exists (st_terminal st), (progressLine successMarker text
                                    (toFixed2_MB (st_downloadedSize st)) total).
        split; [reflexivity|]. split; [exact Hframes|reflexivity].
      * destruct Hinv as [Hn _]. congruence.
    + destruct (st_interval st) eqn:Ei.
      * destruct Hinv as [Ht _]. split; [exact Ht|discriminate].
      * exact Hinv.
      * destruct Hinv as [Hn _]. congruence.
Qed.

Lemma spinner_inv_run text total evs : forall st,
  spinner_inv st -> spinner_inv (run text total st evs).
Proof.
  induction evs as [|ev evs IH]; intros st H; [exact H|].
  rewrite run_cons. apply IH, spinner_inv_step, H.
Qed.

(** X4.  In every call and under every schedule the lines on the terminal
    show the spinner glyphs in the order of [loadingFrames], cyclically:
    line number [j] starts with glyph number [j mod 10], unless it is the
    last line of a call whose timer has been cleared, which starts with no
    glyph.  While the timer is active its counter [i] is the number of
    lines rendered. *)
Theorem spinner_cycles_through_frames disk fetched dest text evs :
  let st := downloadFile disk fetched dest text evs in
  (forall j line,
     st_terminal st !! j = Some line ->
     String.prefix (frame_at (N.of_nat j mod 10)) line = true \/
     (st_interval st = TimerCleared /\ S j = length (st_terminal st) /\
      starts_with_frame line = false)) /\
  (st_interval st = TimerActive ->
   st_i st = N.of_nat (length (st_terminal st))).
Proof.
  simpl.
  pose proof (spinner_inv_run text
                (totaledSizeMB (response_totalSize fetched)) evs _
                (spinner_inv_start disk fetched dest)) as Hinv.
  fold (downloadFile disk fetched dest text evs) in Hinv.
  unfold spinner_inv in Hinv.
  destruct (st_interval (downloadFile disk fetched dest text evs)) eqn:Ei.
  - destruct Hinv as [Ht _]. rewrite Ht. split; [|discriminate].
    intros j line H. rewrite lookup_nil in H. discriminate.
  - destruct Hinv as [Hframes Hi]. split; [|intros _; exact Hi].
    intros j line H. left. apply (Hframes j line H).
  - destruct Hinv as [_ (ticks & final & Ht & Hframes & Hfinal)].
    split; [|discriminate]. rewrite Ht. intros j line H.
    apply lookup_app_Some in H. destruct H as [Hin|[Hlen Hlast]].
    + left. apply (Hframes j line Hin).
    + right. split; [reflexivity|].
      destruct (j - length ticks) as [|n] eqn:E; [|destruct n; discriminate].
      simpl in Hlast. injection Hlast as <-.
      split; [rewrite length_app; simpl; lia|exact Hfinal].
Qed.

Lemma spinner_cycles_through_frames_witness :
  String.prefix (frame_at 1) "⠙ Downloading... (0.00 MB / unknown MB)" = true.
Proof.
  destruct (spinner_cycles_through_frames sample_disk
              (FetchResponse sample_response) "Lavalink.jar" "Downloading..."
              sample_schedule) as (H & _).
  destruct (H 1 "⠙ Downloading... (0.00 MB / unknown MB)" eq_refl)
    as [Hp|(_ & Hlen & _)]; [exact Hp|discriminate Hlen].
Defined.

(** ** The declared size *)

(** X5.  A content-length header that is the decimal numeral of [n]
    (below 2^53, where a JavaScript number is exact) is rendered as the
    same text as a counter of [n] bytes.  So when the body has the
    declared length, the last line of a successful transfer shows the same
    figure on both sides of the slash. *)
Theorem declared_size_matches_counter disk response dest text n cs evs :
  (n < 2 ^ 53)%N ->
  content_length response = Some (pretty n) ->
  ok response = true ->
  body response = true ->
  N.of_nat (length (concat cs)) = n ->
  settled evs = map ReadValue cs ++ [ReadDone] ->
  totaledSizeMB (Some (pretty n)) = toFixed2_MB n /\
  last
    (st_terminal (downloadFile disk (FetchResponse response) dest text evs))
    = Some (progressLine successMarker text (toFixed2_MB n) (toFixed2_MB n)).
Proof.
  intros Hn Hcl Hok Hbody Hlen Hs.
  pose proof (totaledSizeMB_pretty n Hn) as Htotal.
  split; [exact Htotal|].
  destruct (downloadFile_resolved disk response dest text cs [] evs Hok Hbody
              Hs) as (ticks & _ & Hres).
  rewrite (ri_terminal _ _ _ _ _ Hres), last_snoc.
  unfold final_line. rewrite Hcl, Htotal, Hlen. reflexivity.
Qed.

Lemma declared_size_matches_counter_witness :
  last
    (st_terminal
       (downloadFile sample_disk
          (FetchResponse (mkResponse true "OK" (Some "3") true))
          "Lavalink.jar" "Downloading..." sample_schedule))
    = Some (progressLine successMarker "Downloading..." "0.00" "0.00").
Proof.
  destruct (declared_size_matches_counter sample_disk
              (mkResponse true "OK" (Some "3") true) "Lavalink.jar"
              "Downloading..." 3%N sample_chunks sample_schedule
              eq_refl eq_refl eq_refl eq_refl eq_refl eq_refl) as (_ & H).
  exact H.
Defined.

(** ** The caller's record *)

Lemma caller_inv_catch st :
  caller_inv (catch_download (mkProcess st [] None)).
Proof.
  unfold caller_inv, catch_download. simpl.
  destruct (st_promise st) as [| |reason] eqn:Ep; simpl.
  - left. rewrite Ep. repeat split; discriminate.
  - left. rewrite Ep. repeat split; discriminate.
  - right. exists reason. rewrite Ep. repeat split; reflexivity.
Qed.

Lemma caller_inv_step text total p ev :
  caller_inv p -> caller_inv (process_step text total p ev).
Proof.
  intros Hinv. unfold process_step.
  destruct (p_exitCode p) as [code|] eqn:Ecode; [exact Hinv|].
  destruct Hinv as [(_ & Hlog & _)|(reason & Hexit & _)]; [|congruence].
  rewrite Hlog. apply caller_inv_catch.
Qed.

Lemma caller_inv_run disk network version evs :
  caller_inv (createLavalink_download disk network version evs).
Proof.
  unfold createLavalink_download.
  generalize (catch_download
                (mkProcess
                   (downloadFile_start disk (network (jarUrl version)) jarFile)
                   [] None)),
             (caller_inv_catch
                (downloadFile_start disk (network (jarUrl version)) jarFile)).
  induction evs as [|ev evs IH]; intros p Hinv; [exact Hinv|].
  simpl. apply IH, caller_inv_step, Hinv.
Qed.

(** As long as the caller has not exited, its download has run every
    event of the schedule. *)
Lemma process_not_exited text total evs : forall p,
  p_exitCode (fold_left (process_step text total) evs p) = None ->
  p_exitCode p = None /\
  p_stderr (fold_left (process_step text total) evs p) = p_stderr p /\
  p_download (fold_left (process_step text total) evs p)
    = run text total (p_download p) evs.
Proof.
  induction evs as [|ev evs IH]; intros p Hnone; [done|].
  simpl in Hnone. destruct (IH _ Hnone) as (Hstep & Hlog & Hrun).
  destruct (p_exitCode p) as [code|] eqn:Ecode.
  - unfold process_step in Hstep. rewrite Ecode in Hstep. congruence.
  - split; [reflexivity|]. simpl fold_left. rewrite Hlog, Hrun, run_cons.
    unfold process_step in *. rewrite Ecode in *.
    unfold catch_download in *. simpl p_download in *. simpl p_stderr in *.
    destruct (st_promise (step text total (p_download p) ev)); simpl in *;
      try done.
Qed.

Lemma caller_download_complete disk network version evs :
  p_exitCode (createLavalink_download disk network version evs) = None ->
  p_download (createLavalink_download disk network version evs) =
  downloadFile disk (network (jarUrl version)) jarFile (jarText version) evs.
Proof.
  intros Hexit. unfold createLavalink_download in *.
  destruct (process_not_exited _ _ _ _ Hexit) as (_ & _ & Hrun).
  rewrite Hrun. unfold catch_download. simpl p_download.
  destruct (st_promise
              (downloadFile_start disk (network (jarUrl version)) jarFile));
    reflexivity.
Qed.

(** X7.  Under every schedule and whatever the network answers, the call
    site of lines 121-126 is in one of two states.  Either it has not
    exited: then it has logged nothing and its download, which has run
    every event of the schedule, is not rejected.  Or it has called
    [process.exit(1)], after logging exactly once the reason with which
    the download is rejected.  It never exits with another code. *)
Theorem caller_exits_iff_download_rejected disk network version evs :
  let p := createLavalink_download disk network version evs in
  (p_exitCode p = None /\ p_stderr p = [] /\
   p_download p =
     downloadFile disk (network (jarUrl version)) jarFile (jarText version)
       evs /\
   forall reason, st_promise (p_download p) <> Rejected reason) \/
  (exists reason,
     p_exitCode p = Some 1%Z /\
     p_stderr p = [("Failed to download Lavalink:", reason)] /\
     st_promise (p_download p) = Rejected reason).
Proof.
  simpl.
  destruct (caller_inv_run disk network version evs)
    as [(Hexit & Hlog & Hnot)|Hexited]; [left|right; exact Hexited].
  split; [exact Hexit|]. split; [exact Hlog|]. split; [|exact Hnot].
  apply caller_download_complete, Hexit.
Qed.

(** ** The stream does not hold the reader back *)

Lemma observable_stream_io st : observable (on_stream_io st) = observable st.
Proof.
  unfold on_stream_io. destruct (st_fileStream st) as [ws|]; [|reflexivity].
  destruct (ws_io ws (st_disk st)). reflexivity.
Qed.

Lemma observable_step text total st st' ev :
  observable st = observable st' ->
  observable (step text total st ev) = observable (step text total st' ev).
Proof.
  intros Hsame. destruct ev as [| |r]; simpl.
  - unfold observable in *.
    injection Hsame as Hterm Hsize Hi Hinterval Hreads Hpromise.
    unfold on_tick. rewrite Hinterval.
    destruct (st_interval st') eqn:Htimer;
      cbn [st_terminal st_downloadedSize st_i st_interval st_reads
           st_promise];
      rewrite ?Hterm, ?Hsize, ?Hi, ?Hinterval, ?Hreads, ?Hpromise, ?Htimer;
      reflexivity.
  - rewrite !observable_stream_io. exact Hsame.
  - unfold observable in *.
    injection Hsame as Hterm Hsize Hi Hinterval Hreads Hpromise.
    unfold on_read. rewrite Hpromise.
    destruct (st_promise st') eqn:Hsettled; [destruct r|..];
      cbn [st_terminal st_downloadedSize st_i st_interval st_reads
           st_promise];
      rewrite ?Hterm, ?Hsize, ?Hi, ?Hinterval, ?Hreads, ?Hpromise,
        ?Hsettled;
      reflexivity.
Qed.

Lemma observable_run text total evs : forall st st',
  observable st = observable st' ->
  observable (run text total st evs) =
  observable (run text total st' (without_io evs)).
Proof.
  induction evs as [|ev evs IH]; intros st st' Hsame; [exact Hsame|].
  rewrite run_cons. unfold without_io. rewrite filter_cons.
  fold (without_io evs). destruct ev as [| |r]; simpl is_stream_io.
  - rewrite decide_True by reflexivity. rewrite run_cons.
    apply IH, observable_step, Hsame.
  - rewrite decide_False by discriminate. apply IH. simpl.
    rewrite observable_stream_io. exact Hsame.
  - rewrite decide_True by reflexivity. rewrite run_cons.
    apply IH, observable_step, Hsame.
Qed.

(** X6.  The write stream never holds the call back: what
    [fileStream.write] returns is ignored and nothing waits for the
    stream, so the lines rendered, the counter, the timer, the number of
    reads and the moment and manner in which the call settles are the same
    whether the operations of the stream complete early, late or not at
    all. *)
Theorem stream_never_holds_the_call_back disk fetched dest text evs :
  observable (downloadFile disk fetched dest text evs) =
  observable (downloadFile disk fetched dest text (without_io evs)).
Proof. unfold downloadFile. apply observable_run. reflexivity. Qed.

(** * Properties of the wizard *)

(** ** How the wizard stops *)

Lemma stops_weaken {A : Type} (m : wizard A) (E E' : ending -> world -> Prop) :
  (forall e w, E e w -> E' e w) -> stops m E -> stops m E'.
Proof.
  intros Himp H w. specialize (H w). destruct (m w) as [[a|e] w']; auto.
Qed.

Lemma stops_bind {A B : Type} (m : wizard A) (k : A -> wizard B) E :
  stops m E -> (forall a, stops (k a) E) -> stops (bind m k) E.
Proof.
  intros Hm Hk w. unfold bind. specialize (Hm w).
  destruct (m w) as [[a|e] w']; [apply Hk|exact Hm].
Qed.

Lemma stops_ret {A : Type} (a : A) E : stops (ret a) E.
Proof. intros w. exact I. Qed.

Lemma stops_act a E : stops (act a) E.
Proof. intros w. exact I. Qed.

Lemma stops_background n E : stops (background n) E.
Proof.
  intros w. unfold background. destruct (w_stream w) as [ws|]; [|exact I].
  destruct (ws_io_n n ws (w_disk w)). exact I.
Qed.

Lemma stops_try {A : Type} (r : result A) : stops (try_ r) thrown.
Proof. intros w. destruct r; simpl; [exact I|]. eexists. reflexivity. Qed.

Lemma stops_await {A : Type} env label (r : result A) :
  stops (await env label r) thrown.
Proof.
  unfold await. apply stops_bind; [apply stops_background|]. intros _.
  apply (stops_try r).
Qed.

Lemma stops_confirm env message : stops (confirm env message) thrown.
Proof.
  unfold confirm. apply stops_bind; [apply stops_act|]. intros _.
  apply stops_await.
Qed.

Lemma stops_input env message default :
  stops (input env message default) thrown.
Proof.
  unfold input. apply stops_bind; [apply stops_act|]. intros _.
  apply stops_await.
Qed.

Lemma stops_chdir env dir : stops (chdir env dir) thrown.
Proof.
  intros w. unfold chdir. destruct (env_chdir env dir); simpl; [|exact I].
  eexists. reflexivity.
Qed.

Lemma stops_writeFileSync env path content :
  stops (writeFileSync env path content) thrown.
Proof.
  intros w. unfold writeFileSync.
  destruct (env_writeFileSync env path); simpl; [|exact I].
  eexists. reflexivity.
Qed.

Lemma stops_chmodSync env path mode : stops (chmodSync env path mode) thrown.
Proof.
  intros w. unfold chmodSync.
  destruct (env_chmodSync env path); simpl; [|exact I].
  eexists. reflexivity.
Qed.

Lemma stops_log_lines lines E : stops (log_lines lines) E.
Proof. intros w. exact I. Qed.

(** [runCommand] catches what [execSync] throws: it never stops the
    wizard. *)
Lemma stops_runCommand env command E : stops (runCommand env command) E.
Proof.
  unfold runCommand. apply stops_bind; [apply stops_act|]. intros _.
  destruct (env_execSync env command).
  - apply stops_bind; [apply stops_act|]. intros _. apply stops_ret.
  - apply stops_ret.
Qed.

Lemma stops_select_version env versionList :
  stops (select_version env versionList) thrown.
Proof.
  unfold select_version. destruct versionList as [[|first rest]|].
  - intros w. eexists. reflexivity.
  - apply stops_bind; [apply stops_act|]. intros _. apply stops_await.
  - intros w. eexists. reflexivity.
Qed.

Ltac stops_chain :=
  repeat
    lazymatch goal with
    | |- stops (bind _ _) _ => apply stops_bind; [|intros ?]
    | |- stops (ret _) _ => apply stops_ret
    | |- stops (act _) _ => apply stops_act
    | |- stops (console_log _) _ => apply stops_act
    | |- stops (log_lines _) _ => apply stops_log_lines
    | |- stops (try_ _) _ => apply stops_try
    | |- stops (await _ _ _) _ => apply stops_await
    | |- stops (confirm _ _) _ => apply stops_confirm
    | |- stops (input _ _ _) _ => apply stops_input
    | |- stops (chdir _ _) _ => apply stops_chdir
    | |- stops (writeFileSync _ _ _) _ => apply stops_writeFileSync
    | |- stops (chmodSync _ _ _) _ => apply stops_chmodSync
    | |- stops (runCommand _ _) _ => apply stops_runCommand
    | |- stops (select_version _ _) _ => apply stops_select_version
    | |- stops (if ?b then _ else _) _ => destruct b
    end.

Lemma stops_configure env exampleYml : stops (configure env exampleYml) thrown.
Proof. unfold configure. stops_chain. Qed.

Lemma stops_copy_example env exampleYml :
  stops (copy_example env exampleYml) thrown.
Proof. unfold copy_example. stops_chain. Qed.

Lemma stops_write_run_scripts env : stops (write_run_scripts env) thrown.
Proof. unfold write_run_scripts. stops_chain. Qed.

Lemma thrown_exit_logged e w : thrown e w -> exit_logged e w.
Proof. intros [err ->]. exact I. Qed.

Lemma thrown_not_cancelled e w : thrown e w -> not_cancelled e w.
Proof. intros [err ->]. discriminate. Qed.

Lemma stops_fetch_or_exit {A : Type} env url message (r : result A) :
  message ∈ exit_messages ->
  stops (fetch_or_exit env url message r)
    (fun e w => exit_logged e w /\ not_cancelled e w).
Proof.
  intros Hmessage. unfold fetch_or_exit.
  apply stops_bind; [apply stops_act|]. intros _.
  apply stops_bind; [apply stops_background|]. intros _.
  destruct r as [a|err]; [apply stops_ret|].
  intros w. simpl. split; [|discriminate].
  right. split; [reflexivity|]. rewrite last_snoc. eauto.
Qed.

Lemma stops_enter_directory env : stops (enter_directory env) exit_logged.
Proof.
  unfold enter_directory. apply stops_bind.
  - apply stops_bind; [apply stops_act|]. intros _.
    eapply stops_weaken; [apply thrown_exit_logged|apply stops_await].
  - intros dir. apply stops_bind; [|intros _; apply stops_ret].
    destruct (env_existsSync env dir).
    + apply stops_bind.
      * eapply stops_weaken; [apply thrown_exit_logged|apply stops_confirm].
      * intros overwrite. destruct overwrite; simpl.
        -- eapply stops_weaken; [apply thrown_exit_logged|apply stops_chdir].
        -- intros w. simpl. left. split; [reflexivity|apply last_snoc].
    + apply stops_bind; [apply stops_runCommand|]. intros created.
      apply stops_bind.
      * destruct created; simpl; [apply stops_ret|].
        intros w. simpl. right. split; [reflexivity|].
        rewrite last_snoc. eexists _, _. split; [|reflexivity].
        unfold exit_messages. set_solver.
      * intros _.
        eapply stops_weaken; [apply thrown_exit_logged|apply stops_chdir].
Qed.

Lemma stops_download_jar env version :
  stops (download_jar env version)
    (fun e w => exit_logged e w /\ not_cancelled e w).
Proof.
  intros w. unfold download_jar.
  pose proof (caller_inv_run (w_disk w) (env_fetch env) version
                (env_schedule env)) as Hinv.
  destruct Hinv as [(Hexit & Hlog & Hnot)|(reason & Hexit & Hlog & Hrej)].
  - rewrite Hexit.
    destruct (st_promise _) as [| |reason] eqn:Ep; simpl; try exact I.
    + split; [exact I|discriminate].
    + destruct (Hnot reason eq_refl).
  - rewrite Hexit. simpl. split; [|discriminate].
    right. split; [reflexivity|]. rewrite Hlog. simpl.
    rewrite app_comm_cons, !app_assoc, last_snoc.
    eexists _, _. split; [|reflexivity]. unfold exit_messages. set_solver.
Qed.

Lemma createLavalink_stages env :
  createLavalink env =
  (versionList <- fetch_or_exit env releasesUrl
                    "Failed to fetch Lavalink versions:"
                    (env_fetch_json env releasesUrl) ;;
   dir <- enter_directory env ;;
   after_directory env versionList dir).
Proof. reflexivity. Qed.

Lemma stops_after_download env dir runScript :
  stops (after_download env dir runScript)
    (fun e w => exit_logged e w /\ not_cancelled e w).
Proof.
  assert (forall A (m : wizard A),
            stops m thrown ->
            stops m (fun e w => exit_logged e w /\ not_cancelled e w))
    as Hthrown.
  { intros A m. apply stops_weaken. intros e w H.
    split; [apply thrown_exit_logged|apply thrown_not_cancelled]; exact H. }
  unfold after_download.
  apply stops_bind;
    [apply stops_fetch_or_exit; unfold exit_messages; set_solver
    |intros exampleYml].
  apply stops_bind; [apply Hthrown, stops_confirm|intros needConfig].
  apply stops_bind.
  { destruct needConfig;
      [apply Hthrown, stops_configure|apply Hthrown, stops_copy_example]. }
  intros _. apply stops_bind; [apply stops_act|intros _].
  apply stops_bind; [|intros _; apply stops_log_lines].
  destruct runScript; [apply Hthrown, stops_write_run_scripts|apply stops_ret].
Qed.

Lemma stops_after_directory env versionList dir :
  stops (after_directory env versionList dir)
    (fun e w => exit_logged e w /\ not_cancelled e w).
Proof.
  assert (forall A (m : wizard A),
            stops m thrown ->
            stops m (fun e w => exit_logged e w /\ not_cancelled e w))
    as Hthrown.
  { intros A m. apply stops_weaken. intros e w H.
    split; [apply thrown_exit_logged|apply thrown_not_cancelled]; exact H. }
  unfold after_directory.
  apply stops_bind; [apply Hthrown, stops_select_version|intros version].
  apply stops_bind; [apply Hthrown, stops_confirm|intros runScript].
  apply stops_bind; [apply stops_download_jar|intros _].
  apply stops_after_download.
Qed.

Lemma stops_createLavalink env : stops (createLavalink env) exit_logged.
Proof.
  rewrite createLavalink_stages.
  apply stops_bind.
  - eapply stops_weaken;
      [|apply stops_fetch_or_exit; unfold exit_messages; set_solver].
    intros e w [H _]. exact H.
  - intros versionList. apply stops_bind; [apply stops_enter_directory|].
    intros dir. eapply stops_weaken; [|apply stops_after_directory].
    intros e w [H _]. exact H.
Qed.

(** X8.  Whatever the environment does, the wizard calls
    [process.exit(0)] only right after printing that the user cancelled,
    and [process.exit(1)] only right after the [console.error] of one of
    four messages: the index could not be fetched, the directory could not
    be created, the download failed, the template could not be fetched.
    It calls [process.exit] with no other code, and the message of
    [runCommand] is never the last word. *)
Theorem exits_are_announced env code w :
  main env = (Exited code, w) ->
  (code = 0%Z /\
   last (w_actions w) = Some (ALog "Operation cancelled by user.")) \/
  (code = 1%Z /\
   exists message err,
     message ∈ exit_messages /\
     last (w_actions w) = Some (AError message err)).
Proof.
  unfold main. intros Hmain.
  pose proof (stops_createLavalink env (initial_world env)) as Hstops.
  destruct (createLavalink env (initial_world env)) as [[[]|e] w1];
    [discriminate|].
  injection Hmain as -> ->. exact Hstops.
Qed.

Lemma exits_are_announced_witness :
  main sample_mkdir_env = (Exited 1, (main sample_mkdir_env).2) /\
  exists message err,
    message ∈ exit_messages /\
    last (w_actions (main sample_mkdir_env).2) = Some (AError message err).
Proof.
  split; [vm_compute; reflexivity|].
  destruct (exits_are_announced sample_mkdir_env 1 (main sample_mkdir_env).2)
    as [[Hcode _]|[_ Hlast]].
  - vm_compute. reflexivity.
  - discriminate Hcode.
  - exact Hlast.
Defined.

(** ** The wizard and the disk *)

Lemma ensures_bind {A B : Type} (m : wizard A) (k : A -> wizard B) P Q R E :
  ensures m P Q E -> (forall a, ensures (k a) (Q a) R E) ->
  ensures (bind m k) P R E.
Proof.
  intros Hm Hk w Hw. unfold bind. specialize (Hm w Hw).
  destruct (m w) as [[a|e] w']; [apply (Hk a w' Hm)|exact Hm].
Qed.

Lemma ensures_conseq {A : Type} (m : wizard A) (P P' : world -> Prop)
    (Q Q' : A -> world -> Prop) (E E' : ending -> world -> Prop) :
  (forall w, P' w -> P w) ->
  (forall a w, Q a w -> Q' a w) ->
  (forall e w, E e w -> E' e w) ->
  ensures m P Q E -> ensures m P' Q' E'.
Proof.
  intros HP HQ HE H w Hw. specialize (H w (HP w Hw)).
  destruct (m w) as [[a|e] w']; auto.
Qed.

Lemma ensures_ret {A : Type} (a : A) (P : world -> Prop) Q E :
  (forall w, P w -> Q a w) -> ensures (ret a) P Q E.
Proof. intros H w Hw. apply H, Hw. Qed.

Lemma stream_inv_io_n disk0 dest handed n : forall ws disk,
  stream_inv disk0 dest handed ws disk ->
  stream_inv disk0 dest handed (ws_io_n n ws disk).1 (ws_io_n n ws disk).2 /\
  ws_ending (ws_io_n n ws disk).1 = ws_ending ws.
Proof.
  induction n as [|n IH]; intros ws disk Hinv; [done|].
  simpl. pose proof (stream_inv_io _ _ _ _ _ Hinv) as Hstep.
  pose proof (ws_io_ending ws disk) as Hend.
  destruct (ws_io ws disk) as [ws' disk']. simpl in *.
  destruct (IH ws' disk' Hstep) as [H1 H2]. split; congruence.
Qed.

Lemma stream_inv_insert_other disk0 dest handed ws disk path content :
  path <> dest ->
  stream_inv disk0 dest handed ws disk ->
  stream_inv (<[path := content]> disk0) dest handed ws
    (<[path := content]> disk).
Proof.
  intros Hne [Hp Hf Ho Hl Hu Hop Hc]. split; try done.
  - intros p Hp'. rewrite !lookup_insert. case_decide; [done|]. apply Ho, Hp'.
  - intros H. destruct (Hu H) as (-> & ? & ? & ?). done.
  - intros H. destruct (Hop H) as (flushed & Hd & ? & ?).
    exists flushed. rewrite lookup_insert_ne by done. done.
Qed.

Section WizardRules.

Variables (env : environment) (d : filesystem) (cs : list bytes)
  (modes : gmap string string).

Variable E : ending -> world -> Prop.

(** What a stop may rely on. *)
Hypothesis E_settled : forall e w, settled_state d cs modes w -> E e w.

Lemma settled_act a w :
  settled_state d cs modes w -> settled_state d cs modes (act a w).2.
Proof. intros [(ws & ? & ? & ?) ?]. split; [exists ws|]; done. Qed.

Lemma settled_background n w :
  settled_state d cs modes w -> settled_state d cs modes (background n w).2.
Proof.
  intros [(ws & Hws & He & Hsi) Hm]. unfold background. rewrite Hws.
  destruct (stream_inv_io_n _ _ _ n _ _ Hsi) as [Hsi' He'].
  destruct (ws_io_n n ws (w_disk w)) as [ws' disk']. simpl in *.
  split; [|exact Hm]. exists ws'. simpl.
  split; [reflexivity|]. split; [congruence|exact Hsi'].
Qed.

Lemma background_next n w : (background n w).1 = Next tt.
Proof.
  unfold background. destruct (w_stream w) as [ws|]; [|done].
  destruct (ws_io_n n ws (w_disk w)). done.
Qed.

Lemma ensures_act a :
  ensures (act a) (settled_state d cs modes)
    (fun _ => settled_state d cs modes) E.
Proof. intros w Hw. apply (settled_act a w Hw). Qed.

Lemma ensures_background n :
  ensures (background n) (settled_state d cs modes)
    (fun _ => settled_state d cs modes) E.
Proof.
  intros w Hw. pose proof (settled_background n w Hw) as H.
  pose proof (background_next n w) as Hn.
  destruct (background n w) as [[[]|e] w']; simpl in *; [exact H|discriminate].
Qed.

Lemma ensures_try {A : Type} (r : result A) :
  ensures (try_ r) (settled_state d cs modes)
    (fun a w => r = Ok a /\ settled_state d cs modes w) E.
Proof.
  intros w Hw. destruct r as [a|err]; simpl; [done|]. apply E_settled, Hw.
Qed.

Lemma ensures_await {A : Type} label (r : result A) :
  ensures (await env label r) (settled_state d cs modes)
    (fun a w => r = Ok a /\ settled_state d cs modes w) E.
Proof.
  unfold await. eapply ensures_bind; [apply ensures_background|].
  intros ?. apply (ensures_try r).
Qed.

Lemma ensures_confirm message :
  ensures (confirm env message) (settled_state d cs modes)
    (fun b w => env_confirm env message = Ok b /\ settled_state d cs modes w)
    E.
Proof.
  unfold confirm. eapply ensures_bind; [apply ensures_act|].
  intros ?. apply ensures_await.
Qed.

Lemma ensures_input message default :
  ensures (input env message default) (settled_state d cs modes)
    (fun x w =>
       env_input env message default = Ok x /\ settled_state d cs modes w)
    E.
Proof.
  unfold input. eapply ensures_bind; [apply ensures_act|].
  intros ?. apply ensures_await.
Qed.

Lemma ensures_fetch_or_exit {A : Type} url message (r : result A) :
  ensures (fetch_or_exit env url message r) (settled_state d cs modes)
    (fun a w => r = Ok a /\ settled_state d cs modes w) E.
Proof.
  unfold fetch_or_exit. eapply ensures_bind; [apply ensures_act|].
  intros ?. eapply ensures_bind; [apply ensures_background|].
  intros ?. destruct r as [x|err].
  - apply ensures_ret. done.
  - intros w Hw. simpl. apply E_settled, settled_act, Hw.
Qed.

End WizardRules.

Lemma ensures_writeFileSync env d cs modes E path content :
  path <> jarFile ->
  (forall e w, settled_state d cs modes w -> E e w) ->
  ensures (writeFileSync env path content) (settled_state d cs modes)
    (fun _ =>
       settled_state (<[path := bytes_of_string content]> d) cs modes) E.
Proof.
  intros Hne HE w Hw. unfold writeFileSync.
  destruct (env_writeFileSync env path); [apply HE, Hw|].
  destruct Hw as [(ws & Hws & He & Hsi) Hm]. simpl.
  split; [|exact Hm]. exists ws. simpl.
  split; [exact Hws|]. split; [exact He|].
  apply stream_inv_insert_other; done.
Qed.

Lemma ensures_chmodSync env d cs modes E path mode :
  (forall e w, settled_state d cs modes w -> E e w) ->
  ensures (chmodSync env path mode) (settled_state d cs modes)
    (fun _ => settled_state d cs (<[path := mode]> modes)) E.
Proof.
  intros HE w Hw. unfold chmodSync.
  destruct (env_chmodSync env path); [apply HE, Hw|].
  destruct Hw as [(ws & Hws & He & Hsi) Hm]. simpl.
  split; [|simpl; congruence]. exists ws. simpl. done.
Qed.

Lemma ensures_pure {A : Type} (m : wizard A) (fact : Prop)
    (P : world -> Prop) Q E :
  (fact -> ensures m P Q E) -> ensures m (fun w => fact /\ P w) Q E.
Proof. intros H w [Hfact Hw]. apply (H Hfact w Hw). Qed.

Lemma agrees_start env : agrees env (env_disk env).
Proof. intros path _. reflexivity. Qed.

Lemma agrees_insert env d path content :
  path ∈ wizard_files -> agrees env d -> agrees env (<[path := content]> d).
Proof.
  intros Hin Hd p Hp. rewrite lookup_insert_ne; [apply Hd, Hp|].
  intros ->. exact (Hp Hin).
Qed.

Lemma settled_stop_intro env cs d modes e w :
  agrees env d -> settled_state d cs modes w -> settled_stop env cs e w.
Proof. intros Hd Hw. exists d, modes. done. Qed.

Ltac settled_rule :=
  lazymatch goal with
  | |- ensures (try_ _) _ _ _ => apply ensures_try
  | |- ensures (input _ _ _) _ _ _ => apply ensures_input
  | |- ensures (confirm _ _) _ _ _ => apply ensures_confirm
  | |- ensures (act _) _ _ _ => apply ensures_act
  | |- ensures (console_log _) _ _ _ => apply ensures_act
  | |- ensures (fetch_or_exit _ _ _ _) _ _ _ => apply ensures_fetch_or_exit
  | |- ensures (writeFileSync _ _ _) _ _ _ =>
      apply ensures_writeFileSync; [discriminate|]
  | |- ensures (chmodSync _ _ _) _ _ _ => apply ensures_chmodSync
  end.

(** One step of a chain: a rule for the head, then the fact it gives. *)
Ltac settled_step HE :=
  eapply ensures_bind;
  [ settled_rule; intros; eapply HE; eassumption
  | intros ?; cbv beta; try (apply ensures_pure; intros ?) ].

Lemma ensures_configure env d cs modes E exampleYml :
  env_confirm env needConfigMessage = Ok true ->
  (forall e w, settled_state d cs modes w -> E e w) ->
  ensures (configure env exampleYml) (settled_state d cs modes)
    (fun _ w =>
       exists content,
         application_yml env exampleYml content /\
         settled_state (<["application.yml" := bytes_of_string content]> d)
           cs modes w) E.
Proof.
  intros Hconfig HE. unfold configure.
  do 11 settled_step HE.
  eapply ensures_conseq;
    [| |intros ? ? Hstop; exact Hstop
     |apply (ensures_writeFileSync env d cs modes E); [discriminate|exact HE]].
  - intros w Hw. exact Hw.
  - intros ? w Hw. eexists. split; [|exact Hw].
    eexists. split; [eassumption|]. left. split; [exact Hconfig|].
    do 7 eexists. repeat (split; [eassumption|]).
    split; [|eassumption]. do 2 eexists. repeat split; eassumption.
Qed.

Lemma ensures_copy_example env d cs modes E exampleYml :
  env_confirm env needConfigMessage = Ok false ->
  (forall e w, settled_state d cs modes w -> E e w) ->
  ensures (copy_example env exampleYml) (settled_state d cs modes)
    (fun _ w =>
       exists content,
         application_yml env exampleYml content /\
         settled_state (<["application.yml" := bytes_of_string content]> d)
           cs modes w) E.
Proof.
  intros Hconfig HE. unfold copy_example.
  do 2 settled_step HE.
  match goal with b : bool |- _ => destruct b end.
  - eapply ensures_bind;
      [apply (ensures_ret exampleYml _
                (fun a w => a = exampleYml /\ settled_state d cs modes w));
       done|].
    intros content. cbv beta. apply ensures_pure. intros ->.
    eapply ensures_conseq;
      [| |intros ? ? Hstop; exact Hstop
       |apply (ensures_writeFileSync env d cs modes E); [discriminate|exact HE]].
    + intros w Hw. exact Hw.
    + intros ? w Hw. eexists. split; [|exact Hw].
      eexists. split; [eassumption|]. right. left. done.
  - settled_step HE.
    eapply ensures_conseq;
      [| |intros ? ? Hstop; exact Hstop
       |apply (ensures_writeFileSync env d cs modes E); [discriminate|exact HE]].
    + intros w Hw. exact Hw.
    + intros ? w Hw. eexists. split; [|exact Hw].
      eexists. split; [eassumption|]. right. right. done.
Qed.

Lemma ensures_write_run_scripts env d cs E :
  (forall e w d' modes,
     agrees env d' -> settled_state d' cs modes w -> E e w) ->
  agrees env d ->
  ensures (write_run_scripts env) (settled_state d cs ∅)
    (fun _ => settled_state (with_scripts true d) cs (script_modes true)) E.
Proof.
  intros HE Hd. unfold write_run_scripts, with_scripts, script_modes.
  assert (agrees env (<["run.sh" := bytes_of_string runScriptContent]> d))
    as Hd1.
  { apply agrees_insert; [|exact Hd]. unfold wizard_files. set_solver. }
  eapply ensures_bind;
    [apply ensures_writeFileSync; [discriminate|];
     intros e0 w0 Hw0; exact (HE e0 w0 _ _ Hd Hw0)|].
  intros ?. eapply ensures_bind;
    [apply ensures_chmodSync; intros e0 w0 Hw0; exact (HE e0 w0 _ _ Hd1 Hw0)|].
  intros ?. eapply ensures_bind; [apply ensures_act|].
  intros ?. eapply ensures_bind;
    [apply ensures_writeFileSync; [discriminate|];
     intros e0 w0 Hw0; exact (HE e0 w0 _ _ Hd1 Hw0)|].
  intros ?. apply ensures_act.
Qed.

Lemma ensures_after_download env cs dir runScript :
  ensures (after_download env dir runScript)
    (settled_state (env_disk env) cs ∅)
    (fun _ => set_up env cs dir runScript)
    (settled_stop env cs).
Proof.
  pose proof (agrees_start env) as Hd0.
  assert (forall d modes e w,
            agrees env d -> settled_state d cs modes w ->
            settled_stop env cs e w) as HE.
  { intros d modes e w Hd Hw. eapply settled_stop_intro; eassumption. }
  unfold after_download.
  eapply ensures_bind;
    [apply ensures_fetch_or_exit; intros e0 w0 Hw0;
     exact (HE _ _ e0 w0 Hd0 Hw0)|].
  intros exampleYml. cbv beta. apply ensures_pure. intros Hexample.
  eapply ensures_bind;
    [apply ensures_confirm; intros e0 w0 Hw0; exact (HE _ _ e0 w0 Hd0 Hw0)|].
  intros needConfig. cbv beta. apply ensures_pure. intros Hconfig.
  eapply ensures_bind.
  { instantiate
      (1 := fun _ w =>
              exists content,
                application_yml env exampleYml content /\
                settled_state
                  (<["application.yml" := bytes_of_string content]>
                     (env_disk env)) cs ∅ w).
    destruct needConfig.
    - apply ensures_configure; [exact Hconfig|].
      intros e0 w0 Hw0. exact (HE _ _ e0 w0 Hd0 Hw0).
    - apply ensures_copy_example; [exact Hconfig|].
      intros e0 w0 Hw0. exact (HE _ _ e0 w0 Hd0 Hw0). }
  intros ?. cbv beta. intros w (content & Hyml & Hw). revert w Hw.
  change (ensures
            (console_log "application.yml created successfully." ;;;
             (if runScript then write_run_scripts env else ret tt) ;;;
             log_lines (final_lines dir))
            (settled_state
               (<["application.yml" := bytes_of_string content]>
                  (env_disk env)) cs ∅)
            (fun _ => set_up env cs dir runScript) (settled_stop env cs)).
  assert (agrees env
            (<["application.yml" := bytes_of_string content]> (env_disk env)))
    as Hd1.
  { apply agrees_insert; [|exact Hd0]. unfold wizard_files. set_solver. }
  eapply ensures_bind; [apply ensures_act|]. intros ?. cbv beta.
  eapply ensures_bind.
  { instantiate
      (1 := fun _ =>
              settled_state
                (with_scripts runScript
                   (<["application.yml" := bytes_of_string content]>
                      (env_disk env))) cs (script_modes runScript)).
    destruct runScript.
    - apply ensures_write_run_scripts; [|exact Hd1].
      intros e0 w0 d' modes' Hd' Hw0. exact (HE _ _ e0 w0 Hd' Hw0).
    - apply ensures_ret. intros w Hw. exact Hw. }
  intros ?. cbv beta.
  assert (agrees env
            (with_scripts runScript
               (<["application.yml" := bytes_of_string content]>
                  (env_disk env)))) as Hd2.
  { unfold with_scripts. destruct runScript; [|exact Hd1].
    apply agrees_insert; [unfold wizard_files; set_solver|].
    apply agrees_insert; [unfold wizard_files; set_solver|exact Hd1]. }
  intros w [(ws & Hws & He & Hsi) Hm]. unfold log_lines. cbv beta iota.
  exists exampleYml, content.
  split; [exact Hexample|]. split; [exact Hyml|]. split; [|simpl; eauto].
  split; [|exact Hm]. exists ws. done.
Qed.

(** *** Before the download *)

Lemma pristine_act env a w :
  quiet a -> pristine env w -> pristine env (act a w).2.
Proof.
  intros Ha (Hd & Hm & Hs & Hq). repeat split; try done.
  simpl. apply Forall_app. split; [exact Hq|]. apply Forall_singleton, Ha.
Qed.

Lemma pristine_background env n w :
  pristine env w -> background n w = (Next tt, w).
Proof. intros (_ & _ & Hs & _). unfold background. rewrite Hs. done. Qed.

Lemma ensures_pristine_act env a E :
  quiet a ->
  ensures (act a) (pristine env) (fun _ => pristine env) E.
Proof. intros Ha w Hw. apply (pristine_act env a w Ha Hw). Qed.

Lemma ensures_pristine_await {A : Type} env label (r : result A) :
  ensures (await env label r) (pristine env)
    (fun a w => r = Ok a /\ pristine env w) (fun _ => pristine env).
Proof.
  intros w Hw. unfold await, bind.
  rewrite (pristine_background env _ w Hw). destruct r; simpl; done.
Qed.

Lemma ensures_pristine_confirm env message :
  ensures (confirm env message) (pristine env)
    (fun b w => env_confirm env message = Ok b /\ pristine env w)
    (fun _ => pristine env).
Proof.
  unfold confirm. eapply ensures_bind; [apply ensures_pristine_act; exact I|].
  intros ?. apply ensures_pristine_await.
Qed.

Lemma ensures_pristine_fetch {A : Type} env url message (r : result A) :
  ensures (fetch_or_exit env url message r) (pristine env)
    (fun a w => r = Ok a /\ pristine env w) (fun _ => pristine env).
Proof.
  unfold fetch_or_exit.
  eapply ensures_bind; [apply ensures_pristine_act; exact I|]. intros ?.
  intros w Hw. unfold bind. rewrite (pristine_background env _ w Hw).
  destruct r as [x|err]; simpl; [done|].
  apply pristine_act; [exact I|exact Hw].
Qed.

Lemma ensures_pristine_chdir env dir :
  ensures (chdir env dir) (pristine env) (fun _ => pristine env)
    (fun _ => pristine env).
Proof.
  intros w Hw. unfold chdir. destruct (env_chdir env dir); simpl; [exact Hw|].
  apply pristine_act; [exact I|exact Hw].
Qed.

Lemma ensures_pristine_runCommand env command :
  ensures (runCommand env command) (pristine env) (fun _ => pristine env)
    (fun _ => pristine env).
Proof.
  unfold runCommand.
  eapply ensures_bind; [apply ensures_pristine_act; exact I|]. intros ?.
  destruct (env_execSync env command).
  - eapply ensures_bind; [apply ensures_pristine_act; exact I|]. intros ?.
    apply ensures_ret. done.
  - apply ensures_ret. done.
Qed.

Lemma ensures_pristine_enter_directory env :
  ensures (enter_directory env) (pristine env)
    (fun dir w =>
       env_input_string env dirMessage "lavalink-server" = Ok dir /\
       pristine env w)
    (fun _ => pristine env).
Proof.
  unfold enter_directory. eapply ensures_bind.
  { eapply ensures_bind; [apply ensures_pristine_act; exact I|]. intros ?.
    apply ensures_pristine_await. }
  intros dir. cbv beta. apply ensures_pure. intros Hdir.
  eapply (ensures_bind _ _ _ (fun _ => pristine env));
    [|intros ?; apply ensures_ret; intros w Hw; split; [exact Hdir|exact Hw]].
  destruct (env_existsSync env dir).
  - eapply ensures_bind; [apply ensures_pristine_confirm|].
    intros overwrite. cbv beta. apply ensures_pure. intros _.
    destruct overwrite; simpl.
    + apply ensures_pristine_chdir.
    + intros w Hw. simpl. apply pristine_act; [exact I|exact Hw].
  - eapply ensures_bind; [apply ensures_pristine_runCommand|].
    intros created. cbv beta.
    eapply ensures_bind; [|intros ?; apply ensures_pristine_chdir].
    destruct created; simpl.
    + apply ensures_ret. done.
    + intros w Hw. simpl. apply pristine_act; [exact I|exact Hw].
Qed.

Lemma ensures_pristine_select env versionList :
  ensures (select_version env versionList) (pristine env)
    (fun version w =>
       (exists list_,
          versionList = ReleaseArray list_ /\ list_ <> [] /\
          env_select env versionMessage list_ = Ok version) /\
       pristine env w)
    (fun _ => pristine env).
Proof.
  unfold select_version. destruct versionList as [[|first rest]|].
  - intros w Hw. exact Hw.
  - eapply ensures_bind; [apply ensures_pristine_act; exact I|]. intros ?.
    eapply ensures_conseq; [| | |apply ensures_pristine_await].
    + intros w Hw. exact Hw.
    + intros version w [Hsel Hw]. split; [|exact Hw].
      exists (first :: rest). done.
    + intros e w Hw. exact Hw.
  - intros w Hw. exact Hw.
Qed.

(** *** The download *)

(** The caller's download is the call under the events that have run. *)
Lemma caller_download_reached disk network version evs :
  exists evs',
    p_download (createLavalink_download disk network version evs) =
    downloadFile disk (network (jarUrl version)) jarFile (jarText version)
      evs'.
Proof.
  unfold createLavalink_download.
  assert (exists evs',
            p_download
              (catch_download
                 (mkProcess
                    (downloadFile_start disk (network (jarUrl version))
                       jarFile) [] None)) =
            downloadFile disk (network (jarUrl version)) jarFile
              (jarText version) evs') as Hstart.
  { exists []. unfold catch_download. simpl.
    destruct (st_promise _); reflexivity. }
  revert Hstart.
  generalize (catch_download
                (mkProcess
                   (downloadFile_start disk (network (jarUrl version)) jarFile)
                   [] None)).
  induction evs as [|ev evs IH]; intros p Hp; [exact Hp|].
  simpl. apply IH. destruct Hp as (evs' & Hp).
  unfold process_step. destruct (p_exitCode p); [eauto|].
  exists (evs' ++ [ev]). unfold catch_download. simpl p_download.
  rewrite downloadFile_app, <- Hp. simpl.
  destruct (st_promise _); reflexivity.
Qed.

Lemma resolved_phase text total disk0 dest st :
  phase text total disk0 dest st ->
  st_promise st = Resolved ->
  exists cs term, resolved_inv disk0 dest cs term st.
Proof.
  intros [reason ->|cs Hinv|cs ticks _ Hinv|cs reason reads Hinv] Hp.
  - discriminate.
  - rewrite (pi_promise _ _ _ _ _ _ Hinv) in Hp. discriminate.
  - eauto.
  - rewrite (ji_promise _ _ _ _ _ _ _ _ Hinv) in Hp. discriminate.
Qed.

Lemma Forall_quiet_writes_nothing acts :
  Forall quiet acts -> Forall writes_nothing acts.
Proof. intros H. eapply Forall_impl; [exact H|]. intros [] Ha; done. Qed.

Lemma pristine_unwritten env w : pristine env w -> unwritten env w.
Proof.
  intros (Hd & Hm & _ & Hq). split; [|split; [exact Hm|]].
  - intros path _. rewrite Hd. reflexivity.
  - apply Forall_quiet_writes_nothing, Hq.
Qed.

Lemma ensures_download_jar env version :
  ensures (download_jar env version) (pristine env)
    (fun _ w =>
       exists cs,
         download_resolved env version cs /\
         settled_state (env_disk env) cs ∅ w)
    (fun _ => unwritten env).
Proof.
  intros w (Hd & Hm & Hs & Hq). unfold download_jar. rewrite Hd.
  set (p := createLavalink_download (env_disk env) (env_fetch env) version
              (env_schedule env)).
  assert (Forall writes_nothing
            (w_actions w
               ++ [ADownload (jarUrl version) jarFile (jarText version)]
               ++ map ARender (st_terminal (p_download p))
               ++ map (fun e => AError e.1 (Some e.2)) (p_stderr p)))
    as Hacts.
  { apply Forall_app. split; [apply Forall_quiet_writes_nothing, Hq|].
    apply Forall_app. split; [apply Forall_singleton; exact I|].
    apply Forall_app. split; apply Forall_forall; intros a Ha;
      apply list_elem_of_fmap in Ha; destruct Ha as (x & -> & _); exact I. }
  assert (forall path,
            path <> jarFile ->
            st_disk (p_download p) !! path = env_disk env !! path) as Hothers.
  { destruct (caller_download_reached (env_disk env) (env_fetch env) version
                (env_schedule env)) as (evs' & Hreach).
    fold p in Hreach. rewrite Hreach.
    apply (phase_disk _ _ _ _ _ (downloadFile_phase _ _ _ _ evs')). }
  assert (unwritten env
            (mkWorld
               (w_actions w
                  ++ [ADownload (jarUrl version) jarFile (jarText version)]
                  ++ map ARender (st_terminal (p_download p))
                  ++ map (fun e => AError e.1 (Some e.2)) (p_stderr p))
               (st_disk (p_download p)) (w_modes w)
               (st_fileStream (p_download p)))) as Hunwritten.
  { split; [exact Hothers|]. split; [exact Hm|exact Hacts]. }
  pose proof (caller_inv_run (env_disk env) (env_fetch env) version
                (env_schedule env)) as Hcaller.
  fold p in Hcaller.
  destruct Hcaller as [(Hexit & Hlog & Hnot)|(reason & Hexit & _)].
  - rewrite Hexit.
    destruct (st_promise (p_download p)) as [| |reason] eqn:Ep.
    + exact Hunwritten.
    + pose proof (caller_download_complete _ _ _ _ Hexit) as Hp.
      fold p in Hp.
      destruct (resolved_phase _ _ _ _ _
                  (downloadFile_phase (env_disk env)
                     (env_fetch env (jarUrl version)) jarFile
                     (jarText version) (env_schedule env)))
        as (cs & term & Hres); [rewrite <- Hp; exact Ep|].
      exists cs. split; [exists term; exact Hres|].
      rewrite <- Hp in Hres. split; [|exact Hm].
      destruct Hres as [_ _ _ _ _ (ws & Hws & He & Hsi)]. exists ws. done.
    + destruct (Hnot reason eq_refl).
  - rewrite Hexit. exact Hunwritten.
Qed.

(** *** The whole wizard *)

Lemma ensures_exists {A X : Type} (m : wizard A) (P : X -> world -> Prop) Q E :
  (forall x, ensures m (P x) Q E) ->
  ensures m (fun w => exists x, P x w) Q E.
Proof. intros H w [x Hw]. apply (H x w Hw). Qed.

Lemma pristine_initial env : pristine env (initial_world env).
Proof. repeat split; constructor. Qed.

Lemma ensures_createLavalink env :
  ensures (createLavalink env) (pristine env) (fun _ => wizard_done env)
    (wizard_stop env).
Proof.
  assert (forall e w, pristine env w -> wizard_stop env e w) as Hstop.
  { intros e w Hw. left. apply pristine_unwritten, Hw. }
  rewrite createLavalink_stages.
  eapply ensures_bind.
  { eapply ensures_conseq; [| |exact Hstop|apply ensures_pristine_fetch];
      [intros w Hw; exact Hw|intros a w Hw; exact Hw]. }
  intros versionList. cbv beta. apply ensures_pure. intros Hjson.
  eapply ensures_bind.
  { eapply ensures_conseq;
      [| |exact Hstop|apply ensures_pristine_enter_directory];
      [intros w Hw; exact Hw|intros a w Hw; exact Hw]. }
  intros dir. cbv beta. apply ensures_pure. intros Hdir.
  unfold after_directory.
  eapply ensures_bind.
  { eapply ensures_conseq; [| |exact Hstop|apply ensures_pristine_select];
      [intros w Hw; exact Hw|intros a w Hw; exact Hw]. }
  intros version. cbv beta. apply ensures_pure.
  intros (list_ & -> & Hne & Hselect).
  eapply ensures_bind.
  { eapply ensures_conseq; [| |exact Hstop|apply ensures_pristine_confirm];
      [intros w Hw; exact Hw|intros a w Hw; exact Hw]. }
  intros runScript. cbv beta. apply ensures_pure. intros Hrun.
  assert (asked env dir version runScript) as Hasked.
  { split; [exact Hdir|]. split; [|exact Hrun]. exists list_. done. }
  eapply ensures_bind.
  { eapply ensures_conseq; [| | |apply ensures_download_jar];
      [intros w Hw; exact Hw|intros a w Hw; exact Hw|].
    intros e w Hw. left. exact Hw. }
  intros ?. cbv beta. apply ensures_exists. intros cs.
  apply ensures_pure. intros Hresolved.
  eapply ensures_conseq; [| | |apply ensures_after_download].
  - intros w Hw. exact Hw.
  - intros ? w Hw. exists dir, version, runScript, cs. done.
  - intros e w Hw. right. exists dir, version, runScript, cs. done.
Qed.

(** The stream that has been ended closes in [ws_todo] operations. *)
Lemma ws_io_n_todo n : forall ws disk,
  ws_ending ws = true ->
  ws_todo (ws_io_n n ws disk).1 = ws_todo ws - n.
Proof.
  induction n as [|n IH]; intros ws disk He; [simpl; lia|].
  simpl. pose proof (ws_todo_io ws disk He) as Hstep.
  pose proof (ws_io_ending ws disk) as Hend.
  destruct (ws_io ws disk) as [ws' disk']. simpl in *.
  rewrite IH by congruence. lia.
Qed.

Lemma settle_closes d cs modes w :
  settled_state d cs modes w ->
  w_disk (settle w) !! jarFile = Some (concat cs) /\
  (forall path, path <> jarFile -> w_disk (settle w) !! path = d !! path) /\
  w_modes (settle w) = modes /\
  w_actions (settle w) = w_actions w.
Proof.
  intros [(ws & Hws & He & Hsi) Hm]. unfold settle. rewrite Hws.
  destruct (stream_inv_io_n _ _ _ (ws_todo ws) _ _ Hsi) as [Hsi' _].
  pose proof (ws_io_n_todo (ws_todo ws) ws (w_disk w) He) as Htodo.
  destruct (ws_io_n (ws_todo ws) ws (w_disk w)) as [ws' disk']. simpl in *.
  split; [|split; [exact (si_others _ _ _ _ _ Hsi')|done]].
  apply (stream_inv_closed _ _ _ _ _ Hsi'), ws_todo_closed. lia.
Qed.

(** What a run that has finished has done. *)
Lemma main_finished env w :
  main env = (Finished, w) ->
  exists dir version runScript cs exampleYml content,
    asked env dir version runScript /\
    download_resolved env version cs /\
    env_fetch_text env exampleUrl = Ok exampleYml /\
    application_yml env exampleYml content /\
    w_disk w !! jarFile = Some (concat cs) /\
    (forall path,
       path <> jarFile ->
       w_disk w !! path =
       with_scripts runScript
         (<["application.yml" := bytes_of_string content]> (env_disk env))
         !! path) /\
    w_modes w = script_modes runScript /\
    exists before, w_actions w = before ++ map ALog (final_lines dir).
Proof.
  unfold main. intros Hmain.
  pose proof (ensures_createLavalink env (initial_world env)
                (pristine_initial env)) as Hens.
  pose proof (stops_createLavalink env (initial_world env)) as Hstops.
  destruct (createLavalink env (initial_world env)) as [[[]|e] w1];
    [|injection Hmain as -> _; destruct Hstops].
  injection Hmain as <-.
  destruct Hens as (dir & version & runScript & cs & Hasked & Hres &
                    exampleYml & content & Hex & Hyml & Hstate & before & Hacts).
  destruct (settle_closes _ _ _ _ Hstate) as (Hjar & Hothers & Hmodes & Hsame).
  exists dir, version, runScript, cs, exampleYml, content.
  repeat (split; [assumption|]). rewrite Hsame. eauto.
Qed.

(** ** Before the directory is entered *)

(** Lines 66-96 from the start of the process, case by case. *)
Lemma createLavalink_start env :
  createLavalink env (initial_world env) =
  let world_of actions := mkWorld actions (env_disk env) ∅ None in
  match env_fetch_json env releasesUrl with
  | Throw err =>
      (Stop (Exited 1),
       world_of
         [AFetch releasesUrl;
          AError "Failed to fetch Lavalink versions:" (Some err)])
  | Ok versionList =>
      match env_input_string env dirMessage "lavalink-server" with
      | Throw err =>
          (Stop (Unhandled err),
           world_of [AFetch releasesUrl; APrompt dirMessage])
      | Ok dir =>
          let asked := [AFetch releasesUrl; APrompt dirMessage] in
          if env_existsSync env dir then
            let asked := asked ++ [APrompt (overwriteMessage dir)] in
            match env_confirm env (overwriteMessage dir) with
            | Throw err => (Stop (Unhandled err), world_of asked)
            | Ok false =>
                (Stop (Exited 0),
                 world_of (asked ++ [ALog "Operation cancelled by user."]))
            | Ok true =>
                match env_chdir env dir with
                | Some err => (Stop (Unhandled err), world_of asked)
                | None =>
                    after_directory env versionList dir
                      (world_of (asked ++ [AChdir dir]))
                end
            end
          else
            let asked := asked ++ [AExec ("mkdir " +:+ dir)] in
            match env_execSync env ("mkdir " +:+ dir) with
            | Some err =>
                (Stop (Exited 1),
                 world_of
                   (asked ++
                      [AError ("Failed to execute mkdir " +:+ dir) (Some err);
                       AError "Failed to create directory" None]))
            | None =>
                match env_chdir env dir with
                | Some err => (Stop (Unhandled err), world_of asked)
                | None =>
                    after_directory env versionList dir
                      (world_of (asked ++ [AChdir dir]))
                end
            end
      end
  end.
Proof.
  rewrite createLavalink_stages.
  unfold bind at 1. unfold fetch_or_exit, initial_world.
  destruct (env_fetch_json env releasesUrl) as [versionList|err];
    [|reflexivity].
  cbn -[after_directory enter_directory].
  unfold enter_directory, bind, act, await, background, confirm, chdir,
    runCommand, console_log, stop, ret.
  cbn -[after_directory].
  destruct (env_input_string env dirMessage "lavalink-server") as [dir|err];
    [|reflexivity].
  cbn -[after_directory]. destruct (env_existsSync env dir).
  - destruct (env_confirm env (overwriteMessage dir)) as [[]|];
      cbn -[after_directory]; try reflexivity.
    destruct (env_chdir env dir); reflexivity.
  - destruct (env_execSync env ("mkdir " +:+ dir));
      cbn -[after_directory]; try reflexivity.
    destruct (env_chdir env dir); reflexivity.
Qed.

(** X9.  The wizard calls [process.exit(0)] in one case only: the
    directory named at the first prompt exists and the user declines to
    continue.  It has then fetched the index and asked two questions,
    printed the cancellation, and left the directory as it was: nothing
    has been created, entered, downloaded or written.  (A run that
    finishes also leaves the process with status 0, but by returning, not
    by this call: that outcome is [Finished], not [Exited 0].) *)
Theorem cancellation_touches_nothing env w :
  main env = (Exited 0, w) <->
  exists versionList dir,
    env_fetch_json env releasesUrl = Ok versionList /\
    env_input_string env dirMessage "lavalink-server" = Ok dir /\
    env_existsSync env dir = true /\
    env_confirm env (overwriteMessage dir) = Ok false /\
    w = mkWorld
          [AFetch releasesUrl; APrompt dirMessage;
           APrompt (overwriteMessage dir);
           ALog "Operation cancelled by user."]
          (env_disk env) ∅ None.
Proof.
  unfold main. rewrite createLavalink_start. cbv zeta. split.
  - assert (forall versionList dir w0,
              match after_directory env versionList dir w0 with
              | (Next _, w1) => (Finished, settle w1)
              | (Stop e, w1) => (e, w1)
              end <> (Exited 0, w)) as Hafter.
    { intros versionList dir w0 Heq.
      pose proof (stops_after_directory env versionList dir w0) as Hstops.
      destruct (after_directory env versionList dir w0) as [[[]|e] w1];
        [discriminate|].
      injection Heq as -> _. destruct Hstops as [_ Hnot]. apply Hnot.
      reflexivity. }
    destruct (env_fetch_json env releasesUrl) as [versionList|err];
      [|discriminate].
    destruct (env_input_string env dirMessage "lavalink-server")
      as [dir|err]; [|discriminate].
    destruct (env_existsSync env dir) eqn:Hexists.
    + destruct (env_confirm env (overwriteMessage dir)) as [[]|err] eqn:Hc.
      * destruct (env_chdir env dir); [discriminate|].
        intros Heq. destruct (Hafter _ _ _ Heq).
      * intros Heq. injection Heq as <-. exists versionList, dir. done.
      * discriminate.
    + destruct (env_execSync env ("mkdir " +:+ dir)); [discriminate|].
      destruct (env_chdir env dir); [discriminate|].
      intros Heq. destruct (Hafter _ _ _ Heq).
  - intros (versionList & dir & -> & -> & -> & -> & ->). reflexivity.
Qed.

Lemma cancellation_touches_nothing_witness :
  w_disk (main sample_cancel_env).2 = sample_disk /\
  w_stream (main sample_cancel_env).2 = None.
Proof.
  destruct (proj1 (cancellation_touches_nothing sample_cancel_env
                     (main sample_cancel_env).2))
    as (versionList & dir & _ & _ & _ & _ & ->).
  - vm_compute. reflexivity.
  - split; reflexivity.
Defined.

(** X10.  When the directory does not exist and [mkdir] fails,
    [runCommand] catches the error, logs it and returns [false]; the
    wizard logs a second message and exits with code 1 before it enters
    any directory or asks for a version. *)
Theorem mkdir_failure_exits env versionList dir err :
  env_fetch_json env releasesUrl = Ok versionList ->
  env_input_string env dirMessage "lavalink-server" = Ok dir ->
  env_existsSync env dir = false ->
  env_execSync env ("mkdir " +:+ dir) = Some err ->
  main env =
  (Exited 1,
   mkWorld
     [AFetch releasesUrl; APrompt dirMessage; AExec ("mkdir " +:+ dir);
      AError ("Failed to execute mkdir " +:+ dir) (Some err);
      AError "Failed to create directory" None]
     (env_disk env) ∅ None).
Proof.
  intros Hjson Hdir Hexists Hexec. unfold main.
  rewrite createLavalink_start, Hjson, Hdir. cbv zeta.
  rewrite Hexists, Hexec. reflexivity.
Qed.

Lemma mkdir_failure_exits_witness :
  (main sample_mkdir_env).1 = Exited 1.
Proof.
  rewrite (mkdir_failure_exits sample_mkdir_env (ReleaseArray sample_releases)
             "lavalink-server" (Error "Command failed: mkdir"));
    reflexivity.
Defined.

Ltac elem_cases H :=
  repeat (apply elem_of_cons in H; destruct H as [H|H];
          [try discriminate H|]);
  try (apply elem_of_nil in H; destruct H).

(** X11.  An index that is not an array, or an empty one, is noticed only
    at the prompt for the version, after the directory has been created or
    entered: the prompt is never shown, nothing is downloaded or written,
    the run does not finish, and once the process has changed directory
    it dies of an uncaught TypeError. *)
Theorem unusable_index_found_late env versionList e w :
  env_fetch_json env releasesUrl = Ok versionList ->
  versionList = NotAnArray \/ versionList = ReleaseArray [] ->
  main env = (e, w) ->
  pristine env w /\
  (APrompt versionMessage ∉ w_actions w) /\
  e <> Finished /\
  forall dir,
    AChdir dir ∈ w_actions w -> exists message, e = Unhandled (TypeError message).
Proof.
  intros Hjson Hbad. unfold main.
  rewrite createLavalink_start, Hjson. cbv zeta.
  assert (forall dir w0,
            after_directory env versionList dir w0 =
            (Stop (Unhandled
                     (TypeError
                        match versionList with
                        | NotAnArray => "versionList.sort is not a function"
                        | _ => "Cannot read properties of undefined (reading 'tag_name')"
                        end)), w0)) as Hafter.
  { intros dir w0. destruct Hbad as [-> | ->]; reflexivity. }
  assert (forall e0 acts,
            Forall quiet acts ->
            (APrompt versionMessage ∉ acts) ->
            e0 <> Finished ->
            (forall dir,
               AChdir dir ∈ acts ->
               exists message, e0 = Unhandled (TypeError message)) ->
            (e0, mkWorld acts (env_disk env) ∅ None) = (e, w) ->
            pristine env w /\ (APrompt versionMessage ∉ w_actions w) /\
            e <> Finished /\
            forall dir,
              AChdir dir ∈ w_actions w ->
              exists message, e = Unhandled (TypeError message)) as Hcase.
  { intros e0 acts Hquiet Hprompt Hfin Hchdir [= <- <-].
    repeat split; assumption. }
  destruct (env_input_string env dirMessage "lavalink-server") as [dir|err].
  - destruct (env_existsSync env dir).
    + destruct (env_confirm env (overwriteMessage dir)) as [[]|err].
      * destruct (env_chdir env dir); [|rewrite Hafter];
          (apply Hcase;
           [repeat constructor|intros Hin; elem_cases Hin|discriminate
           |intros dir' Hin; elem_cases Hin; eauto]).
      * apply Hcase;
          [repeat constructor|intros Hin; elem_cases Hin|discriminate
          |intros dir' Hin; elem_cases Hin].
      * apply Hcase;
          [repeat constructor|intros Hin; elem_cases Hin|discriminate
          |intros dir' Hin; elem_cases Hin].
    + destruct (env_execSync env ("mkdir " +:+ dir)).
      * apply Hcase;
          [repeat constructor|intros Hin; elem_cases Hin|discriminate
          |intros dir' Hin; elem_cases Hin].
      * destruct (env_chdir env dir); [|rewrite Hafter];
          (apply Hcase;
           [repeat constructor|intros Hin; elem_cases Hin|discriminate
           |intros dir' Hin; elem_cases Hin; eauto]).
  - apply Hcase;
      [repeat constructor|intros Hin; elem_cases Hin|discriminate
      |intros dir' Hin; elem_cases Hin].
Qed.

Lemma unusable_index_found_late_witness :
  exists message,
    (main (with_index sample_env (Ok NotAnArray))).1 =
    Unhandled (TypeError message).
Proof.
  destruct (unusable_index_found_late (with_index sample_env (Ok NotAnArray))
              NotAnArray
              (main (with_index sample_env (Ok NotAnArray))).1
              (main (with_index sample_env (Ok NotAnArray))).2)
    as (_ & _ & _ & Hchdir).
  - reflexivity.
  - left. reflexivity.
  - vm_compute. reflexivity.
  - apply (Hchdir "lavalink-server"). vm_compute.
    repeat constructor.
Defined.

(** ** A run that finishes *)

(** What a reader delivers is a run of chunks, followed by nothing, by the
    end of the stream or by a failure. *)
Lemma settled_shape (rs : list read_result) :
  (exists cs, rs = map ReadValue cs) \/
  (exists cs rest, rs = map ReadValue cs ++ ReadDone :: rest) \/
  (exists cs reason rest, rs = map ReadValue cs ++ ReadRejected reason :: rest).
Proof.
  induction rs as [|r rs IH]; [left; exists []; reflexivity|].
  destruct r as [value| |reason].
  - destruct IH as [(cs & ->)|[(cs & rest & ->)|(cs & reason & rest & ->)]].
    + left. exists (value :: cs). reflexivity.
    + right. left. exists (value :: cs), rest. reflexivity.
    + right. right. exists (value :: cs), reason, rest. reflexivity.
  - right. left. exists [], rs. reflexivity.
  - right. right. exists [], reason, rs. reflexivity.
Qed.

(** A call is resolved only if the response was ok, had a body, and the
    reader reached the end of the stream without failing. *)
Lemma resolved_schedule disk fetched dest text evs :
  st_promise (downloadFile disk fetched dest text evs) = Resolved ->
  exists response cs rest,
    fetched = FetchResponse response /\ ok response = true /\
    body response = true /\
    settled evs = map ReadValue cs ++ ReadDone :: rest.
Proof.
  intros Hres. destruct fetched as [reason|response].
  { unfold downloadFile, downloadFile_start in Hres.
    change (mkState disk [] 0 0 TimerUnset None 0 (Rejected reason))
      with (failed_state disk reason) in Hres.
    rewrite failed_state_run in Hres. discriminate. }
  destruct (ok response) eqn:Hok.
  - destruct (body response) eqn:Hbody.
    + destruct (settled_shape (settled evs))
        as [(cs & Hs)|[(cs & rest & Hs)|(cs & reason & rest & Hs)]].
      * pose proof (downloadFile_pending disk response dest text cs evs
                      Hok Hbody Hs) as Hinv.
        rewrite (pi_promise _ _ _ _ _ _ Hinv) in Hres. discriminate.
      * exists response, cs, rest. done.
      * pose proof (downloadFile_rejected disk response dest text cs
                      reason rest evs Hok Hbody Hs) as Hinv.
        rewrite (ji_promise _ _ _ _ _ _ _ _ Hinv) in Hres. discriminate.
    + pose proof (run_rejected text
                    (totaledSizeMB (content_length response)) disk dest evs
                    _ _ _ _
                    (rejected_start text
                       (totaledSizeMB (content_length response)) disk dest
                       response Hok Hbody)) as Hinv.
      unfold downloadFile in Hres. simpl response_totalSize in Hres.
      rewrite (ji_promise _ _ _ _ _ _ _ _ Hinv) in Hres. discriminate.
  - unfold downloadFile, downloadFile_start in Hres. rewrite Hok in Hres.
    simpl in Hres.
    change (mkState disk [] 0 0 TimerUnset None 0
              (Rejected
                 (Error ("Failed to download file: " +:+ statusText response))))
      with (failed_state disk
              (Error ("Failed to download file: " +:+ statusText response)))
      in Hres.
    rewrite failed_state_run in Hres. discriminate.
Qed.

(** The chunks of a resolved call are those of its schedule. *)
Lemma resolved_inv_concat disk dest cs cs' term term' st :
  resolved_inv disk dest cs term st ->
  resolved_inv disk dest cs' term' st ->
  concat cs = concat cs'.
Proof.
  intros [_ _ _ _ _ (ws & Hws & _ & Hsi)] [_ _ _ _ _ (ws' & Hws' & _ & Hsi')].
  rewrite Hws in Hws'. injection Hws' as <-.
  rewrite <- (stream_inv_contents _ _ _ _ _ Hsi).
  apply (stream_inv_contents _ _ _ _ _ Hsi').
Qed.

Lemma download_resolved_schedule env version cs :
  download_resolved env version cs ->
  exists response cs' rest,
    env_fetch env (jarUrl version) = FetchResponse response /\
    ok response = true /\ body response = true /\
    settled (env_schedule env) = map ReadValue cs' ++ ReadDone :: rest /\
    concat cs' = concat cs.
Proof.
  intros (term & Hinv).
  destruct (resolved_schedule _ _ _ _ _ (ri_promise _ _ _ _ _ Hinv))
    as (response & cs' & rest & Hfetch & Hok & Hbody & Hs).
  exists response, cs', rest. repeat (split; [assumption|]).
  rewrite Hfetch in Hinv.
  destruct (downloadFile_resolved (env_disk env) response jarFile
              (jarText version) cs' rest (env_schedule env) Hok Hbody Hs)
    as (ticks & _ & Hinv').
  apply (resolved_inv_concat _ _ _ _ _ _ _ Hinv' Hinv).
Qed.

(** X12.  When the wizard finishes, Lavalink.jar in the directory holds
    exactly the body of the release the user selected: the response for
    the url of that version was ok, the reader delivered chunks and then
    the end of the stream, and the file is those chunks in order, all of
    them, although [downloadFile] had resolved before they were written
    and the wizard wrote its other files in the meantime. *)
Theorem finished_run_has_the_jar env w :
  main env = (Finished, w) ->
  exists list_ version response cs rest,
    env_fetch_json env releasesUrl = Ok (ReleaseArray list_) /\
    env_select env versionMessage list_ = Ok version /\
    env_fetch env (jarUrl version) = FetchResponse response /\
    ok response = true /\ body response = true /\
    settled (env_schedule env) = map ReadValue cs ++ ReadDone :: rest /\
    w_disk w !! jarFile = Some (concat cs).
Proof.
  intros Hmain.
  destruct (main_finished env w Hmain)
    as (dir & version & runScript & cs & exampleYml & content & Hasked &
        Hres & _ & _ & Hjar & _).
  destruct Hasked as (_ & (list_ & Hjson & _ & Hselect) & _).
  destruct (download_resolved_schedule env version cs Hres)
    as (response & cs' & rest & Hfetch & Hok & Hbody & Hs & Hcs).
  exists list_, version, response, cs', rest.
  repeat (split; [assumption|]). rewrite Hcs. exact Hjar.
Qed.

Lemma finished_run_has_the_jar_witness :
  exists cs rest,
    settled (env_schedule sample_env) = map ReadValue cs ++ ReadDone :: rest /\
    w_disk (main sample_env).2 !! jarFile = Some (concat cs).
Proof.
  destruct (finished_run_has_the_jar sample_env (main sample_env).2)
    as (list_ & version & response & cs & rest & _ & _ & _ & _ & _ & Hs & Hjar).
  - vm_compute. reflexivity.
  - exists cs, rest. split; [exact Hs|exact Hjar].
Defined.

(** X13.  When the wizard finishes, application.yml holds what lines
    140-173 make of the template fetched on line 129, which has been
    parsed by [yaml.load] in all three cases: the dump of the document
    with the three answers assigned if the user configures it, the
    template as fetched if the user keeps the comments, the dump of the
    parsed template otherwise. *)
Theorem finished_run_has_the_configuration env w :
  main env = (Finished, w) ->
  exists exampleYml content,
    env_fetch_text env exampleUrl = Ok exampleYml /\
    application_yml env exampleYml content /\
    w_disk w !! "application.yml" = Some (bytes_of_string content).
Proof.
  intros Hmain.
  destruct (main_finished env w Hmain)
    as (dir & version & runScript & cs & exampleYml & content & _ & _ &
        Hex & Hyml & _ & Hothers & _).
  exists exampleYml, content. split; [exact Hex|]. split; [exact Hyml|].
  rewrite Hothers by discriminate. unfold with_scripts.
  destruct runScript.
  - rewrite !lookup_insert_ne by discriminate. apply lookup_insert_eq.
  - apply lookup_insert_eq.
Qed.

Lemma finished_run_has_the_configuration_witness :
  w_disk (main sample_env).2 !! "application.yml" =
  Some (bytes_of_string "server: {port: '2334'}").
Proof.
  destruct (finished_run_has_the_configuration sample_env (main sample_env).2)
    as (exampleYml & content & _ & _ & Hfile).
  - vm_compute. reflexivity.
  - vm_compute. reflexivity.
Defined.

(** X14.  When the wizard finishes, run.sh and run.bat have been written
    exactly if the user asked for them: then they hold the two fixed
    scripts and run.sh, and nothing else, has been given mode 755;
    otherwise both are as the process found them and no mode has been
    set.  In both cases the last eleven lines printed are the closing
    message, which names the directory and mentions ./run.sh and
    run.bat. *)
Theorem run_scripts_only_on_request env w :
  main env = (Finished, w) ->
  exists dir runScript,
    env_input_string env dirMessage "lavalink-server" = Ok dir /\
    env_confirm env runScriptMessage = Ok runScript /\
    w_disk w !! "run.sh" =
      (if runScript then Some (bytes_of_string runScriptContent)
       else env_disk env !! "run.sh") /\
    w_disk w !! "run.bat" =
      (if runScript then Some (bytes_of_string runScriptWindowsContent)
       else env_disk env !! "run.bat") /\
    w_modes w = (if runScript then {["run.sh" := "755"]} else ∅) /\
    (exists before, w_actions w = before ++ map ALog (final_lines dir)) /\
    ALog "    ./run.sh (Linux/MacOS)" ∈ w_actions w.
Proof.
  intros Hmain.
  destruct (main_finished env w Hmain)
    as (dir & version & runScript & cs & exampleYml & content & Hasked & _ &
        _ & _ & _ & Hothers & Hmodes & before & Hacts).
  destruct Hasked as (Hdir & _ & Hrun).
  exists dir, runScript. split; [exact Hdir|]. split; [exact Hrun|].
  rewrite !Hothers by discriminate. unfold with_scripts.
  split; [|split; [|split; [exact Hmodes|split; [eauto|]]]].
  - destruct runScript.
    + rewrite lookup_insert_ne by discriminate. apply lookup_insert_eq.
    + apply lookup_insert_ne. discriminate.
  - destruct runScript.
    + apply lookup_insert_eq.
    + apply lookup_insert_ne. discriminate.
  - rewrite Hacts. apply elem_of_app. right. simpl. repeat constructor.
Qed.

Lemma run_scripts_only_on_request_witness :
  w_modes (main sample_env).2 = {["run.sh" := "755"]} /\
  w_disk (main sample_env).2 !! "run.bat" =
  Some (bytes_of_string runScriptWindowsContent).
Proof.
  destruct (run_scripts_only_on_request sample_env (main sample_env).2)
    as (dir & runScript & _ & Hrun & _ & Hbat & Hmodes & _).
  - vm_compute. reflexivity.
  - injection Hrun as <-. split; [exact Hmodes|exact Hbat].
Defined.

(** X15.  The wizard writes no file and sets no mode before the download
    has resolved: if [fs.writeFileSync] or [fs.chmodSync] has been called
    in a run, however the run ends, then the index was an array that is
    not empty, a version was selected at its prompt, the response for its jar was
    ok and had a body, and the reader reached the end of the stream
    without a failure. *)
Theorem writes_follow_the_download env a :
  a ∈ w_actions (main env).2 ->
  ~ writes_nothing a ->
  exists list_ version response cs rest,
    env_fetch_json env releasesUrl = Ok (ReleaseArray list_) /\
    list_ <> [] /\
    env_select env versionMessage list_ = Ok version /\
    env_fetch env (jarUrl version) = FetchResponse response /\
    ok response = true /\ body response = true /\
    settled (env_schedule env) = map ReadValue cs ++ ReadDone :: rest.
Proof.
  intros Ha Hwrites.
  assert (exists dir version runScript cs,
            asked env dir version runScript /\
            download_resolved env version cs) as Hresolved.
  { unfold main in Ha.
    pose proof (ensures_createLavalink env (initial_world env)
                  (pristine_initial env)) as Hens.
    destruct (createLavalink env (initial_world env)) as [[[]|e] w1].
    - destruct Hens as (dir & version & runScript & cs & Hasked & Hres & _).
      eauto 6.
    - destruct Hens as [(_ & _ & Hnone)|Hres].
      + rewrite Forall_forall in Hnone. destruct (Hwrites (Hnone a Ha)).
      + destruct Hres as (dir & version & runScript & cs & Hasked & Hres & _).
        eauto 6. }
  destruct Hresolved as (dir & version & runScript & cs & Hasked & Hres).
  destruct Hasked as (_ & (list_ & Hjson & Hlist & Hselect) & _).
  destruct (download_resolved_schedule env version cs Hres)
    as (response & cs' & rest & Hfetch & Hok & Hbody & Hs & _).
  exists list_, version, response, cs', rest. done.
Qed.

Lemma writes_follow_the_download_witness :
  exists list_ cs rest,
    env_fetch_json sample_env releasesUrl = Ok (ReleaseArray list_) /\
    list_ <> [] /\
    settled (env_schedule sample_env) = map ReadValue cs ++ ReadDone :: rest.
Proof.
  destruct (writes_follow_the_download sample_env (AChmod "run.sh" "755"))
    as (list_ & version & response & cs & rest & Hjson & Hlist & _ & _ & _ &
        _ & Hs).
  - vm_compute. repeat constructor.
  - intros H. exact H.
  - exists list_, cs, rest. done.
Defined.

(** X16.  However a run ends, the only files of the directory that can
    differ from what the process found there are Lavalink.jar,
    application.yml, run.sh and run.bat. *)
Theorem wizard_confined_to_its_files env path :
  path ∉ wizard_files ->
  w_disk (main env).2 !! path = env_disk env !! path.
Proof.
  intros Hpath.
  assert (path <> jarFile) as Hjar.
  { intros ->. apply Hpath. unfold wizard_files. set_solver. }
  destruct (main env) as [e w] eqn:Hmain. simpl.
  assert (e = Finished \/ e <> Finished) as [->|Hnot]
    by (destruct e; (left; reflexivity) || (right; discriminate)).
  - destruct (main_finished env w Hmain)
      as (dir & version & runScript & cs & exampleYml & content & _ & _ &
          _ & _ & _ & Hothers & _).
    rewrite (Hothers path Hjar). unfold with_scripts.
    assert (path <> "application.yml" /\ path <> "run.sh" /\
            path <> "run.bat") as (Happ & Hsh & Hbat).
    { unfold wizard_files in Hpath. set_solver. }
    destruct runScript; rewrite ?lookup_insert_ne by done; reflexivity.
  - unfold main in Hmain.
    pose proof (ensures_createLavalink env (initial_world env)
                  (pristine_initial env)) as Hens.
    destruct (createLavalink env (initial_world env)) as [[[]|e1] w1];
      [congruence|].
    injection Hmain as -> ->.
    destruct Hens as [(Hsame & _)|Hres]; [apply Hsame, Hjar|].
    destruct Hres as (dir & version & runScript & cs & _ & _ & d & modes &
                      Hagrees & (ws & Hws & _ & Hsi) & _).
    rewrite (si_others _ _ _ _ _ Hsi path Hjar). apply Hagrees, Hpath.
Qed.

Lemma wizard_confined_to_its_files_witness :
  w_disk (main sample_cancel_env).2 !! "README.md" = None.
Proof.
  rewrite (wizard_confined_to_its_files sample_cancel_env "README.md").
  - reflexivity.
  - unfold wizard_files, jarFile. intros Hin. elem_cases Hin.
Defined.

(** X17.  A template that [yaml.load] rejects stops every run that gets
    that far, also when the user asks for the template to be copied as it
    is, with its comments, for which no parsing would be needed. *)
Theorem template_is_always_parsed env exampleYml err :
  env_fetch_text env exampleUrl = Ok exampleYml ->
  env_yaml_load env exampleYml = Throw err ->
  (main env).1 <> Finished.
Proof.
  intros Hex Hload Hfinished.
  destruct (main env) as [e w] eqn:Hmain. simpl in Hfinished. subst e.
  destruct (main_finished env w Hmain)
    as (dir & version & runScript & cs & exampleYml' & content & _ & _ &
        Hex' & (json & Hload' & _) & _).
  congruence.
Qed.

Lemma template_is_always_parsed_witness :
  (main (with_confirm
           (with_yaml_load sample_env
              (fun _ => Throw (Error "bad indentation of a mapping entry")))
           (fun message =>
              Ok (negb (String.eqb message needConfigMessage))))).1
  <> Finished.
Proof.
  apply (template_is_always_parsed _ "server: # REST and WS server"
           (Error "bad indentation of a mapping entry"));
    reflexivity.
Defined.

(** ** The three assignments of lines 158-160 *)

Lemma lookup_store_eq key x fields :
  lookup_field key (store_field key x fields) = x.
Proof.
  induction fields as [|[k v] rest IH]; simpl.
  - rewrite String.eqb_refl. reflexivity.
  - destruct (String.eqb k key) eqn:Hk; simpl; rewrite Hk; [reflexivity|].
    exact IH.
Qed.

Lemma lookup_store_ne key key' x fields :
  key <> key' ->
  lookup_field key' (store_field key x fields) = lookup_field key' fields.
Proof.
  intros Hne. induction fields as [|[k v] rest IH]; simpl.
  - apply String.eqb_neq in Hne. rewrite Hne. reflexivity.
  - destruct (String.eqb k key) eqn:Hk; simpl.
    + apply String.eqb_eq in Hk. subst k.
      apply String.eqb_neq in Hne. rewrite Hne. reflexivity.
    + destruct (String.eqb k key'); [reflexivity|exact IH].
Qed.

Lemma set_prop_ok v key x :
  is_object v -> exists v', set_prop v key x = Ok v' /\ is_object v'.
Proof.
  destruct v; intros []; simpl; eexists; (split; [reflexivity|exact I]).
Qed.

Lemma set_prop_object v key x v' :
  set_prop v key x = Ok v' -> is_object v /\ is_object v'.
Proof. destruct v; simpl; intros [= <-]; split; exact I. Qed.

Lemma set_prop_get v key x v' :
  set_prop v key x = Ok v' -> get_prop v' key = Ok x.
Proof.
  destruct v; simpl; intros [= <-]; simpl; rewrite lookup_store_eq;
    reflexivity.
Qed.

Lemma set_prop_get_ne v key key' x v' :
  set_prop v key x = Ok v' -> key <> key' ->
  get_prop v' key' = get_prop v key'.
Proof.
  destruct v; simpl; intros [= <-] Hne; simpl;
    rewrite lookup_store_ne by exact Hne; reflexivity.
Qed.

(** Only an object has a property that is one. *)
Lemma get_prop_object v key node :
  get_prop v key = Ok node -> is_object node -> is_object v.
Proof. destruct v; simpl; intros [= <-] Hnode; exact Hnode || exact I. Qed.

Lemma update_child_get parent key child :
  is_object parent -> get_prop (update_child parent key child) key = Ok child.
Proof.
  destruct parent; intros []; simpl; rewrite lookup_store_eq; reflexivity.
Qed.

Lemma update_child_get_ne parent key key' child :
  key <> key' ->
  get_prop (update_child parent key child) key' = get_prop parent key'.
Proof.
  intros Hne. destruct parent; simpl; try reflexivity;
    rewrite lookup_store_ne by exact Hne; reflexivity.
Qed.

Lemma update_child_object parent key child :
  is_object parent -> is_object (update_child parent key child).
Proof. destruct parent; intros []; exact I. Qed.

(** What [json.a.b = x] needs and what it does. *)
Lemma assign2_ok json a b x :
  (exists json', assign2 json a b x = Ok json') <->
  exists node, get_prop json a = Ok node /\ is_object node.
Proof.
  unfold assign2. split.
  - intros (json' & H). destruct (get_prop json a) as [node|]; [|discriminate].
    destruct (set_prop node b x) as [node'|] eqn:Hset; [|discriminate].
    exists node. split; [reflexivity|].
    apply (set_prop_object _ _ _ _ Hset).
  - intros (node & -> & Hnode).
    destruct (set_prop_ok node b x Hnode) as (node' & -> & _). eauto.
Qed.

Lemma assign2_spec json a b x json' :
  assign2 json a b x = Ok json' ->
  is_object json' /\
  (exists node, get_prop json' a = Ok node /\ is_object node) /\
  read2 json' a b = Ok x /\
  (forall b', b <> b' -> read2 json' a b' = read2 json a b') /\
  (forall a', a <> a' -> get_prop json' a' = get_prop json a').
Proof.
  unfold assign2, read2. intros H.
  destruct (get_prop json a) as [node|] eqn:Hget; [|discriminate].
  destruct (set_prop node b x) as [node'|] eqn:Hset; [|discriminate].
  injection H as <-.
  destruct (set_prop_object _ _ _ _ Hset) as [Hnode Hnode'].
  pose proof (get_prop_object _ _ _ Hget Hnode) as Hjson.
  rewrite (update_child_get _ _ _ Hjson).
  split; [apply update_child_object, Hjson|].
  split; [eauto|].
  split; [apply (set_prop_get _ _ _ _ Hset)|].
  split.
  - intros b' Hne. apply (set_prop_get_ne _ _ _ _ _ Hset Hne).
  - intros a' Hne. apply update_child_get_ne, Hne.
Qed.

(** What [json.a.b.c = x] needs and what it does. *)
Lemma assign3_ok json a b c x :
  (exists json', assign3 json a b c x = Ok json') <->
  exists node leaf,
    get_prop json a = Ok node /\ get_prop node b = Ok leaf /\ is_object leaf.
Proof.
  unfold assign3. split.
  - intros (json' & H). destruct (get_prop json a) as [node|]; [|discriminate].
    destruct (assign2 node b c x) as [node'|] eqn:Hassign; [|discriminate].
    destruct (proj1 (assign2_ok node b c x)) as (leaf & Hleaf & Hobj); [eauto|].
    exists node, leaf. done.
  - intros (node & leaf & -> & Hleaf & Hobj).
    destruct (proj2 (assign2_ok node b c x)) as (node' & ->); eauto.
Qed.

Lemma assign3_spec json a b c x json' :
  assign3 json a b c x = Ok json' ->
  read3 json' a b c = Ok x /\
  (forall c', c <> c' -> read3 json' a b c' = read3 json a b c') /\
  (forall b', b <> b' -> read2 json' a b' = read2 json a b') /\
  (forall a', a <> a' -> get_prop json' a' = get_prop json a').
Proof.
  unfold assign3, read3. intros H.
  destruct (get_prop json a) as [node|] eqn:Hget; [|discriminate].
  destruct (assign2 node b c x) as [node'|] eqn:Hassign; [|discriminate].
  injection H as <-.
  destruct (assign2_spec _ _ _ _ _ Hassign)
    as (Hnode' & _ & Hread & Hleaves & Hothers).
  pose proof (get_prop_object _ _ _ Hget) as Hjson.
  assert (is_object json) as Hobj.
  { apply Hjson. unfold assign2 in Hassign.
    destruct node; simpl in Hassign; try discriminate; exact I. }
  rewrite (update_child_get _ _ _ Hobj).
  split; [exact Hread|]. split; [exact Hleaves|]. split.
  - intros b' Hne. unfold read2.
    rewrite (update_child_get _ _ _ Hobj), Hget. apply Hothers, Hne.
  - intros a' Hne. apply update_child_get_ne, Hne.
Qed.

Lemma read2_same json json' a b :
  get_prop json a = get_prop json' a -> read2 json a b = read2 json' a b.
Proof. unfold read2. intros ->. reflexivity. Qed.

Lemma read3_same json json' a b c :
  get_prop json a = get_prop json' a -> read3 json a b c = read3 json' a b c.
Proof. unfold read3. intros ->. reflexivity. Qed.

(** X18.  The three assignments of lines 158-160 put the three answers
    where the prompts read their defaults, and change nothing else in the
    document: every other top-level key, every other key of [server], of
    [lavalink] and of [lavalink.server] reads as before. *)
Theorem patch_sets_three_settings json address port password json3 :
  patched json address port password json3 ->
  read2 json3 "server" "address" = Ok address /\
  read2 json3 "server" "port" = Ok port /\
  read3 json3 "lavalink" "server" "password" = Ok password /\
  (forall key,
     key <> "server" -> key <> "lavalink" ->
     get_prop json3 key = get_prop json key) /\
  (forall key,
     key <> "address" -> key <> "port" ->
     read2 json3 "server" key = read2 json "server" key) /\
  (forall key,
     key <> "server" -> read2 json3 "lavalink" key = read2 json "lavalink" key) /\
  (forall key,
     key <> "password" ->
     read3 json3 "lavalink" "server" key = read3 json "lavalink" "server" key).
Proof.
  intros (json1 & json2 & H1 & H2 & H3).
  destruct (assign2_spec _ _ _ _ _ H1) as (_ & _ & Haddress & Hserver1 & Htop1).
  destruct (assign2_spec _ _ _ _ _ H2) as (_ & _ & Hport & Hserver2 & Htop2).
  destruct (assign3_spec _ _ _ _ _ _ H3)
    as (Hpassword & Hleaf3 & Hlavalink3 & Htop3).
  assert (get_prop json3 "server" = get_prop json2 "server") as Hs3
    by (apply Htop3; discriminate).
  assert (get_prop json2 "lavalink" = get_prop json "lavalink") as Hl2
    by (rewrite Htop2, Htop1 by discriminate; reflexivity).
  split; [|split; [|split; [exact Hpassword|split; [|split; [|split]]]]].
  - rewrite (read2_same _ _ _ _ Hs3), Hserver2 by discriminate. exact Haddress.
  - rewrite (read2_same _ _ _ _ Hs3). exact Hport.
  - intros key Hserver Hlavalink.
    rewrite Htop3, Htop2, Htop1 by congruence. reflexivity.
  - intros key Haddr Hprt.
    rewrite (read2_same _ _ _ _ Hs3), Hserver2, Hserver1 by congruence.
    reflexivity.
  - intros key Hkey.
    rewrite Hlavalink3 by congruence. apply read2_same, Hl2.
  - intros key Hkey.
    rewrite Hleaf3 by congruence. apply read3_same, Hl2.
Qed.

Lemma patch_sets_three_settings_witness :
  exists json3,
    read2 json3 "server" "port" = Ok (JString "2334") /\
    read2 json3 "logging" "level" = read2 sample_document "logging" "level" /\
    read3 json3 "lavalink" "server" "bufferDurationMs" = Ok (JNumber "400").
Proof.
  evar (json3 : js_value). exists json3.
  destruct (patch_sets_three_settings sample_document (JString "0.0.0.0")
              (JString "2334") (JString "youshallnotpass") json3)
    as (_ & Hport & _ & Htop & _ & _ & Hleaf).
  - eexists _, _. split; [reflexivity|]. split; [reflexivity|].
    unfold json3. reflexivity.
  - split; [exact Hport|]. split.
    + apply read2_same, Htop; discriminate.
    + rewrite Hleaf by discriminate. reflexivity.
Defined.

(** X19.  The three assignments go through exactly when the document
    has an object at [server] and one at [lavalink.server]: a mapping, a
    sequence, or one of the other objects [yaml.load] makes (the [Date]
    of a timestamp, the [Uint8Array] of a binary scalar), but no scalar
    and not [null].  The answers play no part.  A template without these
    sections makes a configuring run throw. *)
Theorem patch_needs_both_sections json address port password :
  (exists json3, patched json address port password json3) <->
  (exists server, get_prop json "server" = Ok server /\ is_object server) /\
  (exists lavalink server,
     get_prop json "lavalink" = Ok lavalink /\
     get_prop lavalink "server" = Ok server /\ is_object server).
Proof.
  split.
  - intros (json3 & json1 & json2 & H1 & H2 & H3).
    destruct (assign2_spec _ _ _ _ _ H1) as (_ & _ & _ & _ & Htop1).
    destruct (assign2_spec _ _ _ _ _ H2) as (_ & _ & _ & _ & Htop2).
    split; [apply (assign2_ok json "server" "address" address); eauto|].
    destruct (proj1 (assign3_ok json2 "lavalink" "server" "password" password))
      as (lavalink & server & Hl & Hs & Hobj); [eauto|].
    exists lavalink, server. split; [|done].
    rewrite <- Htop1, <- Htop2 by discriminate. exact Hl.
  - intros [Hserver (lavalink & server & Hl & Hs & Hobj)].
    destruct (proj2 (assign2_ok json "server" "address" address) Hserver)
      as (json1 & H1).
    destruct (assign2_spec _ _ _ _ _ H1) as (_ & Hserver1 & _ & _ & Htop1).
    destruct (proj2 (assign2_ok json1 "server" "port" port) Hserver1)
      as (json2 & H2).
    destruct (assign2_spec _ _ _ _ _ H2) as (_ & _ & _ & _ & Htop2).
    destruct (proj2 (assign3_ok json2 "lavalink" "server" "password" password))
      as (json3 & H3).
    { exists lavalink, server. split; [|done].
      rewrite Htop2, Htop1 by discriminate. exact Hl. }
    exists json3, json1, json2. done.
Qed.

Lemma patch_needs_both_sections_witness :
  ~ exists json3,
      patched (JObject [("server", JObject [])]) (JString "0.0.0.0")
        (JString "2333") (JString "") json3.
Proof.
  intros H.
  destruct (proj1 (patch_needs_both_sections _ _ _ _) H)
    as (_ & lavalink & server & Hl & Hs & Hobj).
  simpl in Hl. injection Hl as <-. discriminate Hs.
Defined.

(** ** When the wizard finishes *)

Lemma proceeds_bind {A B : Type} (m : wizard A) (k : A -> wizard B) a b :
  proceeds m a -> proceeds (k a) b -> proceeds (bind m k) b.
Proof.
  intros Hm Hk w. unfold bind. specialize (Hm w).
  destruct (m w) as [[a'|e] w']; simpl in Hm; [|discriminate].
  injection Hm as ->. apply Hk.
Qed.

Lemma proceeds_ret {A : Type} (a : A) : proceeds (ret a) a.
Proof. intros w. reflexivity. Qed.

Lemma proceeds_act a : proceeds (act a) tt.
Proof. intros w. reflexivity. Qed.

Lemma proceeds_background n : proceeds (background n) tt.
Proof.
  intros w. unfold background. destruct (w_stream w) as [ws|]; [|reflexivity].
  destruct (ws_io_n n ws (w_disk w)). reflexivity.
Qed.

Lemma proceeds_try {A : Type} (r : result A) a :
  r = Ok a -> proceeds (try_ r) a.
Proof. intros -> w. reflexivity. Qed.

Lemma proceeds_await {A : Type} env label (r : result A) a :
  r = Ok a -> proceeds (await env label r) a.
Proof.
  intros ->. unfold await.
  eapply proceeds_bind; [apply proceeds_background|apply proceeds_ret].
Qed.

Lemma proceeds_confirm env message b :
  env_confirm env message = Ok b -> proceeds (confirm env message) b.
Proof.
  intros H. unfold confirm.
  eapply proceeds_bind; [apply proceeds_act|apply proceeds_await, H].
Qed.

Lemma proceeds_input env message default x :
  env_input env message default = Ok x ->
  proceeds (input env message default) x.
Proof.
  intros H. unfold input.
  eapply proceeds_bind; [apply proceeds_act|apply proceeds_await, H].
Qed.

Lemma proceeds_fetch_or_exit {A : Type} env url message (r : result A) a :
  r = Ok a -> proceeds (fetch_or_exit env url message r) a.
Proof.
  intros ->. unfold fetch_or_exit.
  eapply proceeds_bind; [apply proceeds_act|].
  eapply proceeds_bind; [apply proceeds_background|apply proceeds_ret].
Qed.

Lemma proceeds_writeFileSync env path content :
  env_writeFileSync env path = None ->
  proceeds (writeFileSync env path content) tt.
Proof. intros H w. unfold writeFileSync. rewrite H. reflexivity. Qed.

Lemma proceeds_chmodSync env path mode :
  env_chmodSync env path = None -> proceeds (chmodSync env path mode) tt.
Proof. intros H w. unfold chmodSync. rewrite H. reflexivity. Qed.

(** Lines 134-173 go through when the prompts, [js-yaml] and the file
    system play along. *)
Lemma proceeds_application_yml env exampleYml content :
  application_yml env exampleYml content ->
  env_writeFileSync env "application.yml" = None ->
  proceeds
    (needConfig <- confirm env needConfigMessage ;;
     if needConfig : bool then configure env exampleYml
     else copy_example env exampleYml) tt.
Proof.
  intros (json & Hload & Hcases) Hwrite.
  destruct Hcases
    as [(Hconfig & d_address & d_port & d_password & address & port &
         password & json3 & Hda & Haddress & Hdp & Hport & Hdw & Hpassword &
         (json1 & json2 & H1 & H2 & H3) & Hdump)
       |[(Hconfig & Hcomment & ->)|(Hconfig & Hcomment & Hdump)]];
    (eapply proceeds_bind; [apply proceeds_confirm, Hconfig|]); cbv beta iota.
  - unfold configure.
    eapply proceeds_bind; [apply proceeds_try, Hload|].
    eapply proceeds_bind; [apply proceeds_try, Hda|].
    eapply proceeds_bind; [apply proceeds_input, Haddress|].
    eapply proceeds_bind; [apply proceeds_try, Hdp|].
    eapply proceeds_bind; [apply proceeds_input, Hport|].
    eapply proceeds_bind; [apply proceeds_try, Hdw|].
    eapply proceeds_bind; [apply proceeds_input, Hpassword|].
    eapply proceeds_bind; [apply proceeds_try, H1|].
    eapply proceeds_bind; [apply proceeds_try, H2|].
    eapply proceeds_bind; [apply proceeds_try, H3|].
    eapply proceeds_bind; [apply proceeds_try, Hdump|].
    apply proceeds_writeFileSync, Hwrite.
  - unfold copy_example.
    eapply proceeds_bind; [apply proceeds_confirm, Hcomment|].
    eapply proceeds_bind; [apply proceeds_try, Hload|].
    eapply proceeds_bind; [apply proceeds_ret|].
    apply proceeds_writeFileSync, Hwrite.
  - unfold copy_example.
    eapply proceeds_bind; [apply proceeds_confirm, Hcomment|].
    eapply proceeds_bind; [apply proceeds_try, Hload|].
    eapply proceeds_bind; [apply proceeds_try, Hdump|].
    apply proceeds_writeFileSync, Hwrite.
Qed.

Lemma proceeds_after_download env dir runScript exampleYml content :
  env_fetch_text env exampleUrl = Ok exampleYml ->
  application_yml env exampleYml content ->
  files_written env runScript ->
  proceeds (after_download env dir runScript) tt.
Proof.
  intros Hex Hyml [Hwrite Hscripts].
  pose proof (proceeds_application_yml env exampleYml content Hyml Hwrite)
    as Happ.
  unfold after_download.
  eapply proceeds_bind; [apply proceeds_fetch_or_exit, Hex|].
  intros w. specialize (Happ w). revert Happ. unfold bind.
  destruct (confirm env needConfigMessage w) as [[needConfig|e] w1];
    [|intros [=]].
  destruct ((if needConfig then configure env exampleYml
             else copy_example env exampleYml) w1) as [[[]|e] w2];
    [intros _|intros [=]].
  assert (proceeds (if runScript then write_run_scripts env else ret tt) tt)
    as Hrun.
  { destruct runScript; [|apply proceeds_ret].
    destruct (Hscripts eq_refl) as (Hsh & Hmode & Hbat).
    unfold write_run_scripts.
    eapply proceeds_bind; [apply proceeds_writeFileSync, Hsh|].
    eapply proceeds_bind; [apply proceeds_chmodSync, Hmode|].
    eapply proceeds_bind; [apply proceeds_act|].
    eapply proceeds_bind; [apply proceeds_writeFileSync, Hbat|].
    apply proceeds_act. }
  unfold console_log, act. cbv beta iota.
  specialize (Hrun (mkWorld
                      (w_actions w2
                         ++ [ALog "application.yml created successfully."])
                      (w_disk w2) (w_modes w2) (w_stream w2))).
  destruct ((if runScript then write_run_scripts env else ret tt) _)
    as [[[]|e] w3]; [reflexivity|discriminate Hrun].
Qed.

(** A promise that is rejected stays rejected. *)
Lemma rejected_stays text total st ev reason :
  st_promise st = Rejected reason ->
  st_promise (step text total st ev) = Rejected reason.
Proof.
  intros H. destruct ev as [| |r]; simpl.
  - unfold on_tick. destruct (st_interval st); exact H.
  - unfold on_stream_io. destruct (st_fileStream st) as [ws|]; [|exact H].
    destruct (ws_io ws (st_disk st)). exact H.
  - unfold on_read. rewrite H. exact H.
Qed.

Lemma run_rejected_stays text total evs : forall st reason,
  st_promise st = Rejected reason ->
  st_promise (run text total st evs) = Rejected reason.
Proof.
  induction evs as [|ev evs IH]; intros st reason H; [exact H|].
  rewrite run_cons. apply IH, rejected_stays, H.
Qed.

(** The caller's download is the call under the events that ran before
    the process exited. *)
Lemma caller_download_prefix disk network version evs :
  exists pre post,
    evs = pre ++ post /\
    p_download (createLavalink_download disk network version evs) =
    downloadFile disk (network (jarUrl version)) jarFile (jarText version)
      pre.
Proof.
  unfold createLavalink_download.
  assert (forall evs p done,
            p_download p =
            downloadFile disk (network (jarUrl version)) jarFile
              (jarText version) done ->
            exists pre post,
              done ++ evs = pre ++ post /\
              p_download
                (fold_left
                   (process_step (jarText version)
                      (totaledSizeMB
                         (response_totalSize (network (jarUrl version)))))
                   evs p) =
              downloadFile disk (network (jarUrl version)) jarFile
                (jarText version) pre) as Hgen.
  { clear evs. induction evs as [|ev evs IH]; intros p done Hp.
    - exists done, []. split; [reflexivity|exact Hp].
    - simpl. destruct (p_exitCode p) as [code|] eqn:Hexit.
      + unfold process_step at 2. rewrite Hexit.
        rewrite (process_exited _ _ evs p code Hexit).
        exists done, (ev :: evs). split; [reflexivity|exact Hp].
      + destruct (IH (process_step (jarText version)
                        (totaledSizeMB
                           (response_totalSize (network (jarUrl version))))
                        p ev) (done ++ [ev])) as (pre & post & Heq & Hdl).
        * unfold process_step. rewrite Hexit. unfold catch_download.
          simpl p_download. rewrite downloadFile_app, <- Hp. simpl.
          destruct (st_promise _); reflexivity.
        * exists pre, post. split; [|exact Hdl].
          rewrite <- Heq, <- app_assoc. reflexivity. }
  apply (Hgen evs _ []). unfold catch_download. simpl.
  destruct (st_promise _); reflexivity.
Qed.

Lemma download_jar_proceeds env version w :
  w_disk w = env_disk env ->
  download_succeeds env version ->
  exists w', download_jar env version w = (Next tt, w').
Proof.
  intros Hdisk (response & cs & rest & Hfetch & Hok & Hbody & Hs).
  assert (st_promise
            (downloadFile (env_disk env) (env_fetch env (jarUrl version))
               jarFile (jarText version) (env_schedule env)) = Resolved)
    as Hwhole.
  { rewrite Hfetch.
    destruct (downloadFile_resolved (env_disk env) response jarFile
                (jarText version) cs rest (env_schedule env) Hok Hbody Hs)
      as (ticks & _ & Hinv).
    apply (ri_promise _ _ _ _ _ Hinv). }
  unfold download_jar. rewrite Hdisk.
  destruct (caller_inv_run (env_disk env) (env_fetch env) version
              (env_schedule env))
    as [(Hexit & _ & _)|(reason & _ & _ & Hrej)].
  - rewrite Hexit, (caller_download_complete _ _ _ _ Hexit), Hwhole. eauto.
  - exfalso.
    destruct (caller_download_prefix (env_disk env) (env_fetch env) version
                (env_schedule env)) as (pre & post & Hevs & Hp).
    rewrite Hp in Hrej. rewrite Hevs, downloadFile_app in Hwhole.
    rewrite (run_rejected_stays _ _ _ _ _ Hrej) in Hwhole. discriminate.
Qed.

Lemma after_directory_proceeds env list_ dir version runScript acts :
  list_ <> [] ->
  env_select env versionMessage list_ = Ok version ->
  env_confirm env runScriptMessage = Ok runScript ->
  download_succeeds env version ->
  proceeds (after_download env dir runScript) tt ->
  exists w',
    after_directory env (ReleaseArray list_) dir
      (mkWorld acts (env_disk env) ∅ None) = (Next tt, w').
Proof.
  intros Hne Hselect Hrun Hdl Hafter.
  unfold after_directory, select_version.
  destruct list_ as [|first rest]; [done|].
  unfold bind, confirm, await, background, act, ret, bind.
  cbn -[download_jar after_download]. rewrite Hselect.
  cbn -[download_jar after_download]. rewrite Hrun.
  cbn -[download_jar after_download].
  match goal with
  | |- context [download_jar env version ?w0] =>
      destruct (download_jar_proceeds env version w0 eq_refl Hdl) as (w1 & ->)
  end.
  specialize (Hafter w1).
  destruct (after_download env dir runScript w1) as [[[]|e] w2];
    [eauto|discriminate Hafter].
Qed.

Lemma fails_bind_l {A B : Type} (m : wizard A) (k : A -> wizard B) :
  fails m -> fails (bind m k).
Proof.
  intros Hm w b. unfold bind. specialize (Hm w).
  destruct (m w) as [[a|e] w']; simpl in *; [destruct (Hm a eq_refl)|].
  discriminate.
Qed.

Lemma fails_bind_r {A B : Type} (m : wizard A) (k : A -> wizard B) :
  (forall a, fails (k a)) -> fails (bind m k).
Proof.
  intros Hk w b. unfold bind.
  destruct (m w) as [[a|e] w']; [apply Hk|simpl; discriminate].
Qed.

(** A prompt goes on with the answer only. *)
Lemma fails_after_confirm {B : Type} env message b (k : bool -> wizard B) :
  env_confirm env message = Ok b ->
  fails (k b) -> fails (bind (confirm env message) k).
Proof.
  intros Hanswer Hk w x. unfold bind.
  pose proof (proceeds_confirm env message b Hanswer w) as Hgo.
  destruct (confirm env message w) as [[b'|e] w']; simpl in Hgo;
    [|discriminate].
  injection Hgo as ->. apply Hk.
Qed.

Lemma fails_writeFileSync env path content err :
  env_writeFileSync env path = Some err ->
  fails (writeFileSync env path content).
Proof. intros H w a. unfold writeFileSync. rewrite H. discriminate. Qed.

Lemma fails_chmodSync env path mode err :
  env_chmodSync env path = Some err -> fails (chmodSync env path mode).
Proof. intros H w a. unfold chmodSync. rewrite H. discriminate. Qed.

Ltac fails_right :=
  repeat
    lazymatch goal with
    | |- fails (bind _ _) => apply fails_bind_r; intros ?
    | |- fails (if ?b then _ else _) => destruct b
    end.

Lemma fails_after_download_yml env dir runScript err :
  env_writeFileSync env "application.yml" = Some err ->
  fails (after_download env dir runScript).
Proof.
  intros Hwrite. unfold after_download.
  apply fails_bind_r; intros exampleYml.
  apply fails_bind_r; intros needConfig. apply fails_bind_l.
  destruct needConfig.
  - unfold configure. fails_right. apply (fails_writeFileSync _ _ _ _ Hwrite).
  - unfold copy_example.
    do 3 (apply fails_bind_r; intros ?).
    apply (fails_writeFileSync _ _ _ _ Hwrite).
Qed.

Lemma fails_after_download_scripts env dir :
  env_writeFileSync env "run.sh" <> None \/
  env_chmodSync env "run.sh" <> None \/
  env_writeFileSync env "run.bat" <> None ->
  fails (after_download env dir true).
Proof.
  intros Hscripts. unfold after_download.
  apply fails_bind_r; intros exampleYml.
  apply fails_bind_r; intros needConfig.
  apply fails_bind_r; intros ?. apply fails_bind_r; intros ?.
  apply fails_bind_l. unfold write_run_scripts.
  destruct (env_writeFileSync env "run.sh") as [err|] eqn:Hsh.
  { apply fails_bind_l, (fails_writeFileSync _ _ _ _ Hsh). }
  apply fails_bind_r; intros ?.
  destruct (env_chmodSync env "run.sh") as [err|] eqn:Hmode.
  { apply fails_bind_l, (fails_chmodSync _ _ _ _ Hmode). }
  apply fails_bind_r; intros ?. apply fails_bind_r; intros ?.
  destruct (env_writeFileSync env "run.bat") as [err|] eqn:Hbat.
  { apply fails_bind_l, (fails_writeFileSync _ _ _ _ Hbat). }
  destruct Hscripts as [H|[H|H]]; destruct (H eq_refl).
Qed.

Lemma fails_createLavalink env runScript :
  env_confirm env runScriptMessage = Ok runScript ->
  (forall dir, fails (after_download env dir runScript)) ->
  fails (createLavalink env).
Proof.
  intros Hrun Hafter. rewrite createLavalink_stages.
  apply fails_bind_r; intros versionList.
  apply fails_bind_r; intros dir. unfold after_directory.
  apply fails_bind_r; intros version.
  apply (fails_after_confirm env _ runScript _ Hrun).
  apply fails_bind_r; intros ?. apply Hafter.
Qed.

Lemma fails_not_finished env :
  fails (createLavalink env) -> (main env).1 <> Finished.
Proof.
  intros Hfails. unfold main.
  pose proof (stops_createLavalink env (initial_world env)) as Hstops.
  specialize (Hfails (initial_world env)).
  destruct (createLavalink env (initial_world env)) as [[[]|e] w1]; simpl.
  - destruct (Hfails tt eq_refl).
  - intros ->. exact Hstops.
Qed.

Lemma finished_entered env w versionList dir :
  main env = (Finished, w) ->
  env_fetch_json env releasesUrl = Ok versionList ->
  env_input_string env dirMessage "lavalink-server" = Ok dir ->
  directory_entered env dir.
Proof.
  unfold main. rewrite createLavalink_start. intros Hmain Hjson Hdir.
  rewrite Hjson, Hdir in Hmain. cbv zeta in Hmain. unfold directory_entered.
  destruct (env_existsSync env dir).
  - destruct (env_confirm env (overwriteMessage dir)) as [[]|];
      try discriminate Hmain.
    destruct (env_chdir env dir); [discriminate Hmain|done].
  - destruct (env_execSync env ("mkdir " +:+ dir)); [discriminate Hmain|].
    destruct (env_chdir env dir); [discriminate Hmain|done].
Qed.

(** X20.  The wizard finishes only if everything it asks of its
    surroundings succeeds: the index is a non-empty array and the three
    prompts before the download are answered; the directory does not
    exist and [mkdir] succeeds, or it exists and the user agrees to go
    on, and [process.chdir] succeeds; the response for the jar is ok, has
    a body and is read to its end; the template is fetched and made into
    the text of application.yml; and the files can be written.  When one
    of these fails the run exits, hangs or dies of an exception. *)
Theorem wizard_finishes_only_if env :
  (main env).1 = Finished ->
  exists dir version runScript exampleYml content,
    asked env dir version runScript /\
    directory_entered env dir /\
    download_succeeds env version /\
    env_fetch_text env exampleUrl = Ok exampleYml /\
    application_yml env exampleYml content /\
    files_written env runScript.
Proof.
  intros Hfinished. destruct (main env) as [e w] eqn:Hmain.
  simpl in Hfinished. subst e.
  destruct (main_finished env w Hmain)
    as (dir & version & runScript & cs & exampleYml & content & Hasked &
        Hres & Hex & Hyml & _).
  exists dir, version, runScript, exampleYml, content.
  split; [exact Hasked|].
  destruct Hasked as (Hdir & (list_ & Hjson & _ & _) & Hrun).
  split; [apply (finished_entered env w _ dir Hmain Hjson Hdir)|].
  split.
  { destruct (download_resolved_schedule env version cs Hres)
      as (response & cs' & rest & Hfetch & Hok & Hbody & Hs & _).
    exists response, cs', rest. done. }
  split; [exact Hex|]. split; [exact Hyml|].
  assert ((main env).1 = Finished) as Hfin by (rewrite Hmain; reflexivity).
  split.
  + destruct (env_writeFileSync env "application.yml") as [err|] eqn:Hwrite;
      [|reflexivity].
    destruct (fails_not_finished env); [|exact Hfin].
    apply (fails_createLavalink env runScript Hrun). intros dir'.
    apply (fails_after_download_yml env dir' runScript err Hwrite).
  + intros ->.
    assert (~ (env_writeFileSync env "run.sh" <> None \/
               env_chmodSync env "run.sh" <> None \/
               env_writeFileSync env "run.bat" <> None)) as Hnot.
    { intros Hscripts. destruct (fails_not_finished env); [|exact Hfin].
      apply (fails_createLavalink env true Hrun). intros dir'.
      apply (fails_after_download_scripts env dir' Hscripts). }
    destruct (env_writeFileSync env "run.sh");
      [destruct Hnot; left; discriminate|].
    destruct (env_chmodSync env "run.sh");
      [destruct Hnot; right; left; discriminate|].
    destruct (env_writeFileSync env "run.bat");
      [destruct Hnot; right; right; discriminate|].
    done.
Qed.

Lemma wizard_finishes_only_if_witness :
  exists version,
    download_succeeds sample_env version /\
    files_written sample_env true.
Proof.
  destruct (wizard_finishes_only_if sample_env)
    as (dir & version & runScript & exampleYml & content &
        (_ & _ & Hrun) & _ & Hdl & _ & _ & Hfiles).
  - vm_compute. reflexivity.
  - injection Hrun as <-. exists version. split; [exact Hdl|exact Hfiles].
Defined.

(** X23.  Provided that no operation of the write stream fails, which
    the environment takes for granted, these conditions are also enough:
    when the index is a non-empty array, the three prompts before the
    download are answered, the directory is entered, the response for the
    jar is ok, has a body and is read to its end, the template is fetched
    and made into the text of application.yml, and the files can be
    written, the wizard finishes. *)
Theorem wizard_finishes_if env dir version runScript exampleYml content :
  asked env dir version runScript ->
  directory_entered env dir ->
  download_succeeds env version ->
  env_fetch_text env exampleUrl = Ok exampleYml ->
  application_yml env exampleYml content ->
  files_written env runScript ->
  (main env).1 = Finished.
Proof.
  intros Hasked [Hexists Hchdir] Hdl Hex Hyml Hfiles.
  destruct Hasked as (Hdir & (list_ & Hjson & Hne & Hselect) & Hrun).
  pose proof (proceeds_after_download env dir runScript exampleYml content
                Hex Hyml Hfiles) as Hafter.
  unfold main. rewrite createLavalink_start, Hjson, Hdir. cbv zeta.
  destruct (env_existsSync env dir); rewrite Hexists, Hchdir;
    match goal with
    | |- context [after_directory env _ dir (mkWorld ?acts _ _ _)] =>
        destruct (after_directory_proceeds env list_ dir version runScript
                    acts Hne Hselect Hrun Hdl Hafter) as (w' & ->)
    end; reflexivity.
Qed.

Lemma wizard_finishes_if_witness :
  (main sample_env).1 = Finished.
Proof.
  apply (wizard_finishes_if sample_env "lavalink-server" "4.0.7" true
           "server: # REST and WS server" "server: {port: '2334'}").
  - split; [reflexivity|]. split; [|reflexivity].
    exists sample_releases. split; [reflexivity|]. split; [discriminate|].
    reflexivity.
  - split; reflexivity.
  - exists sample_response, sample_chunks, []. repeat split; reflexivity.
  - reflexivity.
  - exists sample_document. split; [reflexivity|]. left.
    split; [reflexivity|].
    exists (JString "0.0.0.0"), (JNumber "2333"), (JString "youshallnotpass"),
      (JString "0.0.0.0"), (JString "2334"), (JString "youshallnotpass").
    eexists. repeat (split; [reflexivity|]).
    split; [|reflexivity].
    eexists _, _. split; [reflexivity|]. split; reflexivity.
  - split; [reflexivity|]. intros _. repeat split; reflexivity.
Defined.

(** ** An exit while the stream is still writing *)

Lemma jar_inv_disk d cs w :
  jar_inv d cs w ->
  (forall path, path <> jarFile -> w_disk w !! path = d !! path) /\
  (w_disk w !! jarFile = d !! jarFile \/
   exists flushed,
     w_disk w !! jarFile = Some flushed /\ flushed `prefix_of` concat cs).
Proof.
  intros (ws & _ & _ & Hsi). split; [apply (si_others _ _ _ _ _ Hsi)|].
  destruct (ws_opened ws) eqn:Hopened.
  - right.
    destruct (stream_inv_prefix _ _ _ _ _ Hsi Hopened) as (flushed & ? & ? & _).
    eauto.
  - left. destruct (si_unopened _ _ _ _ _ Hsi Hopened) as (-> & _).
    reflexivity.
Qed.

Lemma after_directory_template_fails env list_ dir version runScript err acts :
  Forall quiet acts ->
  list_ <> [] ->
  env_select env versionMessage list_ = Ok version ->
  env_confirm env runScriptMessage = Ok runScript ->
  download_succeeds env version ->
  env_fetch_text env exampleUrl = Throw err ->
  exists w cs,
    after_directory env (ReleaseArray list_) dir
      (mkWorld acts (env_disk env) ∅ None) = (Stop (Exited 1), w) /\
    last (w_actions w) =
      Some (AError "Failed to fetch example.application.yml:" (Some err)) /\
    download_resolved env version cs /\
    jar_inv (env_disk env) cs w.
Proof.
  intros Hquiet Hne Hselect Hrun Hdl Hthrow.
  unfold after_directory, select_version.
  destruct list_ as [|first rest]; [done|].
  unfold bind, confirm, await, background, act, ret, bind.
  cbn -[download_jar after_download]. rewrite Hselect.
  cbn -[download_jar after_download]. rewrite Hrun.
  cbn -[download_jar after_download].
  match goal with
  | |- context [download_jar env version ?w0] =>
      pose proof (ensures_download_jar env version w0) as Hens;
      destruct (download_jar_proceeds env version w0 eq_refl Hdl)
        as (w1 & Hw1)
  end.
  rewrite Hw1 in Hens |- *.
  destruct Hens as (cs & Hres & Hstate).
  { repeat split. simpl.
    repeat (apply Forall_app; split); try exact Hquiet; repeat constructor. }
  unfold after_download, fetch_or_exit, bind. rewrite Hthrow.
  pose proof (settled_act _ _ _ (AFetch exampleUrl) w1 Hstate) as Hstate1.
  destruct (act (AFetch exampleUrl) w1) as [[[]|e] w2] eqn:Hact;
    [|discriminate Hact].
  simpl in Hstate1.
  pose proof (settled_background _ _ _ (env_io env exampleUrl) w2 Hstate1)
    as Hstate2.
  pose proof (background_next (env_io env exampleUrl) w2) as Hnext.
  destruct (background (env_io env exampleUrl) w2) as [[[]|e] w3];
    simpl in Hstate2, Hnext; [|discriminate Hnext].
  simpl. eexists _, cs. split; [reflexivity|]. simpl.
  split; [apply last_snoc|]. split; [exact Hres|].
  destruct Hstate2 as [(ws & Hws & He & Hsi) _]. exists ws. done.
Qed.

(** X21.  When the download has succeeded and the template cannot be
    fetched, the wizard logs the error and exits with code 1 without
    waiting for the write stream: no other file has changed, and
    Lavalink.jar is left as the stream had got it by then, untouched or
    holding a prefix of the body. *)
Theorem exit_after_download_leaves_partial_jar env dir version runScript err :
  asked env dir version runScript ->
  directory_entered env dir ->
  download_succeeds env version ->
  env_fetch_text env exampleUrl = Throw err ->
  exists w cs rest,
    main env = (Exited 1, w) /\
    last (w_actions w) =
      Some (AError "Failed to fetch example.application.yml:" (Some err)) /\
    settled (env_schedule env) = map ReadValue cs ++ ReadDone :: rest /\
    (forall path, path <> jarFile -> w_disk w !! path = env_disk env !! path) /\
    (w_disk w !! jarFile = env_disk env !! jarFile \/
     exists flushed,
       w_disk w !! jarFile = Some flushed /\ flushed `prefix_of` concat cs).
Proof.
  intros (Hdir & (list_ & Hjson & Hne & Hselect) & Hrun) [Hexists Hchdir] Hdl
    Hthrow.
  assert (forall acts,
            Forall quiet acts ->
            exists w cs rest,
              match
                after_directory env (ReleaseArray list_) dir
                  (mkWorld acts (env_disk env) ∅ None)
              with
              | (Next _, w0) => (Finished, settle w0)
              | (Stop e, w0) => (e, w0)
              end = (Exited 1, w) /\
              last (w_actions w) =
                Some (AError "Failed to fetch example.application.yml:"
                        (Some err)) /\
              settled (env_schedule env) = map ReadValue cs ++ ReadDone :: rest /\
              (forall path,
                 path <> jarFile -> w_disk w !! path = env_disk env !! path) /\
              (w_disk w !! jarFile = env_disk env !! jarFile \/
               exists flushed,
                 w_disk w !! jarFile = Some flushed /\
                 flushed `prefix_of` concat cs)) as Hafter.
  { intros acts Hquiet.
    destruct (after_directory_template_fails env list_ dir version runScript
                err acts Hquiet Hne Hselect Hrun Hdl Hthrow)
      as (w & cs & -> & Hlast & Hres & Hjar).
    destruct (download_resolved_schedule env version cs Hres)
      as (response & cs' & rest & _ & _ & _ & Hs & Hcs).
    destruct (jar_inv_disk _ _ _ Hjar) as [Hothers Hfile].
    exists w, cs', rest. rewrite Hcs. done. }
  unfold main. rewrite createLavalink_start, Hjson, Hdir. cbv zeta.
  destruct (env_existsSync env dir); rewrite Hexists, Hchdir;
    apply Hafter; repeat constructor.
Qed.

Lemma exit_after_download_leaves_partial_jar_witness :
  exists w,
    main sample_template_env = (Exited 1, w) /\ w_disk w !! jarFile = None.
Proof.
  destruct (exit_after_download_leaves_partial_jar sample_template_env
              "lavalink-server" "4.0.7" true (TypeError "fetch failed"))
    as (w & cs & rest & Hmain & _).
  - split; [reflexivity|]. split; [|reflexivity].
    exists sample_releases. split; [reflexivity|]. split; [discriminate|].
    reflexivity.
  - split; reflexivity.
  - exists sample_response, sample_chunks, []. repeat split; reflexivity.
  - reflexivity.
  - exists w. split; [exact Hmain|].
    assert (w = (main sample_template_env).2) as -> by (rewrite Hmain; done).
    vm_compute. reflexivity.
Defined.

(** ** When the wizard hangs *)

Lemma download_jar_stalls env version w :
  w_disk w = env_disk env ->
  download_stalls env version ->
  exists w', download_jar env version w = (Stop Hung, w').
Proof.
  intros Hdisk (response & cs & Hfetch & Hok & Hbody & Hs).
  assert (st_promise
            (downloadFile (env_disk env) (env_fetch env (jarUrl version))
               jarFile (jarText version) (env_schedule env)) = Pending)
    as Hwhole.
  { rewrite Hfetch.
    apply (pi_promise _ _ _ _ _ _
             (downloadFile_pending (env_disk env) response jarFile
                (jarText version) cs (env_schedule env) Hok Hbody Hs)). }
  unfold download_jar. rewrite Hdisk.
  destruct (caller_inv_run (env_disk env) (env_fetch env) version
              (env_schedule env))
    as [(Hexit & _ & _)|(reason & _ & _ & Hrej)].
  - rewrite Hexit, (caller_download_complete _ _ _ _ Hexit), Hwhole. eauto.
  - exfalso.
    destruct (caller_download_prefix (env_disk env) (env_fetch env) version
                (env_schedule env)) as (pre & post & Hevs & Hp).
    rewrite Hp in Hrej. rewrite Hevs, downloadFile_app in Hwhole.
    rewrite (run_rejected_stays _ _ _ _ _ Hrej) in Hwhole. discriminate.
Qed.

Lemma after_directory_stalls env list_ dir version runScript acts :
  list_ <> [] ->
  env_select env versionMessage list_ = Ok version ->
  env_confirm env runScriptMessage = Ok runScript ->
  download_stalls env version ->
  exists w',
    after_directory env (ReleaseArray list_) dir
      (mkWorld acts (env_disk env) ∅ None) = (Stop Hung, w').
Proof.
  intros Hne Hselect Hrun Hdl.
  unfold after_directory, select_version.
  destruct list_ as [|first rest]; [done|].
  unfold bind, confirm, await, background, act, ret, bind.
  cbn -[download_jar after_download]. rewrite Hselect.
  cbn -[download_jar after_download]. rewrite Hrun.
  cbn -[download_jar after_download].
  match goal with
  | |- context [download_jar env version ?w0] =>
      destruct (download_jar_stalls env version w0 eq_refl Hdl) as (w1 & ->)
  end.
  eauto.
Qed.

Lemma settled_not_done cs cs' rest :
  map ReadValue cs <> map ReadValue cs' ++ ReadDone :: rest.
Proof.
  intros Heq.
  assert (ReadDone ∈ map ReadValue cs) as Hin.
  { rewrite Heq. apply elem_of_app. right. left. }
  apply list_elem_of_fmap in Hin. destruct Hin as (c & Hc & _). discriminate.
Qed.

(** X22.  Once the wizard has got as far as the download (the index is a
    non-empty array, the directory has been entered, the version and the
    run-script question are answered) and the response for the jar is ok
    and has a body, a reader that delivers chunks and then neither the
    end of the stream nor an error leaves the run waiting at
    [await reader.read()] for ever: it neither finishes nor exits, it
    has written no file and set no mode, and no file but Lavalink.jar
    has changed.  (The write stream's operations are taken to succeed, as
    in the environment.) *)
Theorem stalled_download_hangs_the_wizard env dir version runScript :
  asked env dir version runScript ->
  directory_entered env dir ->
  download_stalls env version ->
  exists w,
    main env = (Hung, w) /\
    (forall path, path <> jarFile -> w_disk w !! path = env_disk env !! path) /\
    w_modes w = ∅ /\
    Forall writes_nothing (w_actions w).
Proof.
  intros Hasked [Hexists Hchdir] Hdl.
  assert ((main env).1 = Hung) as Hhung.
  { destruct Hasked as (Hdir & (list_ & Hjson & Hne & Hselect) & Hrun).
    unfold main. rewrite createLavalink_start. cbv zeta.
    rewrite Hjson, Hdir.
    destruct (env_existsSync env dir); rewrite Hexists, Hchdir;
      match goal with
      | |- context [after_directory env _ dir (mkWorld ?acts _ _ _)] =>
          destruct (after_directory_stalls env list_ dir version runScript
                      acts Hne Hselect Hrun Hdl) as (w' & ->)
      end; reflexivity. }
  exists (main env).2. split.
  { rewrite <- Hhung. apply surjective_pairing. }
  unfold main in *.
  pose proof (ensures_createLavalink env (initial_world env)
                (pristine_initial env)) as Hens.
  destruct (createLavalink env (initial_world env)) as [[[]|e] w1].
  - discriminate Hhung.
  - destruct Hens as [Hunwritten|Hres]; [exact Hunwritten|].
    destruct Hres as (dir' & version' & runScript' & cs & _ & Hres & _).
    destruct (download_resolved_schedule env version' cs Hres)
      as (response & cs' & rest & _ & _ & _ & Hs & _).
    destruct Hdl as (response0 & cs0 & _ & _ & _ & Hs0).
    rewrite Hs0 in Hs. destruct (settled_not_done _ _ _ Hs).
Qed.

Lemma stalled_download_hangs_the_wizard_witness :
  (main sample_stalled_env).1 = Hung /\
  w_modes (main sample_stalled_env).2 = ∅.
Proof.
  destruct (stalled_download_hangs_the_wizard sample_stalled_env
              "lavalink-server" "4.0.7" true)
    as (w & Hmain & _ & Hmodes & _).
  - split; [reflexivity|]. split; [|reflexivity].
    exists sample_releases. split; [reflexivity|]. split; [discriminate|].
    reflexivity.
  - split; reflexivity.
  - exists sample_response, [["001"; "002"]%byte]. repeat split; reflexivity.
  - rewrite Hmain. split; [reflexivity|exact Hmodes].
Defined.
